(** * Verification of [preprocessing_profiling/plot.py]

    A shallow embedding of the plotting module of preprocessing-profiling:
    the image wrappers ([histogram], [missing_matrix], ...) and the report
    pipeline [generate_report_visualizations].

    The Python code is effectful: it mutates the report (a nested dict whose
    blocks may be shared), allocates and mutates data frames, opens and
    closes matplotlib figures, and calls external renderers that may raise.
    The embedding is a state-and-exception monad over a [world] that holds
    exactly these pieces.  pandas, numpy, base64 and urllib are libraries the
    module calls; the operations used are modelled by executable functions
    that follow the libraries' documented behaviour. *)

From Stdlib Require Import ZArith String Ascii List Lia.
From Stdlib.Strings Require Import Byte.
From stdpp Require Import base list strings pretty.
Import ListNotations.

Local Open Scope string_scope.
Local Open Scope list_scope.

(** ** Python exceptions *)

(** The external calls of the module, used to tag the exception an external
    call raises with the place it comes from. *)
Inductive site :=
| StyleDefault      (* matplotlib.style.use("default") *)
| StyleProject      (* matplotlib.style.use(<package mplstyle>) *)
| Plotting          (* msno.*, Series.plot, imshow, ...: building a figure *)
| Savefig           (* figure.savefig *)
| Unique            (* np.unique *)
| Fit               (* PrecisionRecallCurve.fit *)
| Score             (* PrecisionRecallCurve.score *)
| Poof              (* PrecisionRecallCurve.poof *)
| Finalize.         (* PrecisionRecallCurve.finalize *)

Inductive exn :=
| KeyError (key : string)
| IndexError
| ValueError
| TypeError
| ZeroDivisionError
| External (s : site).

Inductive outcome (A : Type) :=
| Return (a : A)
| Raise (e : exn).
Arguments Return {A} a.
Arguments Raise {A} e.

#[global] Instance site_eq_dec : EqDecision site.
Proof. solve_decision. Defined.
#[global] Instance exn_eq_dec : EqDecision exn.
Proof. solve_decision. Defined.

(** ** pandas values *)

Module Pandas.

(** A cell of a data frame: the Python object it holds, which is the missing
    value [nan], an integer or a string.  The frames of this model are
    frames of such objects: [None], floats other than [nan] and the values
    of the other dtypes are not among their cells, and a value is what it
    is whatever the other cells of its column are.  Where numpy would
    convert the values of a frame to a common numeric dtype (an integer
    column beside a column of floats or of missing values only), the model
    does not follow it; the properties that depend on the labels as numpy
    hands them over are stated for [exact_labels], on which no conversion
    takes place. *)
Inductive cell :=
| NaN
| Int (z : Z)
| Str (s : string).

#[global] Instance cell_eq_dec : EqDecision cell.
Proof. solve_decision. Defined.

(** Elementwise [==] of pandas: a missing value is equal to nothing, not
    even to itself; [!=] is its negation. *)
Definition cell_eq (a b : cell) : bool :=
  match a, b with
  | Int x, Int y => bool_decide (x = y)
  | Str s, Str t => bool_decide (s = t)
  | _, _ => false
  end.

Definition cell_ne (a b : cell) : bool := negb (cell_eq a b).

(** Python's [str] on a cell: [nan] for the missing value, the decimal
    digits of an integer, a string as it is. *)
Definition str (c : cell) : string :=
  match c with
  | NaN => "nan"
  | Int z => pretty z
  | Str s => s
  end.

(** A row carries its index label; a frame is its column names and its rows
    in order. *)
Record row := Row { label : Z; cells : list cell }.

Record frame := Frame { columns : list string; rows : list row }.

#[global] Instance row_eq_dec : EqDecision row.
Proof. solve_decision. Defined.
#[global] Instance frame_eq_dec : EqDecision frame.
Proof. solve_decision. Defined.

(** A series: index labels with their values. *)
Definition series := list (Z * cell).

Definition ncols (df : frame) : nat := length (columns df).

(** The cell of a row at a column position. *)
Definition at_col (j : nat) (r : row) : cell := nth j (cells r) NaN.

(** [df.iloc[:, -k]]: the k-th column from the end, [IndexError] when the
    frame has fewer than [k] columns. *)
Definition iloc_col (df : frame) (k : nat) : outcome series :=
  if bool_decide (1 <= k <= ncols df)%nat
  then Return (map (fun r => (label r, at_col (ncols df - k) r)) (rows df))
  else Raise IndexError.

(** [s1 != s2] and [s == v] on series of one frame, as boolean masks by
    position. *)
Definition series_ne (s1 s2 : series) : list bool :=
  zip_with (fun a b => cell_ne a.2 b.2) s1 s2.

Definition series_eq_scalar (s : series) (v : cell) : list bool :=
  map (fun a => cell_eq a.2 v) s.

Definition mask_and (m1 m2 : list bool) : list bool := zip_with andb m1 m2.
Definition mask_not (m : list bool) : list bool := map negb m.

(** The entries of [l] at the positions where the mask holds. *)
Fixpoint select {A} (m : list bool) (l : list A) : list A :=
  match m, l with
  | b :: m', x :: l' => if b then x :: select m' l' else select m' l'
  | _, _ => []
  end.

(** [df[mask]]: a new frame with the selected rows, labels kept. *)
Definition getitem_mask (df : frame) (m : list bool) : frame :=
  {| columns := columns df; rows := select m (rows df) |}.

(** [df.iloc[:, -k:]]: the last [k] columns (all of them when there are
    fewer), by position. *)
Definition iloc_last (k : nat) (df : frame) : frame :=
  let n := ncols df in
  let js := seq (n - k) (Nat.min n k) in
  {| columns := drop (n - k) (columns df);
     rows := map (fun r => Row (label r) (map (fun j => at_col j r) js))
                 (rows df) |}.

(** [DataFrame.duplicated()]: a row is a duplicate when an earlier row has
    the same cells (missing values compare equal here). *)
Fixpoint duplicated_from (seen : list (list cell)) (l : list row) : list bool :=
  match l with
  | [] => []
  | r :: t => bool_decide (cells r ∈ seen) :: duplicated_from (cells r :: seen) t
  end.

Definition duplicated (df : frame) : list bool := duplicated_from [] (rows df).

(** [df.drop_duplicates()] is [df[~df.duplicated()]]. *)
Definition drop_duplicates (df : frame) : frame :=
  getitem_mask df (mask_not (duplicated df)).

(** [df.append(other)] for frames with the same columns (both operands are
    selections of one frame wherever the module appends): the rows of
    [other] follow those of [df], labels kept. *)
Definition append (df other : frame) : frame :=
  {| columns := columns df; rows := rows df ++ rows other |}.

(** [np.array(df)]: the rows as arrays of cells, the objects of the frame
    themselves. *)
Definition np_array (df : frame) : list (list cell) := map cells (rows df).

(** Indexing a numpy row: [pair[0]], [pair[1]], [pair[-1]]. *)
Definition item (p : list cell) (i : nat) : cell := nth i p NaN.
Definition item_last (p : list cell) : cell := List.last p NaN.

End Pandas.
Import Pandas.

(** ** Error-pair extraction (plot.py, lines 280 and 289) *)

Definition bind_outcome {A B} (o : outcome A) (k : A -> outcome B) : outcome B :=
  match o with
  | Return a => k a
  | Raise e => Raise e
  end.

(** [np.array(df[df.iloc[:, -1] != df.iloc[:, -2]].iloc[:, -2:].drop_duplicates())] *)
Definition combinations (df : frame) : outcome (list (list cell)) :=
  bind_outcome (iloc_col df 1) (fun predicted =>
  bind_outcome (iloc_col df 2) (fun actual =>
  Return (np_array (drop_duplicates
            (iloc_last 2 (getitem_mask df (series_ne predicted actual))))))).

(** The mask of [(df.iloc[:, -2] == pair[0]) & (df.iloc[:, -1] == pair[-1])]. *)
Definition pair_mask (df : frame) (pair : list cell) : outcome (list bool) :=
  bind_outcome (iloc_col df 2) (fun actual =>
  bind_outcome (iloc_col df 1) (fun predicted =>
  Return (mask_and (series_eq_scalar actual (item pair 0))
                   (series_eq_scalar predicted (item_last pair))))).

(** [df[mask].append(df[~mask])], the frame handed to the renderer for a
    pair (lines 283 and 292). *)
Definition reordered (df : frame) (pair : list cell) : outcome frame :=
  bind_outcome (pair_mask df pair) (fun m1 =>
  bind_outcome (pair_mask df pair) (fun m2 =>
  Return (append (getitem_mask df m1) (getitem_mask df (mask_not m2))))).

(** [str(pair[0])+"→"+str(pair[1])] *)
Definition pair_name (pair : list cell) : string :=
  str (item pair 0) ++ "→" ++ str (item pair 1).

(** ** Column assignment [df[name] = series] *)

Definition index (df : frame) : list Z := map label (rows df).

Fixpoint position (name : string) (cols : list string) : option nat :=
  match cols with
  | [] => None
  | c :: t => if bool_decide (c = name) then Some 0%nat
              else option_map S (position name t)
  end.

(** [df[name]]: the column called [name], [KeyError] when there is none. *)
Definition getitem_col (df : frame) (name : string) : outcome series :=
  match position name (columns df) with
  | Some j => Return (map (fun r => (label r, at_col j r)) (rows df))
  | None => Raise (KeyError name)
  end.

Fixpoint series_lookup (i : Z) (s : series) : option cell :=
  match s with
  | [] => None
  | (j, v) :: t => if bool_decide (j = i) then Some v else series_lookup i t
  end.

(** A frame without rows takes the index of the assigned series, its own
    columns missing (pandas' [_ensure_valid_index]). *)
Definition ensure_valid_index (df : frame) (s : series) : frame :=
  match rows df with
  | [] => {| columns := columns df;
             rows := map (fun a => Row a.1 (replicate (ncols df) NaN)) s |}
  | _ :: _ => df
  end.

(** The values of the series laid along the frame's index: taken as they are
    when the two indexes coincide, looked up by label otherwise (missing
    where the series has no such label); reindexing a series with repeated
    labels raises [ValueError]. *)
Definition reindexed (df : frame) (s : series) : outcome (list cell) :=
  if bool_decide (map fst s = index df) then Return (map snd s)
  else if bool_decide (NoDup (map fst s))
  then Return (map (fun i => default NaN (series_lookup i s)) (index df))
  else Raise ValueError.

(** Store the values as column [name]: in place when the frame has this
    column, as a new last column otherwise. *)
Definition set_column (df : frame) (name : string) (v : list cell) : frame :=
  let n := ncols df in
  match position name (columns df) with
  | Some j =>
      {| columns := columns df;
         rows := zip_with (fun r x => Row (label r) (<[j := x]> (resize n NaN (cells r))))
                          (rows df) v |}
  | None =>
      {| columns := columns df ++ [name];
         rows := zip_with (fun r x => Row (label r) (resize n NaN (cells r) ++ [x]))
                          (rows df) v |}
  end.

Definition setitem_col (df : frame) (name : string) (s : series) : outcome frame :=
  let df1 := ensure_valid_index df s in
  bind_outcome (reindexed df1 s) (fun v => Return (set_column df1 name v)).

(** ** base64 and percent-encoding *)

#[global] Instance byte_eq_dec : EqDecision byte := Byte.byte_eq_dec.

Definition byteZ (b : byte) : Z := Z.of_N (Byte.to_N b).

Definition b64_alphabet : list byte :=
  list_byte_of_string
    "ABCDEFGHIJKLMNOPQRSTUVWXYZabcdefghijklmnopqrstuvwxyz0123456789+/".

Definition b64_pad : byte := "="%byte.

Definition b64_char (n : Z) : byte := nth (Z.to_nat n) b64_alphabet b64_pad.

(** [base64.b64encode]: three bytes make a 24-bit group, cut into four
    6-bit digits; a final group of one or two bytes is padded with [=]. *)
Fixpoint b64encode (data : list byte) : list byte :=
  match data with
  | [] => []
  | [a] =>
      let n := Z.shiftl (byteZ a) 16 in
      [b64_char (Z.shiftr n 18); b64_char (Z.land (Z.shiftr n 12) 63);
       b64_pad; b64_pad]
  | [a; b] =>
      let n := Z.lor (Z.shiftl (byteZ a) 16) (Z.shiftl (byteZ b) 8) in
      [b64_char (Z.shiftr n 18); b64_char (Z.land (Z.shiftr n 12) 63);
       b64_char (Z.land (Z.shiftr n 6) 63); b64_pad]
  | a :: b :: c :: rest =>
      let n := Z.lor (Z.lor (Z.shiftl (byteZ a) 16) (Z.shiftl (byteZ b) 8))
                     (byteZ c) in
      b64_char (Z.shiftr n 18) :: b64_char (Z.land (Z.shiftr n 12) 63)
      :: b64_char (Z.land (Z.shiftr n 6) 63) :: b64_char (Z.land n 63)
      :: b64encode rest
  end.

(** [urllib.parse.quote(data)] with its default [safe='/']: letters, digits
    and [_.-~/] stay, every other byte becomes [%XX] in upper-case hex. *)
Definition quote_safe : list byte :=
  list_byte_of_string
    "ABCDEFGHIJKLMNOPQRSTUVWXYZabcdefghijklmnopqrstuvwxyz0123456789_.-~/".

Definition hex_digit (n : Z) : ascii :=
  nth (Z.to_nat n) (list_ascii_of_string "0123456789ABCDEF") "0"%char.

Definition quote_byte (b : byte) : string :=
  if bool_decide (b ∈ quote_safe) then String (ascii_of_byte b) EmptyString
  else String "%" (String (hex_digit (Z.shiftr (byteZ b) 4))
                  (String (hex_digit (Z.land (byteZ b) 15)) EmptyString)).

Fixpoint quote (data : list byte) : string :=
  match data with
  | [] => EmptyString
  | b :: t => quote_byte b ++ quote t
  end.

(** The encoding line shared by every wrapper:
    ['data:image/png;base64,' + quote(base64.b64encode(imgdata.getvalue()))] *)
Definition data_uri_prefix : string := "data:image/png;base64,".

Definition result_string (imgdata : list byte) : string :=
  data_uri_prefix ++ quote (b64encode imgdata).

(** *** Decoding, the reader's side of the wire format *)

(** The digit of a base64 character, if it is one. *)
Fixpoint b64_index_from (k : Z) (alphabet : list byte) (c : byte) : option Z :=
  match alphabet with
  | [] => None
  | a :: t => if bool_decide (a = c) then Some k else b64_index_from (k + 1) t c
  end.

Definition b64_digit (c : byte) : option Z := b64_index_from 0 b64_alphabet c.

Definition byte_of_Z (n : Z) : byte :=
  default "000"%byte (Byte.of_N (Z.to_N (Z.land n 255))).

(** [base64.b64decode] on padded input. *)
Fixpoint b64decode (text : list byte) : option (list byte) :=
  match text with
  | [] => Some []
  | c0 :: c1 :: c2 :: c3 :: rest =>
      d0 ← b64_digit c0; d1 ← b64_digit c1;
      let hi := Z.lor (Z.shiftl d0 18) (Z.shiftl d1 12) in
      if bool_decide (c3 = b64_pad) then
        match rest with
        | [] =>
            if bool_decide (c2 = b64_pad) then Some [byte_of_Z (Z.shiftr hi 16)]
            else d2 ← b64_digit c2;
                 let n := Z.lor hi (Z.shiftl d2 6) in
                 Some [byte_of_Z (Z.shiftr n 16); byte_of_Z (Z.shiftr n 8)]
        | _ :: _ => None
        end
      else
        d2 ← b64_digit c2; d3 ← b64_digit c3;
        let n := Z.lor (Z.lor hi (Z.shiftl d2 6)) d3 in
        tl ← b64decode rest;
        Some (byte_of_Z (Z.shiftr n 16) :: byte_of_Z (Z.shiftr n 8)
              :: byte_of_Z n :: tl)
  | _ => None
  end.

Definition hex_value (c : ascii) : option Z :=
  match b64_index_from 0 (list_byte_of_string "0123456789ABCDEF") (byte_of_ascii c) with
  | Some v => Some v
  | None => b64_index_from 10 (list_byte_of_string "abcdef") (byte_of_ascii c)
  end.

(** [urllib.parse.unquote_to_bytes]: [%XX] becomes the byte, the rest is
    kept. *)
Fixpoint unquote (s : string) : list byte :=
  match s with
  | EmptyString => []
  | String c t =>
      let plain := byte_of_ascii c :: unquote t in
      if Ascii.eqb c "%" then
        match t with
        | String h (String l t') =>
            match hex_value h, hex_value l with
            | Some x, Some y => byte_of_Z (16 * x + y) :: unquote t'
            | _, _ => plain
            end
        | _ => plain
        end
      else plain
  end.

(** ** The report, the figures and the world *)

(** Addresses of Python objects. *)
Abbreviation loc := nat (only parsing).

(** An entry of [prediction_matrixes]: [{"name": ..., "image": ...}]. *)
Record matrix := Matrix { name : string; image : string }.

(** A train/test split: [{x_train, y_train, x_test, y_test}]. *)
Record train_test := TrainTest {
  x_train : frame; y_train : series; x_test : frame; y_test : series }.

(** A result block, a dict: a key is present or not. *)
Module Block.
Record t := Make {
  result : option loc;
  split : option train_test;
  prediction_matrixes : option (list matrix);
  precision_recall_curve : option string }.
End Block.

(** The report dict; its blocks and frames are objects of their own, held by
    address, so two names may denote one block. *)
Module Report.
Record dataframes := Dataframes { modified : option loc; test : option loc }.
Record t := Make {
  dataframe : option dataframes;
  baseline : option loc;
  strategy_classifications : option (list (string * loc));
  missing_matrix : option string }.
End Report.

(** Keyword arguments of the histogram wrappers, which pass them on as
    [**kwargs]: the three keywords [_plot_histogram] has, each given or not,
    and the names of the other keywords given. *)
Record hist_kwargs := HistKwargs {
  kw_bins : option Z; kw_figsize : option (Z * Z); kw_facecolor : option string;
  kw_other : list string }.

(** A yellowbrick [PrecisionRecallCurve]: its classes, the data it was
    fitted and scored on, and its axes once it has drawn. *)
Record visualizer := Visualizer {
  classes : list cell;
  fitted : option (frame * series);
  scored : option (frame * series);
  ax : option nat }.

(** What an external plotting call is asked to draw.  [MsnoMatrix df false]
    is the call [msno.matrix(df)], [MsnoMatrix df true] the call
    [msno.matrix(df, predictions = True)]. *)
Inductive request :=
| MsnoMatrix (df : frame) (predictions : bool)
| MsnoBar (df : frame)
| MsnoHeatmap (df : frame)
| MsnoDendrogram (df : frame)
| SeriesHist (s : series) (bins : Z) (figsize : Z * Z) (facecolor : string)
| DateHist (s : series) (bins : Z) (figsize : Z * Z) (facecolor : string)
           (drawn : bool)
| MiniHist (full : request)
| Imshow (corrdf : frame) (title : string)
| PrecisionRecall (pc : visualizer).

(** A matplotlib axes object: the figure it lives on and what was drawn. *)
Record plot := Plot { figure : nat; content : request }.

Record world := World {
  report : Report.t;
  blocks : list Block.t;            (* the block dicts, by address *)
  frames : list frame;              (* the data frames, by address *)
  visualizers : list visualizer;    (* the visualizers, by address *)
  figures : list nat;               (* open figures, the current one first *)
  next_figure : nat;
  calls : list request;             (* renderer calls so far, oldest first *)
  styles : list string }.           (* process-wide styles applied *)

Definition with_report (r : Report.t) (w : world) : world :=
  World r (blocks w) (frames w) (visualizers w) (figures w) (next_figure w)
        (calls w) (styles w).
Definition with_blocks (b : list Block.t) (w : world) : world :=
  World (report w) b (frames w) (visualizers w) (figures w) (next_figure w)
        (calls w) (styles w).
Definition with_frames (f : list frame) (w : world) : world :=
  World (report w) (blocks w) f (visualizers w) (figures w) (next_figure w)
        (calls w) (styles w).
Definition with_visualizers (v : list visualizer) (w : world) : world :=
  World (report w) (blocks w) (frames w) v (figures w) (next_figure w)
        (calls w) (styles w).
Definition with_figures (f : list nat) (n : nat) (w : world) : world :=
  World (report w) (blocks w) (frames w) (visualizers w) f n (calls w)
        (styles w).
Definition with_calls (c : list request) (w : world) : world :=
  World (report w) (blocks w) (frames w) (visualizers w) (figures w)
        (next_figure w) c (styles w).
Definition with_styles (s : list string) (w : world) : world :=
  World (report w) (blocks w) (frames w) (visualizers w) (figures w)
        (next_figure w) (calls w) s.

(** ** The libraries outside the module *)

Inductive hist_outcome := HistDrawn | HistCannotPlotDates | HistFails.

(** How the external calls answer: whether a call succeeds and the bytes a
    figure is saved as.  [is_date] stands for
    [base.get_vartype(series) == base.TYPE_DATE]; [preprocessing_profiling.base]
    is another module of the package. *)
Module Ext.
Record env := Env {
  style_use : string -> bool;
  is_date : series -> bool;
  draws : request -> bool;
  hist_dates : series -> hist_outcome;
  major_ticks : request -> nat;
  savefig : request -> option (list byte);
  unique : series -> option (list cell);
  fit : visualizer -> frame -> series -> bool;
  score : visualizer -> frame -> series -> bool;
  poof : visualizer -> option (list byte);
  finalize : visualizer -> bool }.
End Ext.

(** ** The state-and-exception monad *)

Definition M (A : Type) : Type := world -> outcome A * world.

Definition ret {A} (a : A) : M A := fun w => (Return a, w).

Definition raise {A} (e : exn) : M A := fun w => (Raise e, w).

Definition bind {A B} (m : M A) (k : A -> M B) : M B :=
  fun w => match m w with
           | (Return a, w') => k a w'
           | (Raise e, w') => (Raise e, w')
           end.

Declare Scope py_scope.
Delimit Scope py_scope with py.
Notation "x <- m ;; k" := (bind m (fun x => k))
  (at level 100, m at next level, right associativity) : py_scope.
Notation "m ;; k" := (bind m (fun _ => k))
  (at level 100, right associativity) : py_scope.
Local Open Scope py_scope.

Definition lift {A} (o : outcome A) : M A := fun w => (o, w).

(** [d[key]] on a dict modelled by an optional field. *)
Definition getitem {A} (key : string) (field : option A) : M A :=
  match field with
  | Some a => ret a
  | None => raise (KeyError key)
  end.

(** [try: m except: pass] *)
Definition try_except_pass (m : M unit) : M unit :=
  fun w => match m w with
           | (Return _, w') => (Return tt, w')
           | (Raise _, w') => (Return tt, w')
           end.

(** [for x in l: body] *)
Fixpoint for_ {A} (l : list A) (body : A -> M unit) : M unit :=
  match l with
  | [] => ret tt
  | x :: t => body x ;; for_ t body
  end.

(** Reading and writing objects by address.  A Python reference always
    denotes an object; an address outside the store raises [NoObject], so a
    world with a dangling address never assembles. *)
Definition NoObject : exn := KeyError "<no object>".

Definition get_report : M Report.t := fun w => (Return (report w), w).

Definition load_block (l : loc) : M Block.t :=
  fun w => match blocks w !! l with
           | Some b => (Return b, w)
           | None => (Raise NoObject, w)
           end.

Definition store_block (l : loc) (b : Block.t) : M unit :=
  fun w => (Return tt, with_blocks (<[l := b]> (blocks w)) w).

Definition load_frame (l : loc) : M frame :=
  fun w => match frames w !! l with
           | Some f => (Return f, w)
           | None => (Raise NoObject, w)
           end.

Definition store_frame (l : loc) (f : frame) : M unit :=
  fun w => (Return tt, with_frames (<[l := f]> (frames w)) w).

Definition alloc_frame (f : frame) : M loc :=
  fun w => (Return (length (frames w)), with_frames (frames w ++ [f]) w).

Definition load_visualizer (l : loc) : M visualizer :=
  fun w => match visualizers w !! l with
           | Some v => (Return v, w)
           | None => (Raise NoObject, w)
           end.

Definition store_visualizer (l : loc) (v : visualizer) : M unit :=
  fun w => (Return tt, with_visualizers (<[l := v]> (visualizers w)) w).

Definition alloc_visualizer (v : visualizer) : M loc :=
  fun w => (Return (length (visualizers w)),
            with_visualizers (visualizers w ++ [v]) w).

(** ** matplotlib's figures *)

(** [plt.figure()]: a new figure, which becomes the current one. *)
Definition plt_figure : M nat :=
  fun w => (Return (next_figure w),
            with_figures (next_figure w :: figures w) (S (next_figure w)) w).

(** [plt.gca()]: the current figure, a new one when none is open. *)
Definition plt_gca : M nat :=
  fun w => match figures w with
           | f :: _ => (Return f, w)
           | [] => plt_figure w
           end.

(** [plt.close(fig)] *)
Definition plt_close_figure (fig : nat) : M unit :=
  fun w => (Return tt,
            with_figures (filter (fun f => f ≠ fig) (figures w)) (next_figure w) w).

(** [plt.close()]: closes the current figure, if there is one. *)
Definition plt_close : M unit :=
  fun w => (Return tt, with_figures (tail (figures w)) (next_figure w) w).

Definition log_call (rq : request) : M unit :=
  fun w => (Return tt, with_calls (calls w ++ [rq]) w).

(** ** The module [plot.py] *)

Definition set_prediction_matrixes (pm : list matrix) (b : Block.t) : Block.t :=
  Block.Make (Block.result b) (Block.split b) (Some pm)
             (Block.precision_recall_curve b).

Definition set_precision_recall_curve (img : string) (b : Block.t) : Block.t :=
  Block.Make (Block.result b) (Block.split b) (Block.prediction_matrixes b)
             (Some img).

Definition del_split (b : Block.t) : Block.t :=
  Block.Make (Block.result b) None (Block.prediction_matrixes b)
             (Block.precision_recall_curve b).

Definition set_missing_matrix (img : string) (r : Report.t) : Report.t :=
  Report.Make (Report.dataframe r) (Report.baseline r)
              (Report.strategy_classifications r) (Some img).

Definition set_ax (fig : nat) (v : visualizer) : visualizer :=
  Visualizer (classes v) (fitted v) (scored v) (Some fig).
Definition set_fitted (d : frame * series) (v : visualizer) : visualizer :=
  Visualizer (classes v) (Some d) (scored v) (ax v).
Definition set_scored (d : frame * series) (v : visualizer) : visualizer :=
  Visualizer (classes v) (fitted v) (Some d) (ax v).

(** [resource_filename(__name__, "preprocessing_profiling.mplstyle")] *)
Definition mplstyle : string := "preprocessing_profiling.mplstyle".

Fixpoint dict_lookup (key : string) (d : list (string * loc)) : option loc :=
  match d with
  | [] => None
  | (k, v) :: t => if bool_decide (k = key) then Some v else dict_lookup key t
  end.

Section Plot.

Variable E : Ext.env.

(** *** External calls *)

(** [matplotlib.style.use(style)] *)
Definition style_use (at_ : site) (style : string) : M unit :=
  if Ext.style_use E style
  then fun w => (Return tt, with_styles (styles w ++ [style]) w)
  else raise (External at_).

(** A plotting call that opens a figure of its own ([msno.matrix],
    [plt.subplots], ...). *)
Definition plotting (rq : request) : M plot :=
  log_call rq ;;
  if Ext.draws E rq then (fig <- plt_figure ;; ret (Plot fig rq))
  else raise (External Plotting).

(** [series.plot(kind='hist', ...)]: pandas draws on the current axes. *)
Definition plotting_current (rq : request) : M plot :=
  log_call rq ;;
  if Ext.draws E rq then (fig <- plt_gca ;; ret (Plot fig rq))
  else raise (External Plotting).

(** [plot.figure.savefig(imgdata)] followed by [imgdata.getvalue()] *)
Definition savefig (p : plot) : M (list byte) :=
  match Ext.savefig E (content p) with
  | Some imgdata => ret imgdata
  | None => raise (External Savefig)
  end.

(** The visualizer's [ax] property: the axes it has, else [plt.gca()]. *)
Definition visualizer_ax (pc : loc) : M nat :=
  v <- load_visualizer pc ;;
  match ax v with
  | Some fig => ret fig
  | None => fig <- plt_gca ;; store_visualizer pc (set_ax fig v) ;; ret fig
  end.

(** [PrecisionRecallCurve(tree.tree.DecisionTreeClassifier(), classes = np.unique(y))] *)
Definition new_precision_recall_curve (y : series) : M loc :=
  match Ext.unique E y with
  | Some cs => alloc_visualizer (Visualizer cs None None None)
  | None => raise (External Unique)
  end.

(** [pc.fit(x, y)] *)
Definition pc_fit (pc : loc) (x : frame) (y : series) : M unit :=
  v <- load_visualizer pc ;;
  if Ext.fit E v x y then store_visualizer pc (set_fitted (x, y) v)
  else raise (External Fit).

(** [pc.score(x, y)]: scores the fitted model, then draws the curve on the
    visualizer's axes. *)
Definition pc_score (pc : loc) (x : frame) (y : series) : M unit :=
  v <- load_visualizer pc ;;
  if Ext.score E v x y then
    (_ <- visualizer_ax pc ;;
     v <- load_visualizer pc ;;
     store_visualizer pc (set_scored (x, y) v))
  else raise (External Score).

(** [plot.finalize()] *)
Definition pc_finalize (pc : loc) : M unit :=
  _ <- visualizer_ax pc ;;
  v <- load_visualizer pc ;;
  if Ext.finalize E v then ret tt else raise (External Finalize).

(** [plot.poof(outpath=imgdata)] followed by [imgdata.getvalue()]: finalizes
    and saves the figure. *)
Definition pc_poof (pc : loc) : M (list byte) :=
  pc_finalize pc ;;
  v <- load_visualizer pc ;;
  log_call (PrecisionRecall v) ;;
  match Ext.poof E v with
  | Some imgdata => ret imgdata
  | None => raise (External Poof)
  end.

(** *** The wrappers *)

Definition yellowbrick_to_img (plot : loc) (rearrange_x_labels : bool) : M string :=
  (if rearrange_x_labels then (_ <- plt_gca ;; ret tt) else ret tt) ;;
  imgdata <- pc_poof plot ;;
  let s := result_string imgdata in
  pc_finalize plot ;;
  ret s.

Definition _plot_histogram (s : series) (bins : Z) (figsize : Z * Z)
    (facecolor : string) : M plot :=
  if Ext.is_date E s then
    fig <- plt_figure ;;
    log_call (DateHist s bins figsize facecolor true) ;;
    match Ext.hist_dates E s with
    | HistDrawn => ret (Plot fig (DateHist s bins figsize facecolor true))
    | HistCannotPlotDates =>  (* except TypeError: pass *)
        ret (Plot fig (DateHist s bins figsize facecolor false))
    | HistFails => raise (External Plotting)
    end
  else plotting_current (SeriesHist s bins figsize facecolor).

(** The margins ([subplots_adjust]), the background and the tick labels the
    wrappers set belong to what the figure is saved as; [MiniHist] marks the
    figure of a mini histogram. *)
Definition histogram (s : series) (kwargs : hist_kwargs) : M string :=
  plot <- match kw_other kwargs with
          | _ :: _ => raise TypeError  (* an unexpected keyword argument *)
          | [] => _plot_histogram s (default 10%Z (kw_bins kwargs))
                                  (default (6, 4)%Z (kw_figsize kwargs))
                                  (default "#337ab7" (kw_facecolor kwargs))
          end ;;
  imgdata <- savefig plot ;;
  let s := result_string imgdata in
  plt_close_figure (figure plot) ;;
  ret s.

Definition mini_histogram (s : series) (kwargs : hist_kwargs) : M string :=
  plot <- match kw_figsize kwargs, kw_other kwargs with
          | Some _, _ => raise TypeError  (* figsize given twice *)
          | None, _ :: _ => raise TypeError  (* an unexpected keyword argument *)
          | None, [] => _plot_histogram s (default 10%Z (kw_bins kwargs)) (4, 2)%Z
                                        (default "#337ab7" (kw_facecolor kwargs))
          end ;;
  (* xticks[0], xticks[-1] *)
  (if bool_decide (Ext.major_ticks E (content plot) = 0%nat)
   then raise IndexError else ret tt) ;;
  let plot := Plot (figure plot) (MiniHist (content plot)) in
  imgdata <- savefig plot ;;
  let s := result_string imgdata in
  plt_close_figure (figure plot) ;;
  ret s.

Definition correlation_matrix (corrdf : frame) (title : string) : M string :=
  fig <- plt_figure ;;                               (* plt.subplots(1, 1) *)
  log_call (Imshow corrdf title) ;;         (* imshow, plt.title, plt.colorbar *)
  (if Ext.draws E (Imshow corrdf title) then ret tt
   else raise (External Plotting)) ;;
  let matrix_image := Plot fig (Imshow corrdf title) in
  (* corrdf.shape[0] * 1.0 / len(labels) *)
  (if bool_decide (ncols corrdf = 0%nat) then raise ZeroDivisionError else ret tt) ;;
  (* np.arange(0, corrdf.shape[0], step): without rows the step is 0.0 *)
  (if bool_decide (rows corrdf = []) then raise ZeroDivisionError else ret tt) ;;
  imgdata <- savefig matrix_image ;;
  let s := result_string imgdata in
  plt_close_figure (figure matrix_image) ;;
  ret s.

Definition missing_matrix (df : frame) (predictions : bool) : M string :=
  plot <- (if predictions then plotting (MsnoMatrix df true)
           else plotting (MsnoMatrix df false)) ;;
  imgdata <- savefig plot ;;
  let s := result_string imgdata in
  plt_close_figure (figure plot) ;;
  ret s.

Definition missing_bar (df : frame) : M string :=
  plot <- plotting (MsnoBar df) ;;
  imgdata <- savefig plot ;;
  let s := result_string imgdata in
  plt_close_figure (figure plot) ;;
  ret s.

Definition missing_heat (df : frame) : M string :=
  plot <- plotting (MsnoHeatmap df) ;;
  imgdata <- savefig plot ;;
  let s := result_string imgdata in
  plt_close_figure (figure plot) ;;
  ret s.

Definition missing_dendrogram (df : frame) : M string :=
  plot <- plotting (MsnoDendrogram df) ;;
  imgdata <- savefig plot ;;
  let s := result_string imgdata in
  plt_close_figure (figure plot) ;;
  ret s.

End Plot.

(** *** [generate_report_visualizations] *)

Section Pipeline.

Variable E : Ext.env.

(** [report['baseline']] *)
Definition baseline_block : M loc :=
  r <- get_report ;; getitem "baseline" (Report.baseline r).

(** [report['strategy_classifications']] *)
Definition strategy_classifications : M (list (string * loc)) :=
  r <- get_report ;;
  getitem "strategy_classifications" (Report.strategy_classifications r).

(** [report['strategy_classifications'][strategy]] *)
Definition strategy_block (strategy : string) : M loc :=
  sc <- strategy_classifications ;;
  getitem strategy (dict_lookup strategy sc).

(** [report['dataframe'][key]] *)
Definition report_dataframe (key : string)
    (field : Report.dataframes -> option loc) : M loc :=
  r <- get_report ;;
  dfs <- getitem "dataframe" (Report.dataframe r) ;;
  getitem key (field dfs).

(** Lines 267-273: the style reset, guarded, then the package style. *)
Definition reset_style : M unit :=
  try_except_pass (style_use E StyleDefault "default") ;;
  style_use E StyleProject mplstyle.

(** Line 275. *)
Definition global_missing_matrix : M unit :=
  m <- report_dataframe "modified" Report.modified ;;
  df <- load_frame m ;;
  img <- missing_matrix E df false ;;
  fun w => (Return tt, with_report (set_missing_matrix img (report w)) w).

(** One pass of the loop of lines 281-284 (and 290-293). *)
Definition pair_matrix (block : M loc) (df : loc) (pair : list cell) : M unit :=
  let name := pair_name pair in
  d <- load_frame df ;;
  top <- lift (reordered d pair) ;;
  img <- missing_matrix E top true ;;
  let matrix := Matrix name img in
  b <- block ;;
  blk <- load_block b ;;
  pm <- getitem "prediction_matrixes" (Block.prediction_matrixes blk) ;;
  store_block b (set_prediction_matrixes (pm ++ [matrix]) blk).

(** Lines 279-284, and again 288-293: the matrixes of the block denoted by
    [block], over the frame [df]. *)
Definition block_prediction_matrixes (block : M loc) (df : loc) : M unit :=
  d <- load_frame df ;;
  img <- missing_matrix E d true ;;
  b <- block ;;
  blk <- load_block b ;;
  store_block b (set_prediction_matrixes [Matrix "Original Dataset" img] blk) ;;
  d <- load_frame df ;;
  combos <- lift (combinations d) ;;
  for_ combos (pair_matrix block df).

(** Lines 278-284. *)
Definition baseline_matrixes : M unit :=
  b <- baseline_block ;;
  blk <- load_block b ;;
  df <- getitem "result" (Block.result blk) ;;
  block_prediction_matrixes baseline_block df.

(** Lines 286-287: the frame of a strategy, a copy of the test frame whose
    [pred] column is the strategy's. *)
Definition strategy_frame (strategy : string) : M loc :=
  t <- report_dataframe "test" Report.test ;;
  tf <- load_frame t ;;
  df <- alloc_frame tf ;;                      (* .copy() *)
  b <- strategy_block strategy ;;
  blk <- load_block b ;;
  r <- getitem "result" (Block.result blk) ;;
  rf <- load_frame r ;;
  pred <- lift (getitem_col rf "pred") ;;
  d <- load_frame df ;;
  d' <- lift (setitem_col d "pred" pred) ;;
  store_frame df d' ;;
  ret df.

(** Lines 285-293. *)
Definition strategy_matrixes : M unit :=
  sc <- strategy_classifications ;;
  for_ (map fst sc) (fun strategy =>
    df <- strategy_frame strategy ;;
    block_prediction_matrixes (strategy_block strategy) df).

(** [block.pop("split")] *)
Definition pop_split (block : M loc) : M train_test :=
  b <- block ;;
  blk <- load_block b ;;
  s <- getitem "split" (Block.split blk) ;;
  store_block b (del_split blk) ;;
  ret s.

(** Lines 296-299 (and 303-306): fit, score and draw the curve. *)
Definition precision_recall_curve (s : train_test) : M string :=
  pc <- new_precision_recall_curve E (y_train s) ;;
  pc_fit E pc (x_train s) (y_train s) ;;
  pc_score E pc (x_test s) (y_test s) ;;
  yellowbrick_to_img E pc false.

(** Lines 295-300, and again 302-307. *)
Definition block_precision_recall (block : M loc) : M unit :=
  s <- pop_split block ;;
  img <- precision_recall_curve s ;;
  b <- block ;;
  blk <- load_block b ;;
  store_block b (set_precision_recall_curve img blk) ;;
  plt_close.

(** Lines 301-307. *)
Definition strategy_curves : M unit :=
  sc <- strategy_classifications ;;
  for_ (map fst sc) (fun strategy =>
    block_precision_recall (strategy_block strategy)).

(** The function returns the report it was given; the report lives in the
    world. *)
Definition generate_report_visualizations : M unit :=
  reset_style ;;
  global_missing_matrix ;;
  baseline_matrixes ;;
  strategy_matrixes ;;
  block_precision_recall baseline_block ;;
  strategy_curves.

End Pipeline.

(** ** A report to run the module on *)

Module Example.

(** Every external call succeeds; a figure is saved as one byte per kind of
    drawing, so that renders of different kinds are told apart. *)
Definition picture (rq : request) : list byte :=
  match rq with
  | MsnoMatrix _ false => ["m"%byte]
  | MsnoMatrix _ true => ["p"%byte; "+"%byte]
  | PrecisionRecall _ => ["c"%byte]
  | _ => ["x"%byte]
  end.

Definition env_ok : Ext.env :=
  {| Ext.style_use := fun _ => true;
     Ext.is_date := fun _ => false;
     Ext.draws := fun _ => true;
     Ext.hist_dates := fun _ => HistDrawn;
     Ext.major_ticks := fun _ => 5%nat;
     Ext.savefig := fun rq => Some (picture rq);
     Ext.unique := fun y => Some (remove_dups (map snd y));
     Ext.fit := fun _ _ _ => true;
     Ext.score := fun _ _ _ => true;
     Ext.poof := fun v => Some (picture (PrecisionRecall v));
     Ext.finalize := fun _ => true |}.

(** matplotlib 1.4: the style reset raises. *)
Definition env_no_default_style : Ext.env :=
  {| Ext.style_use := fun s => negb (String.eqb s "default");
     Ext.is_date := Ext.is_date env_ok;
     Ext.draws := Ext.draws env_ok;
     Ext.hist_dates := Ext.hist_dates env_ok;
     Ext.major_ticks := Ext.major_ticks env_ok;
     Ext.savefig := Ext.savefig env_ok;
     Ext.unique := Ext.unique env_ok;
     Ext.fit := Ext.fit env_ok;
     Ext.score := Ext.score env_ok;
     Ext.poof := Ext.poof env_ok;
     Ext.finalize := Ext.finalize env_ok |}.

(** Saving the precision-recall figure raises. *)
Definition env_poof_fails : Ext.env :=
  {| Ext.style_use := Ext.style_use env_ok;
     Ext.is_date := Ext.is_date env_ok;
     Ext.draws := Ext.draws env_ok;
     Ext.hist_dates := Ext.hist_dates env_ok;
     Ext.major_ticks := Ext.major_ticks env_ok;
     Ext.savefig := Ext.savefig env_ok;
     Ext.unique := Ext.unique env_ok;
     Ext.fit := Ext.fit env_ok;
     Ext.score := Ext.score env_ok;
     Ext.poof := fun _ => None;
     Ext.finalize := Ext.finalize env_ok |}.

(** The test set, with missing values, and its imputed version. *)
Definition test_frame : frame :=
  Frame ["age"; "class"]
        [Row 0 [NaN; Str "A"]; Row 1 [Int 30; Str "B"]; Row 2 [NaN; Str "A"]].

Definition modified_frame : frame :=
  Frame ["age"; "class"]
        [Row 0 [Int 28; Str "A"]; Row 1 [Int 30; Str "B"]; Row 2 [Int 28; Str "A"]].

(** The baseline result: five rows, three classified correctly, two wrongly
    in two distinct ways. *)
Definition baseline_result : frame :=
  Frame ["age"; "class"; "pred"]
        [Row 0 [NaN; Str "A"; Str "A"]; Row 1 [Int 30; Str "A"; Str "B"];
         Row 2 [NaN; Str "B"; Str "B"]; Row 3 [Int 41; Str "B"; Str "A"];
         Row 4 [Int 35; Str "A"; Str "A"]].

(** The result of the strategy: the imputed test set with its predictions,
    all of them right. *)
Definition mean_result : frame :=
  Frame ["age"; "class"; "pred"]
        [Row 0 [Int 28; Str "A"; Str "A"]; Row 1 [Int 30; Str "B"; Str "B"];
         Row 2 [Int 28; Str "A"; Str "A"]].

Definition a_split : train_test :=
  TrainTest (Frame ["age"] [Row 0 [Int 28]; Row 1 [Int 30]])
            [(0%Z, Str "A"); (1%Z, Str "B")]
            (Frame ["age"] [Row 2 [Int 28]])
            [(2%Z, Str "A")].

Definition a_report : Report.t :=
  Report.Make (Some (Report.Dataframes (Some 0%nat) (Some 1%nat)))
              (Some 0%nat) (Some [("mean", 1%nat)]) None.

Definition a_world : world :=
  {| report := a_report;
     blocks := [Block.Make (Some 2%nat) (Some a_split) None None;
                Block.Make (Some 3%nat) (Some a_split) None None];
     frames := [modified_frame; test_frame; baseline_result; mean_result];
     visualizers := [];
     figures := [];
     next_figure := 0;
     calls := [];
     styles := [] |}.

(** The same report once assembled. *)
Definition assembled_world : world :=
  (generate_report_visualizations env_ok a_world).2.

(** A report whose baseline block has no [split]. *)
Definition world_without_split : world :=
  {| report := a_report;
     blocks := [Block.Make (Some 2%nat) None None None;
                Block.Make (Some 3%nat) (Some a_split) None None];
     frames := [modified_frame; test_frame; baseline_result; mean_result];
     visualizers := [];
     figures := [];
     next_figure := 0;
     calls := [];
     styles := [] |}.

End Example.

(** ** Notions the properties are stated with *)

(** The actual and the predicted label of a row: the last two columns. *)
Definition actual (df : frame) (r : row) : cell := at_col (ncols df - 2) r.
Definition predicted (df : frame) (r : row) : cell := at_col (ncols df - 1) r.
Definition labels (df : frame) (r : row) : list cell := [actual df r; predicted df r].

(** The (actual, predicted) pairs of the rows where the two differ, in the
    order of the rows. *)
Definition mismatches (df : frame) : list (list cell) :=
  map (labels df)
      (List.filter (fun r => cell_ne (predicted df r) (actual df r)) (rows df)).

(** Deduplication that keeps every entry where it occurs first. *)
Fixpoint first_occurrences (l : list (list cell)) : list (list cell) :=
  match l with
  | [] => []
  | x :: t => x :: List.filter (fun y => negb (bool_decide (y = x)))
                               (first_occurrences t)
  end.

(** The position at which an entry occurs first. *)
Fixpoint first_index (x : list cell) (l : list (list cell)) : option nat :=
  match l with
  | [] => None
  | y :: t => if bool_decide (y = x) then Some 0%nat
              else option_map S (first_index x t)
  end.

(** A row matches a pair when its two labels equal the pair's, as the code
    compares them. *)
Definition matches (df : frame) (pair : list cell) (r : row) : bool :=
  cell_eq (actual df r) (item pair 0) && cell_eq (predicted df r) (item pair 1).

(** An image is the render of a request when it encodes the bytes the
    renderer saved for it. *)
Definition rendered (E : Ext.env) (rq : request) (img : string) : Prop :=
  exists imgdata, Ext.savefig E rq = Some imgdata /\ img = result_string imgdata.

(** The entry of a frame as it is, and the entry of an error pair. *)
Definition original_entry (E : Ext.env) (d : frame) (m : matrix) : Prop :=
  name m = "Original Dataset" /\ rendered E (MsnoMatrix d true) (image m).

Definition pair_entry (E : Ext.env) (d : frame) (pair : list cell) (m : matrix) : Prop :=
  name m = pair_name pair
  /\ exists top, reordered d pair = Return top
                 /\ rendered E (MsnoMatrix top true) (image m).

(** The matrixes of a frame: its own entry, then one entry per error pair,
    in the order of the pairs. *)
Definition matrixes_of (E : Ext.env) (d : frame) (ms : list matrix) : Prop :=
  exists m0 rest pairs,
    ms = m0 :: rest /\ original_entry E d m0
    /\ combinations d = Return pairs /\ Forall2 (pair_entry E d) pairs rest.

(** The block a report names as its baseline, and as a strategy. *)
Definition baseline_of (r : Report.t) : outcome loc :=
  match Report.baseline r with
  | Some l => Return l
  | None => Raise (KeyError "baseline")
  end.

Definition strategy_of (strategy : string) (r : Report.t) : outcome loc :=
  match Report.strategy_classifications r with
  | Some sc => match dict_lookup strategy sc with
               | Some l => Return l
               | None => Raise (KeyError strategy)
               end
  | None => Raise (KeyError "strategy_classifications")
  end.

(** The frame a strategy is shown on: the test frame with the predictions of
    the strategy's result as its [pred] column. *)
Definition strategy_frame_of (test result : frame) : outcome frame :=
  bind_outcome (getitem_col result "pred") (fun pred => setitem_col test "pred" pred).

(** Relations between the world before a step and the world after it. *)
Definition same_store (w w' : world) : Prop :=
  report w' = report w /\ blocks w' = blocks w /\ frames w' = frames w.

Definition same_frames (w w' : world) : Prop := frames w' = frames w.

Definition frames_kept (w w' : world) : Prop := frames w `prefix_of` frames w'.

(** How a block and the world may change along the pipeline: the result
    stays, a removed split stays removed, matrixes once stored are not
    removed, frames are only added. *)
Definition block_evolves (b b' : Block.t) : Prop :=
  Block.result b' = Block.result b
  /\ (Block.split b = None -> Block.split b' = None)
  /\ (is_Some (Block.prediction_matrixes b) ->
      is_Some (Block.prediction_matrixes b')).

Definition evolves (w w' : world) : Prop :=
  report w' = report w
  /\ frames w `prefix_of` frames w'
  /\ forall l b, blocks w !! l = Some b ->
       exists b', blocks w' !! l = Some b' /\ block_evolves b b'.

(** The block at an address has the matrixes of a frame; the block at an
    address has lost its split. *)
Definition has_matrixes (E : Ext.env) (l : loc) (d : frame) (w : world) : Prop :=
  exists b ms, blocks w !! l = Some b
    /\ Block.prediction_matrixes b = Some ms /\ matrixes_of E d ms.

Definition popped (l : loc) (w : world) : Prop :=
  exists b, blocks w !! l = Some b /\ Block.split b = None.

#[global] Instance matrix_eq_dec : EqDecision matrix.
Proof. solve_decision. Defined.
#[global] Instance train_test_eq_dec : EqDecision train_test.
Proof. solve_decision. Defined.
#[global] Instance block_eq_dec : EqDecision Block.t.
Proof. solve_decision. Defined.
#[global] Instance dataframes_eq_dec : EqDecision Report.dataframes.
Proof. solve_decision. Defined.
#[global] Instance report_eq_dec : EqDecision Report.t.
Proof. solve_decision. Defined.
#[global] Instance visualizer_eq_dec : EqDecision visualizer.
Proof. solve_decision. Defined.
#[global] Instance request_eq_dec : EqDecision request.
Proof. solve_decision. Defined.
#[global] Instance world_eq_dec : EqDecision world.
Proof. solve_decision. Defined.

(** A block as the pipeline should leave it, for the frame [d] it was shown
    on: no split, one matrix more than there are error pairs in [d], the
    first of them the frame as it is, called "Original Dataset". *)
Definition block_complete (E : Ext.env) (d : frame) (b : Block.t) : Prop :=
  Block.split b = None
  /\ exists ms pairs m0,
       Block.prediction_matrixes b = Some ms
       /\ combinations d = Return pairs
       /\ length ms = (1 + length pairs)%nat
       /\ ms !! 0%nat = Some m0
       /\ name m0 = "Original Dataset"
       /\ rendered E (MsnoMatrix d true) (image m0).

(** A renderer call with the prediction annotation: every request but the
    plain [msno.matrix(df)]. *)
Definition annotated (rq : request) : Prop :=
  match rq with
  | MsnoMatrix _ false => False
  | _ => True
  end.

(** The call log grows by annotated calls only; the call log stays. *)
Definition calls_extend (w w' : world) : Prop :=
  exists ext, calls w' = calls w ++ ext /\ Forall annotated ext.

Definition same_calls (w w' : world) : Prop := calls w' = calls w.

(** The documented property that the matrixes of every strategy block are
    made from the block's own result: the renderer is handed that frame and
    the block has its matrixes. *)
Definition strategies_shown_on_result (E : Ext.env) (w w' : world) : Prop :=
  forall sc k l blk r rf,
    Report.strategy_classifications (report w) = Some sc ->
    dict_lookup k sc = Some l -> blocks w !! l = Some blk ->
    Block.result blk = Some r -> frames w !! r = Some rf ->
    MsnoMatrix rf true ∈ calls w' /\ has_matrixes E l rf w'.

(** The two ways the pipeline names a block: the baseline, or a strategy. *)
Definition block_named (which : option string) : M loc :=
  match which with
  | None => baseline_block
  | Some strategy => strategy_block strategy
  end.

Definition block_named_of (which : option string) (r : Report.t) : outcome loc :=
  match which with
  | None => baseline_of r
  | Some strategy => strategy_of strategy r
  end.

(** Some block of the report has no [split]. *)
Definition lacks_split (w : world) : Prop :=
  (exists l b, Report.baseline (report w) = Some l
               /\ blocks w !! l = Some b /\ Block.split b = None)
  \/ (exists sc k l b, Report.strategy_classifications (report w) = Some sc
                       /\ dict_lookup k sc = Some l
                       /\ blocks w !! l = Some b /\ Block.split b = None).

(** The documented property that assembling fails at once: an exception,
    the report and its blocks as they were, and no render asked for. *)
Definition fails_at_once (E : Ext.env) (w : world) : Prop :=
  exists e w', generate_report_visualizations E w = (Raise e, w')
               /\ report w' = report w /\ blocks w' = blocks w
               /\ calls w' = calls w.

(** Lines 267-275 and the two loops of matrixes: the pipeline up to, not
    including, the first [pop("split")]. *)
Definition matrixes_phase (E : Ext.env) : M unit :=
  reset_style E ;; global_missing_matrix E ;; baseline_matrixes E ;;
  strategy_matrixes E.

(** The documented property that the curve of a block leaves no figure open
    that was not open before, whatever the outcome. *)
Definition no_figure_left (E : Ext.env) (which : option string) (w : world) : Prop :=
  forall f, f ∈ figures (block_precision_recall E (block_named which) w).2 ->
            f ∈ figures w.

(** A step that opens a figure only through [plt.gca()]: the figures stay,
    or there was none and now there is one. *)
Definition gca_only (w w' : world) : Prop :=
  figures w' = figures w \/ (figures w = [] /\ exists n, figures w' = [n]).

(** A step that never raises the exception [e]. *)
Definition avoids (e : exn) {A} (m : M A) : Prop := forall w, (m w).1 <> Raise e.

(** The pipeline after the guarded style reset. *)
Definition after_reset (E : Ext.env) : M unit :=
  style_use E StyleProject mplstyle ;;
  global_missing_matrix E ;;
  baseline_matrixes E ;;
  strategy_matrixes E ;;
  block_precision_recall E baseline_block ;;
  strategy_curves E.

(** A call of one of the wrappers of the module. *)
Inductive wrapper_call :=
| Histogram (s : series) (kwargs : hist_kwargs)
| MiniHistogram (s : series) (kwargs : hist_kwargs)
| CorrelationMatrix (corrdf : frame) (title : string)
| MissingMatrix (df : frame) (predictions : bool)
| MissingBar (df : frame)
| MissingHeat (df : frame)
| MissingDendrogram (df : frame)
| YellowbrickToImg (plot : loc) (rearrange_x_labels : bool).

Definition call_wrapper (E : Ext.env) (c : wrapper_call) : M string :=
  match c with
  | Histogram s kwargs => histogram E s kwargs
  | MiniHistogram s kwargs => mini_histogram E s kwargs
  | CorrelationMatrix corrdf title => correlation_matrix E corrdf title
  | MissingMatrix df predictions => missing_matrix E df predictions
  | MissingBar df => missing_bar E df
  | MissingHeat df => missing_heat E df
  | MissingDendrogram df => missing_dendrogram E df
  | YellowbrickToImg plot rearrange_x_labels =>
      yellowbrick_to_img E plot rearrange_x_labels
  end.

(** The characters of a percent-encoded base64 text: letters, digits, [/]
    and [%]. *)
Definition payload_char (c : ascii) : bool :=
  bool_decide (byte_of_ascii c ∈ list_byte_of_string
     "ABCDEFGHIJKLMNOPQRSTUVWXYZabcdefghijklmnopqrstuvwxyz0123456789/%").

Fixpoint string_forall (p : ascii -> bool) (s : string) : bool :=
  match s with
  | EmptyString => true
  | String c t => p c && string_forall p t
  end.

(** The wire format of an image: the prefix, then the percent-encoded base64
    text of the image's bytes, which a reader gets back from the string
    alone. *)
Definition image_artifact (s : string) : Prop :=
  exists (imgdata : list byte) (payload : string),
    s = ("data:image/png;base64," ++ payload)%string
    /\ payload = quote (b64encode imgdata)
    /\ string_forall payload_char payload = true
    /\ b64decode (unquote payload) = Some imgdata.

(** Whatever its outcome, a step leaves the world related by [R] to the
    world it started in. *)
Definition preserves (R : relation world) {A} (m : M A) : Prop :=
  forall w, R w (m w).2.

(** The wrappers that open a figure of their own and close it before they
    return: all of them but [yellowbrick_to_img], which leaves the figure to
    its caller. *)
Definition closes_figure (c : wrapper_call) : bool :=
  match c with
  | YellowbrickToImg _ _ => false
  | _ => true
  end.

(** The exceptions a wrapper raises after it has drawn: saving fails, the
    axis has no tick, the frame has no column. *)
Definition raised_after_drawing (e : exn) : Prop :=
  e = External Savefig \/ e = IndexError \/ e = ZeroDivisionError.

(** A step that returns leaves the world related by [R] to the world it
    started in; nothing is said of a step that raises. *)
Definition returns_with (R : relation world) {A} (m : M A) : Prop :=
  forall w a w', m w = (Return a, w') -> R w w'.

(** No figure is open afterwards when none was open before. *)
Definition tidy (w w' : world) : Prop := figures w = [] -> figures w' = [].

Definition same_styles (w w' : world) : Prop := styles w' = styles w.

(** The matrixes of a block are named after the frame and its error pairs,
    entry by entry: "Original Dataset", then entry [i + 1] for pair [i]. *)
Definition named_after (E : Ext.env) (d : frame) (b : Block.t) : Prop :=
  exists ms pairs,
    Block.prediction_matrixes b = Some ms
    /\ combinations d = Return pairs
    /\ map name ms = "Original Dataset" :: map pair_name pairs
    /\ forall i pair, pairs !! i = Some pair ->
         exists m, ms !! S i = Some m /\ pair_entry E d pair m.

(** The report names the block at an address, as its baseline or as one of
    its strategies. *)
Definition names_block (r : Report.t) (l : loc) : Prop :=
  Report.baseline r = Some l
  \/ exists sc k, Report.strategy_classifications r = Some sc
                  /\ dict_lookup k sc = Some l.

(** What the pipeline may change of a report: the keys [dataframe],
    [baseline] and [strategy_classifications] stay, no block is added or
    removed, a block the report does not name stays as it is, and every
    block keeps its [result]. *)
Definition footprint (w w' : world) : Prop :=
  Report.dataframe (report w') = Report.dataframe (report w)
  /\ Report.baseline (report w') = Report.baseline (report w)
  /\ Report.strategy_classifications (report w')
     = Report.strategy_classifications (report w)
  /\ length (blocks w') = length (blocks w)
  /\ (forall l, ~ names_block (report w) l -> blocks w' !! l = blocks w !! l)
  /\ (forall l b, blocks w !! l = Some b ->
        exists b', blocks w' !! l = Some b' /\ Block.result b' = Block.result b).

(** The example world with one more block, which the report does not name. *)
Definition world_with_spare_block : world :=
  with_blocks (blocks Example.a_world
                 ++ [Block.Make (Some 2%nat) (Some Example.a_split) None None])
              Example.a_world.

(** Two states of a visualizer with the same classes, fitted on the same
    data and scored on the same data; the axes may differ. *)
Definition same_model (v v' : visualizer) : Prop :=
  classes v' = classes v /\ fitted v' = fitted v /\ scored v' = scored v.

(** The image of the precision-recall curve of a split: the figure saved by
    a visualizer made for the classes of [y_train], fitted on the training
    part and scored on the test part. *)
Definition curve_of (E : Ext.env) (s : train_test) (img : string) : Prop :=
  exists v imgdata,
    Ext.unique E (y_train s) = Some (classes v)
    /\ fitted v = Some (x_train s, y_train s)
    /\ scored v = Some (x_test s, y_test s)
    /\ Ext.poof E v = Some imgdata
    /\ img = result_string imgdata.

(** The block at an address has the curve of a split, and no split any
    more; the block at an address still has the split, or has its curve. *)
Definition has_curve (E : Ext.env) (l : loc) (s : train_test) (w : world) : Prop :=
  exists b img, blocks w !! l = Some b /\ Block.split b = None
    /\ Block.precision_recall_curve b = Some img /\ curve_of E s img.

Definition awaits_curve (E : Ext.env) (l : loc) (s : train_test) (w : world) : Prop :=
  (exists b, blocks w !! l = Some b /\ Block.split b = Some s) \/ has_curve E l s w.

(** Every block keeps its split. *)
Definition splits_kept (w w' : world) : Prop :=
  forall l b, blocks w !! l = Some b ->
    exists b', blocks w' !! l = Some b' /\ Block.split b' = Block.split b.

(** Two names of a report denote one block: the baseline and a strategy, or
    two strategies. *)
Definition shares_block (r : Report.t) : Prop :=
  exists sc l k,
    Report.strategy_classifications r = Some sc /\ dict_lookup k sc = Some l
    /\ (Report.baseline r = Some l
        \/ exists k', k' <> k /\ dict_lookup k' sc = Some l).

(** ** Labels on which every dtype agrees *)

(** The labels of a frame are exact when they are class names and missing
    values only, or class names and integers of the int64 range with no
    missing value among them.  The two label columns of such a frame are
    columns of objects or of integers: comparing them, dropping duplicates
    and [np.array] convert no value, and [str] prints an integer by its
    digits.  (An integer column beside a column with a missing value would
    be turned into floats by [np.array].) *)
Definition text_or_missing (c : cell) : bool :=
  match c with
  | Int _ => false
  | _ => true
  end.

Definition text_or_int64 (c : cell) : bool :=
  match c with
  | Str _ => true
  | Int z => bool_decide (- 2 ^ 63 <= z < 2 ^ 63)%Z
  | NaN => false
  end.

Definition labels_all (p : cell -> bool) (df : frame) : bool :=
  forallb (fun r => p (actual df r) && p (predicted df r)) (rows df).

Definition exact_labels (df : frame) : Prop :=
  labels_all text_or_missing df = true \/ labels_all text_or_int64 df = true.


(** ** The extraction and the reordering as documented *)

(** Identity of labels, under which a missing value is itself; the code's
    [==] is [cell_eq], under which a missing value is equal to nothing. *)
Definition same_cell (a b : cell) : bool := bool_decide (a = b).

Definition same_pair (eq : cell -> cell -> bool) (p q : list cell) : bool :=
  eq (item p 0) (item q 0) && eq (item p 1) (item q 1).

(** Deduplication under a relation, every entry kept where it occurs first. *)
Fixpoint dedup_by {A} (same : A -> A -> bool) (l : list A) : list A :=
  match l with
  | [] => []
  | x :: t => x :: List.filter (fun y => negb (same y x)) (dedup_by same t)
  end.

(** The documented extraction, for an equality [eq] of labels: the
    (actual, predicted) pairs of the rows whose actual label is not [eq] to
    the predicted one, deduplicated on the pair and ordered by first
    occurrence. *)
Definition documented_extract (eq : cell -> cell -> bool) (df : frame)
    : list (list cell) :=
  dedup_by (same_pair eq)
    (map (labels df)
         (List.filter (fun r => negb (eq (actual df r) (predicted df r))) (rows df))).

Definition extracts_as_documented (eq : cell -> cell -> bool) (df : frame) : Prop :=
  combinations df = Return (documented_extract eq df).

(** The documented property that extraction never returns a pair with
    actual equal to predicted. *)
Definition never_equal_pair (df : frame) : Prop :=
  forall pairs a p, combinations df = Return pairs -> [a; p] ∈ pairs -> a <> p.


(** Frames with missing labels: a row whose two labels are missing; two rows
    with the same labels, the actual one missing; a wrong prediction beside
    a missing one. *)
Definition missing_pair_frame : frame :=
  Frame ["class"; "pred"] [Row 0 [NaN; NaN]].

Definition repeated_missing_frame : frame :=
  Frame ["class"; "pred"] [Row 0 [NaN; Str "A"]; Row 1 [NaN; Str "A"]].


(** * Properties *)

(** ** Selection by a mask *)

Lemma select_map {A} (f : A -> bool) (l : list A) :
  select (map f l) l = List.filter f l.
Proof.
  induction l as [|x l IH]; simpl; [reflexivity|].
  destruct (f x); rewrite IH; reflexivity.
Qed.

Lemma select_map_not {A} (f : A -> bool) (l : list A) :
  select (mask_not (map f l)) l = List.filter (fun x => negb (f x)) l.
Proof.
  unfold mask_not. rewrite map_map. apply (select_map (fun x => negb (f x))).
Qed.

Lemma zip_with_map_same {A B C D} (g : B -> C -> D) (f1 : A -> B) (f2 : A -> C)
    (l : list A) :
  zip_with g (map f1 l) (map f2 l) = map (fun x => g (f1 x) (f2 x)) l.
Proof. induction l as [|x l IH]; simpl; [reflexivity|]. now rewrite IH. Qed.

Lemma iloc_col_ok (df : frame) (k : nat) :
  (1 <= k <= ncols df)%nat ->
  iloc_col df k = Return (map (fun r => (label r, at_col (ncols df - k) r)) (rows df)).
Proof. intros H. unfold iloc_col. rewrite bool_decide_eq_true_2; auto. Qed.

Lemma iloc_col_fails (df : frame) (k : nat) :
  (ncols df < k)%nat -> iloc_col df k = Raise IndexError.
Proof. intros H. unfold iloc_col. rewrite bool_decide_eq_false_2; [auto|lia]. Qed.

(** ** Error-pair extraction *)

Lemma drop_duplicates_from (seen : list (list cell)) (rs : list row) :
  map cells (select (mask_not (duplicated_from seen rs)) rs)
  = List.filter (fun c => negb (bool_decide (c ∈ seen)))
                (first_occurrences (map cells rs)).
Proof.
  revert seen. induction rs as [|r rs IH]; intros seen; simpl; [reflexivity|].
  assert (Hsplit : forall l : list (list cell),
    List.filter (fun c => negb (bool_decide (c ∈ cells r :: seen))) l
    = List.filter (fun c => negb (bool_decide (c ∈ seen)))
        (List.filter (fun y => negb (bool_decide (y = cells r))) l)).
  { intros l. induction l as [|c l IHl]; simpl; [reflexivity|].
    destruct (decide (c = cells r)) as [->|Hne].
    - rewrite (bool_decide_eq_true_2 (cells r ∈ cells r :: seen)) by constructor.
      rewrite (bool_decide_eq_true_2 (cells r = cells r)) by reflexivity.
      simpl. exact IHl.
    - rewrite (bool_decide_eq_false_2 (c = cells r)) by assumption. simpl.
      destruct (decide (c ∈ seen)) as [Hin|Hnin].
      + rewrite (bool_decide_eq_true_2 (c ∈ cells r :: seen)) by (now constructor).
        rewrite (bool_decide_eq_true_2 (c ∈ seen)) by assumption. simpl. exact IHl.
      + rewrite (bool_decide_eq_false_2 (c ∈ cells r :: seen)).
        2:{ intros Hc. apply elem_of_cons in Hc. tauto. }
        rewrite (bool_decide_eq_false_2 (c ∈ seen)) by assumption. simpl.
        now rewrite IHl. }
  destruct (decide (cells r ∈ seen)) as [Hin|Hnin].
  - rewrite (bool_decide_eq_true_2 _ Hin). simpl.
    rewrite IH, Hsplit. reflexivity.
  - rewrite (bool_decide_eq_false_2 _ Hnin). simpl.
    rewrite IH, Hsplit. reflexivity.
Qed.

Lemma filter_true {A} (f : A -> bool) (l : list A) :
  (forall x, f x = true) -> List.filter f l = l.
Proof.
  intros H. induction l as [|x l IH]; simpl; [reflexivity|].
  now rewrite H, IH.
Qed.

Lemma combinations_eq (df : frame) :
  (2 <= ncols df)%nat ->
  combinations df = Return (first_occurrences (mismatches df)).
Proof.
  intros H. unfold combinations.
  rewrite (iloc_col_ok df 1) by lia. rewrite (iloc_col_ok df 2) by lia. simpl.
  unfold ncols in H.
  f_equal. unfold series_ne.
  rewrite (zip_with_map_same (fun a b => cell_ne a.2 b.2)). simpl.
  unfold np_array, drop_duplicates, duplicated, getitem_mask at 1. simpl.
  rewrite drop_duplicates_from.
  rewrite filter_true.
  2:{ intros c. rewrite bool_decide_eq_false_2; [reflexivity|]. apply not_elem_of_nil. }
  f_equal. rewrite map_map. unfold ncols. simpl.
  rewrite (select_map (fun r => cell_ne (at_col (length (columns df) - 1) r)
                                         (at_col (length (columns df) - 2) r))).
  unfold mismatches, predicted, actual, ncols.
  apply map_ext. intros r. simpl.
  replace (Nat.min (length (columns df)) 2) with 2%nat by lia. simpl.
  unfold labels, actual, predicted, ncols.
  replace (S (length (columns df) - 2)) with (length (columns df) - 1)%nat by lia.
  reflexivity.
Qed.

Lemma combinations_fails (df : frame) :
  (ncols df < 2)%nat -> combinations df = Raise IndexError.
Proof.
  intros H. unfold combinations, iloc_col.
  destruct (bool_decide (1 <= 1 <= ncols df)%nat); simpl; [|reflexivity].
  rewrite bool_decide_eq_false_2; [reflexivity|lia].
Qed.

Lemma cell_eq_spec (a b : cell) : cell_eq a b = true <-> a = b /\ a <> NaN.
Proof.
  destruct a, b; simpl; rewrite ?bool_decide_eq_true;
    split; try (intros [? ?]); try intros ?; try split; congruence.
Qed.

Lemma cell_eq_sym (a b : cell) : cell_eq a b = cell_eq b a.
Proof.
  destruct a, b; simpl; try reflexivity; apply bool_decide_ext; split; congruence.
Qed.

Lemma cell_eq_refl (a : cell) : a <> NaN -> cell_eq a a = true.
Proof. intros H. apply cell_eq_spec. auto. Qed.

Lemma cell_eq_neq (a b : cell) : a <> b -> cell_eq a b = false.
Proof.
  intros H. destruct (cell_eq a b) eqn:E; [|reflexivity].
  apply cell_eq_spec in E. tauto.
Qed.

Lemma elem_of_List_filter {A} (f : A -> bool) (l : list A) (x : A) :
  x ∈ List.filter f l <-> x ∈ l /\ f x = true.
Proof. rewrite !list_elem_of_In. apply filter_In. Qed.

Lemma first_occurrences_elem (l : list (list cell)) (x : list cell) :
  x ∈ first_occurrences l <-> x ∈ l.
Proof.
  induction l as [|a l IH]; simpl; [reflexivity|].
  rewrite !elem_of_cons, elem_of_List_filter, IH, negb_true_iff, bool_decide_eq_false.
  destruct (decide (x = a)); tauto.
Qed.

Lemma NoDup_List_filter {A} (f : A -> bool) (l : list A) :
  NoDup l -> NoDup (List.filter f l).
Proof.
  induction 1 as [|x l Hx Hl IH]; simpl; [constructor|].
  destruct (f x); [|assumption].
  constructor; [|assumption]. rewrite elem_of_List_filter. tauto.
Qed.

Lemma first_occurrences_NoDup (l : list (list cell)) : NoDup (first_occurrences l).
Proof.
  induction l as [|a l IH]; simpl; constructor.
  - rewrite elem_of_List_filter, negb_true_iff, bool_decide_eq_false. tauto.
  - now apply NoDup_List_filter.
Qed.

(** Filtering keeps the relative order of the entries it keeps. *)
Lemma List_filter_lookup_order {A} (f : A -> bool) (l : list A) (i j : nat) (x y : A) :
  (i < j)%nat -> List.filter f l !! i = Some x -> List.filter f l !! j = Some y ->
  exists i' j', (i' < j')%nat /\ l !! i' = Some x /\ l !! j' = Some y.
Proof.
  revert i j. induction l as [|a l IH]; intros i j Hij Hi Hj; simpl in *.
  - rewrite lookup_nil in Hi. discriminate.
  - destruct (f a).
    + destruct i as [|i].
      * destruct j as [|j]; [lia|]. simpl in *.
        assert (Hy : y ∈ l).
        { apply list_elem_of_lookup_2 in Hj. apply elem_of_List_filter in Hj. tauto. }
        apply list_elem_of_lookup_1 in Hy as [j' Hj'].
        exists 0%nat, (S j'). simpl. split; [lia|]. split; assumption.
      * destruct j as [|j]; [lia|]. simpl in *.
        destruct (IH i j) as (i' & j' & ? & ? & ?); [lia|assumption|assumption|].
        exists (S i'), (S j'). simpl. split; [lia|]. split; assumption.
    + destruct (IH i j) as (i' & j' & ? & ? & ?); [lia|assumption|assumption|].
      exists (S i'), (S j'). simpl. split; [lia|]. split; assumption.
Qed.

Lemma first_index_elem (x : list cell) (l : list (list cell)) :
  x ∈ l -> exists k, first_index x l = Some k.
Proof.
  induction l as [|a l IH]; intros H.
  - apply not_elem_of_nil in H. contradiction.
  - simpl. destruct (decide (a = x)) as [->|Hne].
    + rewrite bool_decide_eq_true_2 by reflexivity. eauto.
    + rewrite bool_decide_eq_false_2 by assumption.
      apply elem_of_cons in H as [->|H]; [congruence|].
      destruct (IH H) as [k ->]. simpl. eauto.
Qed.

Lemma first_index_lookup (x : list cell) (l : list (list cell)) (k : nat) :
  first_index x l = Some k ->
  l !! k = Some x /\ forall i, (i < k)%nat -> l !! i <> Some x.
Proof.
  revert k. induction l as [|a l IH]; intros k H; simpl in H; [discriminate|].
  destruct (decide (a = x)) as [->|Hne].
  - rewrite bool_decide_eq_true_2 in H by reflexivity. injection H as <-.
    split; [reflexivity|]. intros i Hi. lia.
  - rewrite bool_decide_eq_false_2 in H by assumption.
    destruct (first_index x l) as [k'|] eqn:E; [|discriminate].
    injection H as <-. destruct (IH k' eq_refl) as [Hk Hmin].
    split; [exact Hk|]. intros [|i] Hi; simpl; [congruence|].
    apply Hmin. lia.
Qed.

(** The entries of [first_occurrences l] come in the order in which they
    occur first in [l]. *)
Lemma first_occurrences_order (l : list (list cell)) (i j : nat) (x y : list cell) :
  (i < j)%nat ->
  first_occurrences l !! i = Some x -> first_occurrences l !! j = Some y ->
  exists i' j', first_index x l = Some i' /\ first_index y l = Some j'
                /\ (i' < j')%nat.
Proof.
  revert i j. induction l as [|a l IH]; intros i j Hij Hi Hj; simpl in *.
  - rewrite lookup_nil in Hi. discriminate.
  - destruct j as [|j]; [lia|]. simpl in Hj.
    assert (Hy : y <> a /\ y ∈ l).
    { apply list_elem_of_lookup_2 in Hj. apply elem_of_List_filter in Hj.
      rewrite negb_true_iff, bool_decide_eq_false, first_occurrences_elem in Hj. tauto. }
    destruct Hy as [Hya Hyl].
    rewrite (bool_decide_eq_false_2 (a = y)) by congruence.
    destruct i as [|i]; simpl in Hi.
    + injection Hi as ->. rewrite bool_decide_eq_true_2 by reflexivity.
      destruct (first_index_elem y l Hyl) as [k ->]. simpl.
      exists 0%nat, (S k). repeat split; lia.
    + assert (Hxa : x <> a).
      { apply list_elem_of_lookup_2 in Hi. apply elem_of_List_filter in Hi.
        rewrite negb_true_iff, bool_decide_eq_false in Hi. tauto. }
      rewrite (bool_decide_eq_false_2 (a = x)) by congruence.
      destruct (List_filter_lookup_order _ _ i j x y ltac:(lia) Hi Hj)
        as (i0 & j0 & Hlt & Hi0 & Hj0).
      destruct (IH i0 j0 Hlt Hi0 Hj0) as (i' & j' & -> & -> & Hlt').
      simpl. exists (S i'), (S j'). repeat split; lia.
Qed.

Lemma mismatches_filter (df : frame) :
  mismatches df
  = List.filter (fun p => cell_ne (item p 1) (item p 0)) (map (labels df) (rows df)).
Proof.
  unfold mismatches. induction (rows df) as [|r l IH]; simpl; [reflexivity|].
  unfold item at 1 2. simpl.
  destruct (cell_ne (predicted df r) (actual df r)); simpl; now rewrite IH.
Qed.

Lemma mismatches_elem (df : frame) (p : list cell) :
  p ∈ mismatches df
  <-> exists r, r ∈ rows df /\ p = labels df r
                /\ cell_eq (actual df r) (predicted df r) = false.
Proof.
  unfold mismatches. rewrite list_elem_of_fmap. split.
  - intros (r & -> & Hr). apply elem_of_List_filter in Hr as [Hr Hne].
    exists r. repeat split; [assumption|].
    unfold cell_ne in Hne. rewrite negb_true_iff in Hne. now rewrite cell_eq_sym.
  - intros (r & Hr & -> & Hne). exists r. split; [reflexivity|].
    apply elem_of_List_filter. split; [assumption|].
    unfold cell_ne. rewrite negb_true_iff. now rewrite cell_eq_sym.
Qed.

Lemma cell_eq_NaN_l (b : cell) : cell_eq NaN b = false.
Proof. reflexivity. Qed.

Lemma cell_eq_NaN_r (a : cell) : cell_eq a NaN = false.
Proof. destruct a; reflexivity. Qed.

Lemma List_filter_false {A} (f : A -> bool) (l : list A) :
  (forall x, f x = false) -> List.filter f l = [].
Proof.
  intros H. induction l as [|x l IH]; simpl; [reflexivity|]. now rewrite H.
Qed.

Lemma first_occurrences_dedup_by (same : list cell -> list cell -> bool)
    (l : list (list cell)) :
  (forall x y, x ∈ l -> y ∈ l -> same x y = bool_decide (x = y)) ->
  dedup_by same l = first_occurrences l.
Proof.
  induction l as [|x t IH]; intros Hsame; [reflexivity|]. simpl.
  rewrite IH by (intros y z Hy Hz; apply Hsame; now right). f_equal.
  apply filter_ext_in. intros y Hy.
  apply list_elem_of_In in Hy. apply (proj1 (first_occurrences_elem _ _)) in Hy.
  rewrite Hsame; [reflexivity|now right|left].
Qed.

Lemma cell_eq_same_cell (a b : cell) :
  a <> NaN -> cell_eq a b = same_cell a b.
Proof.
  intros Ha. unfold same_cell. destruct (cell_eq a b) eqn:Heq.
  - apply cell_eq_spec in Heq as [-> _]. now rewrite bool_decide_eq_true_2.
  - rewrite bool_decide_eq_false_2; [reflexivity|].
    intros <-. now rewrite cell_eq_refl in Heq.
Qed.

Lemma same_pair_labels (df : frame) (r r' : row) :
  same_pair same_cell (labels df r) (labels df r')
  = bool_decide (labels df r = labels df r').
Proof.
  unfold same_pair, same_cell, labels, item. simpl.
  repeat case_bool_decide; simplify_eq; try reflexivity; congruence.
Qed.

(** Without missing labels the code's [==] and identity are one equality,
    and the extraction is the documented one. *)
Lemma documented_extract_eq (df : frame) (eq : cell -> cell -> bool) :
  (forall r, r ∈ rows df -> actual df r <> NaN /\ predicted df r <> NaN) ->
  (forall a b, a <> NaN -> eq a b = same_cell a b) ->
  documented_extract eq df = first_occurrences (mismatches df).
Proof.
  intros Hlabels Heq. unfold documented_extract, mismatches.
  assert (Hfilter : List.filter
                      (fun r => negb (eq (actual df r) (predicted df r))) (rows df)
                    = List.filter
                        (fun r => cell_ne (predicted df r) (actual df r)) (rows df)).
  { apply filter_ext_in. intros r Hr. apply list_elem_of_In in Hr.
    destruct (Hlabels r Hr) as [Ha Hp]. unfold cell_ne.
    rewrite Heq, <- cell_eq_same_cell, cell_eq_sym by assumption. reflexivity. }
  rewrite Hfilter. apply first_occurrences_dedup_by.
  intros x y Hx Hy.
  apply list_elem_of_In, in_map_iff in Hx as (r & <- & Hr).
  apply list_elem_of_In, in_map_iff in Hy as (r' & <- & Hr').
  apply filter_In in Hr as [Hr _]. apply filter_In in Hr' as [Hr' _].
  apply list_elem_of_In in Hr, Hr'.
  destruct (Hlabels r Hr) as [Ha Hp].
  rewrite <- same_pair_labels. unfold same_pair, labels, item. simpl.
  now rewrite !Heq.
Qed.

(** C2, as the code has it.  For a data frame with its two label columns,
    exact labels in them, the extraction returns the (actual, predicted)
    pairs of the rows whose predicted label is [!=] to the actual one, each
    pair once, in the order in which the pairs occur first: the result has
    no repetition, holds exactly the pairs of these rows and lists them by
    first occurrence.  A missing label is [!=] to every label, itself
    included, and is one label when duplicates are dropped: a row with a
    missing label always gives a pair, and the pair of two missing labels
    is the only one whose actual label is the predicted one.  Without
    missing labels the extraction is the documented one, under identity and
    under [==] alike, and no pair has its actual label equal to its
    predicted one.  On the rows (A,A), (A,B), (B,A), (A,B), for two
    different labels, A not missing, it is [(A,B), (B,A)]. *)
Theorem combinations_distinct_mismatches (df : frame) (H : (2 <= ncols df)%nat)
    (Hexact : exact_labels df) :
  exists pairs,
    combinations df = Return pairs
    /\ pairs = first_occurrences (mismatches df)
    /\ NoDup pairs
    /\ (forall p, p ∈ pairs <->
          exists r, r ∈ rows df /\ p = labels df r
                    /\ cell_eq (actual df r) (predicted df r) = false)
    /\ (forall i j x y, (i < j)%nat -> pairs !! i = Some x -> pairs !! j = Some y ->
          exists i' j', first_index x (mismatches df) = Some i'
                        /\ first_index y (mismatches df) = Some j'
                        /\ (i' < j')%nat)
    /\ (forall a p, [a; p] ∈ pairs -> cell_eq a p = false)
    /\ (forall a p, [a; p] ∈ pairs -> a = p -> a = NaN)
    /\ (forall r, r ∈ rows df -> actual df r = NaN \/ predicted df r = NaN ->
          labels df r ∈ pairs)
    /\ ((forall r, r ∈ rows df -> actual df r <> NaN /\ predicted df r <> NaN) ->
        pairs = documented_extract same_cell df
        /\ pairs = documented_extract cell_eq df
        /\ forall a p, [a; p] ∈ pairs -> a <> p)
    /\ (forall A B, A <> B -> A <> NaN ->
          map (labels df) (rows df) = [[A; A]; [A; B]; [B; A]; [A; B]] ->
          pairs = [[A; B]; [B; A]]).
Proof.
  exists (first_occurrences (mismatches df)).
  split; [now apply combinations_eq|]. split; [reflexivity|].
  split; [apply first_occurrences_NoDup|].
  split; [intros p; rewrite first_occurrences_elem; apply mismatches_elem|].
  split; [intros i j x y; apply first_occurrences_order|].
  assert (Hne : forall a p, [a; p] ∈ first_occurrences (mismatches df) ->
                            cell_eq a p = false).
  { intros a p Hin. apply first_occurrences_elem, mismatches_elem in Hin.
    destruct Hin as (r & _ & Heq & Hne). unfold labels in Heq.
    injection Heq as -> ->. exact Hne. }
  split; [exact Hne|]. split; [|split; [|split]].
  - intros a p Hin <-. apply Hne in Hin.
    destruct (decide (a = NaN)) as [|Ha]; [assumption|].
    rewrite cell_eq_refl in Hin by assumption. discriminate.
  - intros r Hr Hnan. apply first_occurrences_elem, mismatches_elem. exists r.
    repeat split; [assumption|].
    destruct Hnan as [-> | ->]; [reflexivity|]. now destruct (actual df r).
  - intros Hlabels. split; [|split].
    + symmetry. apply documented_extract_eq; [exact Hlabels|reflexivity].
    + symmetry. apply documented_extract_eq; [exact Hlabels|].
      intros a b Ha. now apply cell_eq_same_cell.
    + intros a p Hin Heq. pose proof (Hne a p Hin) as Hfalse.
      apply first_occurrences_elem, mismatches_elem in Hin
        as (r & Hr & Hlab & _).
      unfold labels in Hlab. injection Hlab as -> ->.
      destruct (Hlabels r Hr) as [Ha _].
      rewrite Heq, cell_eq_refl in Hfalse; [discriminate|congruence].
  - intros A B HAB HA Hrows. rewrite mismatches_filter, Hrows. simpl.
    unfold cell_ne, item. simpl.
    rewrite (cell_eq_refl A HA), (cell_eq_neq B A), (cell_eq_neq A B) by congruence.
    simpl.
    rewrite (bool_decide_eq_false_2 ([B; A] = [A; B])) by congruence.
    rewrite (bool_decide_eq_false_2 ([A; B] = [B; A])) by congruence.
    simpl.
    rewrite (bool_decide_eq_true_2 ([A; B] = [A; B])) by reflexivity.
    reflexivity.
Qed.

Lemma combinations_distinct_mismatches_witness :
  exists pairs,
    combinations Example.baseline_result = Return pairs
    /\ pairs = [[Str "A"; Str "B"]; [Str "B"; Str "A"]].
Proof.
  destruct (combinations_distinct_mismatches Example.baseline_result)
    as (pairs & Hc & Hp & _).
  - vm_compute. lia.
  - left. reflexivity.
  - exists pairs. split; [exact Hc|]. rewrite Hp. vm_compute. reflexivity.
Defined.

(** The extraction is not the documented one where labels are missing.  A
    row whose two labels are missing gives the pair of the two, whose
    actual label is the predicted one: the result is not what the
    documented extraction gives under identity of labels.  Two rows with
    the same labels, one of them missing, give one pair, where under [==]
    the two pairs are different: the result is not what the documented
    extraction gives under [==] either. *)
Lemma pair_of_missing_labels_extracted :
  combinations missing_pair_frame = Return [[NaN; NaN]]
  /\ ~ never_equal_pair missing_pair_frame
  /\ ~ extracts_as_documented same_cell missing_pair_frame
  /\ combinations repeated_missing_frame = Return [[NaN; Str "A"]]
  /\ ~ extracts_as_documented cell_eq repeated_missing_frame.
Proof.
  split; [reflexivity|]. split; [|split; [|split]].
  - intros Hnever.
    apply (Hnever [[NaN; NaN]] NaN NaN); [reflexivity|left|reflexivity].
  - intros Hdoc. discriminate Hdoc.
  - reflexivity.
  - intros Hdoc. discriminate Hdoc.
Qed.

(** ** Reasoning about runs *)

(** A run that returns went through each of its steps, which returned. *)
Lemma bind_Return {A B} (m : M A) (k : A -> M B) (w w' : world) (b : B) :
  bind m k w = (Return b, w') ->
  exists a w1, m w = (Return a, w1) /\ k a w1 = (Return b, w').
Proof.
  unfold bind. destruct (m w) as [[a|e] w1]; intros H; [eauto|discriminate].
Qed.

Lemma bind_Raise {A B} (m : M A) (k : A -> M B) (w w' : world) (e : exn) :
  m w = (Raise e, w') -> bind m k w = (Raise e, w').
Proof. unfold bind. now intros ->. Qed.

Lemma bind_step {A B} (m : M A) (k : A -> M B) (w w1 : world) (a : A) :
  m w = (Return a, w1) -> bind m k w = k a w1.
Proof. unfold bind. now intros ->. Qed.

Lemma getitem_Return {A} (key : string) (field : option A) (w w' : world) (a : A) :
  getitem key field w = (Return a, w') -> field = Some a /\ w' = w.
Proof.
  destruct field; simpl; unfold ret, raise; intros H; inversion H; auto.
Qed.

Lemma lift_Return {A} (o : outcome A) (w w' : world) (a : A) :
  lift o w = (Return a, w') -> o = Return a /\ w' = w.
Proof. unfold lift. intros H; inversion H; auto. Qed.

Lemma load_block_Return (l : loc) (w w' : world) (b : Block.t) :
  load_block l w = (Return b, w') -> blocks w !! l = Some b /\ w' = w.
Proof.
  unfold load_block. destruct (blocks w !! l); intros H; inversion H; auto.
Qed.

Lemma load_frame_Return (l : loc) (w w' : world) (f : frame) :
  load_frame l w = (Return f, w') -> frames w !! l = Some f /\ w' = w.
Proof.
  unfold load_frame. destruct (frames w !! l); intros H; inversion H; auto.
Qed.

Lemma for_app {A} (l1 l2 : list A) (body : A -> M unit) (w : world) :
  for_ (l1 ++ l2) body w = bind (for_ l1 body) (fun _ => for_ l2 body) w.
Proof.
  revert w. induction l1 as [|x l1 IH]; intros w; simpl.
  - reflexivity.
  - unfold bind. destruct (body x w) as [[[]|e] w1]; [|reflexivity].
    rewrite IH. reflexivity.
Qed.

(** *** Steps that keep a relation between the worlds before and after *)

Section Preserves.

Context (R : relation world) `{!PreOrder R}.

Lemma preserves_bind {A B} (m : M A) (k : A -> M B) :
  preserves R m -> (forall a, preserves R (k a)) -> preserves R (bind m k).
Proof.
  intros Hm Hk w. unfold bind. specialize (Hm w).
  destruct (m w) as [[a|e] w1]; simpl in *; [|assumption].
  etrans; [eassumption|]. apply Hk.
Qed.

Lemma preserves_try_except_pass (m : M unit) :
  preserves R m -> preserves R (try_except_pass m).
Proof.
  intros Hm w. unfold try_except_pass. specialize (Hm w).
  destruct (m w) as [[a|e] w1]; assumption.
Qed.

Lemma preserves_for {A} (l : list A) (body : A -> M unit) :
  (forall x, preserves R (body x)) -> preserves R (for_ l body).
Proof.
  intros Hb. induction l as [|x l IH]; simpl.
  - intros w. reflexivity.
  - apply preserves_bind; auto.
Qed.

End Preserves.

Create HintDb preserves_db.

Ltac head_of t :=
  lazymatch t with
  | ?f _ => head_of f
  | _ => t
  end.

(** Splitting a step into its parts down to the reads and writes of the
    world, which [leaf] settles. *)
Ltac preserves_go leaf :=
  repeat lazymatch goal with
  | |- preserves _ (bind _ _) => apply preserves_bind; [typeclasses eauto| |intros ?]
  | |- preserves _ (for_ _ _) => apply preserves_for; [typeclasses eauto|intros ?]
  | |- preserves _ (try_except_pass _) => apply preserves_try_except_pass
  | |- preserves _ (if true then _ else _) => cbv iota
  | |- preserves _ (if false then _ else _) => cbv iota
  | |- preserves _ (if ?c then _ else _) => destruct c
  | |- preserves _ (match ?o with _ => _ end) => destruct o
  | |- preserves _ ?m =>
      first [ assumption
            | solve [ auto 1 with preserves_db ]
            | solve [ intros ?w;
                      cbv [ret raise lift getitem get_report load_block store_block
                           load_frame store_frame alloc_frame load_visualizer
                           store_visualizer alloc_visualizer plt_figure plt_gca
                           plt_close_figure plt_close log_call];
                      repeat case_match; simpl; leaf ]
            | let h := head_of m in unfold h ]
  end.

Lemma ret_Return {A} (a b : A) (w w' : world) :
  ret a w = (Return b, w') -> b = a /\ w' = w.
Proof. unfold ret. intros H; inversion H; auto. Qed.

Lemma get_report_Return (r : Report.t) (w w' : world) :
  get_report w = (Return r, w') -> r = report w /\ w' = w.
Proof. unfold get_report. intros H; inversion H; auto. Qed.

Lemma store_block_Return (l : loc) (b : Block.t) (w w' : world) (u : unit) :
  store_block l b w = (Return u, w') -> w' = with_blocks (<[l := b]> (blocks w)) w.
Proof. unfold store_block. intros H; inversion H; auto. Qed.

(** Taking apart a run that returned. *)
Ltac inv_run :=
  repeat match goal with
  | H : bind _ _ _ = (Return _, _) |- _ =>
      let a := fresh "a" in let w1 := fresh "w" in let H1 := fresh "Hrun" in
      apply bind_Return in H; destruct H as (a & w1 & H1 & H)
  | H : ret _ _ = (Return _, _) |- _ =>
      apply ret_Return in H; destruct H as [? ?]; subst
  | H : getitem _ _ _ = (Return _, _) |- _ =>
      apply getitem_Return in H; destruct H as [? ?]; subst
  | H : lift _ _ = (Return _, _) |- _ =>
      apply lift_Return in H; destruct H as [? ?]; subst
  | H : get_report _ = (Return _, _) |- _ =>
      apply get_report_Return in H; destruct H as [? ?]; subst
  | H : load_block _ _ = (Return _, _) |- _ =>
      apply load_block_Return in H; destruct H as [? ?]; subst
  | H : load_frame _ _ = (Return _, _) |- _ =>
      apply load_frame_Return in H; destruct H as [? ?]; subst
  | H : store_block _ _ _ = (Return _, _) |- _ =>
      apply store_block_Return in H; subst
  | u : unit |- _ => destruct u
  end.

(** ** What the steps leave alone *)

#[global] Instance same_store_preorder : PreOrder same_store.
Proof.
  split.
  - intros w. repeat split.
  - intros w1 w2 w3 (? & ? & ?) (? & ? & ?). repeat split; congruence.
Qed.

#[global] Instance same_frames_preorder : PreOrder same_frames.
Proof.
  split.
  - intros w. reflexivity.
  - intros w1 w2 w3 ? ?. unfold same_frames in *. congruence.
Qed.

#[global] Instance frames_kept_preorder : PreOrder frames_kept.
Proof.
  split.
  - intros w. unfold frames_kept. reflexivity.
  - intros w1 w2 w3 ? ?. unfold frames_kept in *. etrans; eassumption.
Qed.

#[global] Instance calls_extend_preorder : PreOrder calls_extend.
Proof.
  split.
  - intros w. exists []. split; [now rewrite app_nil_r|constructor].
  - intros w1 w2 w3 (e1 & H1 & F1) (e2 & H2 & F2). exists (e1 ++ e2). split.
    + rewrite H2, H1, app_assoc. reflexivity.
    + apply Forall_app. auto.
Qed.

#[global] Instance same_calls_preorder : PreOrder same_calls.
Proof.
  split.
  - intros w. reflexivity.
  - intros w1 w2 w3 ? ?. unfold same_calls in *. congruence.
Qed.

Ltac same_frames_leaf := solve [unfold same_frames; simpl; reflexivity].

Ltac frames_kept_leaf :=
  solve [unfold frames_kept; simpl; first [reflexivity | apply prefix_app_r; reflexivity]].

Ltac same_calls_leaf := solve [unfold same_calls; simpl; reflexivity].

Ltac calls_extend_leaf :=
  solve [unfold calls_extend; simpl;
         first [ exists []; split; [now rewrite app_nil_r|constructor]
               | eexists [_]; split; [reflexivity|repeat constructor] ]].

Lemma calls_extend_elem (w w' : world) (rq : request) :
  calls_extend w w' -> rq ∈ calls w -> rq ∈ calls w'.
Proof. intros (ext & -> & _) H. apply elem_of_app. now left. Qed.

Ltac same_store_leaf := solve [repeat split].

(** The renderers and the visualizer work on figures, the call log and the
    visualizers only. *)
Lemma missing_matrix_same_store (E : Ext.env) (d : frame) (p : bool) :
  preserves same_store (missing_matrix E d p).
Proof. preserves_go same_store_leaf. Qed.

Lemma precision_recall_curve_same_store (E : Ext.env) (s : train_test) :
  preserves same_store (precision_recall_curve E s).
Proof. preserves_go same_store_leaf. Qed.

Lemma reset_style_same_store (E : Ext.env) : preserves same_store (reset_style E).
Proof. preserves_go same_store_leaf. Qed.

(** ** The blocks a report names *)

Lemma baseline_block_eq (w : world) :
  baseline_block w = (baseline_of (report w), w).
Proof.
  unfold baseline_block, baseline_of, bind, get_report, getitem.
  destruct (Report.baseline (report w)); reflexivity.
Qed.

Lemma strategy_classifications_eq (w : world) :
  strategy_classifications w
  = (match Report.strategy_classifications (report w) with
     | Some sc => Return sc
     | None => Raise (KeyError "strategy_classifications")
     end, w).
Proof.
  unfold strategy_classifications, bind, get_report, getitem.
  destruct (Report.strategy_classifications (report w)); reflexivity.
Qed.

Lemma strategy_block_eq (strategy : string) (w : world) :
  strategy_block strategy w = (strategy_of strategy (report w), w).
Proof.
  unfold strategy_block, strategy_of, bind. rewrite strategy_classifications_eq.
  destruct (Report.strategy_classifications (report w)) as [sc|]; [|reflexivity].
  unfold getitem. destruct (dict_lookup strategy sc); reflexivity.
Qed.

(** ** The missingness wrapper *)

Lemma missing_matrix_Return (E : Ext.env) (d : frame) (p : bool) (w w' : world)
    (s : string) :
  missing_matrix E d p w = (Return s, w') ->
  rendered E (MsnoMatrix d p) s
  /\ report w' = report w /\ blocks w' = blocks w /\ frames w' = frames w
  /\ calls w' = calls w ++ [MsnoMatrix d p].
Proof.
  unfold missing_matrix, plotting, savefig, bind, log_call, plt_figure,
    plt_close_figure, ret, raise, rendered.
  destruct p; simpl.
  - destruct (Ext.draws E (MsnoMatrix d true)); simpl; [|discriminate].
    destruct (Ext.savefig E (MsnoMatrix d true)) as [data|]; simpl; [|discriminate].
    intros H; inversion H; subst; simpl. eauto 10.
  - destruct (Ext.draws E (MsnoMatrix d false)); simpl; [|discriminate].
    destruct (Ext.savefig E (MsnoMatrix d false)) as [data|]; simpl; [|discriminate].
    intros H; inversion H; subst; simpl. eauto 10.
Qed.

(** ** The matrixes of one block *)

Section Block_matrixes.

Variable E : Ext.env.
Variable block : M loc.
Variable block_of : Report.t -> outcome loc.
Hypothesis block_eq : forall w, block w = (block_of (report w), w).

Lemma block_Return (w w' : world) (l : loc) :
  block w = (Return l, w') -> block_of (report w) = Return l /\ w' = w.
Proof. rewrite block_eq. intros H; inversion H; auto. Qed.

Lemma pair_matrix_Return (dfl : loc) (pair : list cell) (w w' : world) :
  pair_matrix E block dfl pair w = (Return tt, w') ->
  exists l d blk pm m,
    block_of (report w) = Return l /\ frames w !! dfl = Some d
    /\ blocks w !! l = Some blk /\ Block.prediction_matrixes blk = Some pm
    /\ pair_entry E d pair m
    /\ blocks w' = <[l := set_prediction_matrixes (pm ++ [m]) blk]> (blocks w)
    /\ frames w' = frames w /\ report w' = report w.
Proof.
  unfold pair_matrix. intros H. inv_run.
  apply missing_matrix_Return in Hrun1 as (Hr & Hrep & Hbl & Hfr & _).
  apply block_Return in Hrun2 as [Hl ->].
  match goal with
  | Hb : blocks _ !! ?l = Some ?blk, Hp : Block.prediction_matrixes ?blk = Some ?pm,
    Hd : frames _ !! dfl = Some ?d, Ht : reordered ?d pair = Return ?top |- _ =>
      exists l, d, blk, pm, (Matrix (pair_name pair) a1)
  end.
  rewrite Hrep in Hl. rewrite Hbl in *. simpl.
  repeat split; try assumption. eexists; eauto.
Qed.

Lemma set_prediction_matrixes_twice (pm pm' : list matrix) (blk : Block.t) :
  set_prediction_matrixes pm' (set_prediction_matrixes pm blk)
  = set_prediction_matrixes pm' blk.
Proof. reflexivity. Qed.

Lemma pair_loop_Return (dfl : loc) (pairs : list (list cell)) (w w' : world)
    (l : loc) (d : frame) (blk : Block.t) (pm : list matrix) :
  for_ pairs (pair_matrix E block dfl) w = (Return tt, w') ->
  block_of (report w) = Return l -> frames w !! dfl = Some d ->
  blocks w !! l = Some blk -> Block.prediction_matrixes blk = Some pm ->
  exists rest,
    Forall2 (pair_entry E d) pairs rest
    /\ blocks w' = <[l := set_prediction_matrixes (pm ++ rest) blk]> (blocks w)
    /\ frames w' = frames w /\ report w' = report w.
Proof.
  revert w blk pm. induction pairs as [|p pairs IH]; intros w blk pm H Hl Hd Hb Hpm.
  - simpl in H. inv_run. exists []. split; [constructor|].
    rewrite app_nil_r. repeat split.
    symmetry. apply list_insert_id. rewrite Hb. f_equal.
    destruct blk; simpl in *; subst; reflexivity.
  - simpl in H. inv_run.
    apply pair_matrix_Return in Hrun
      as (l1 & d1 & blk1 & pm1 & m & Hl1 & Hd1 & Hb1 & Hpm1 & Hm & Hbl & Hfr & Hrep).
    assert (l1 = l) by congruence. subst l1.
    assert (d1 = d) by congruence. subst d1.
    assert (blk1 = blk) by congruence. subst blk1.
    assert (pm1 = pm) by congruence. subst pm1.
    destruct (IH w0 (set_prediction_matrixes (pm ++ [m]) blk) (pm ++ [m]))
      as (rest & Hrest & Hbl' & Hfr' & Hrep').
    + exact H.
    + now rewrite Hrep.
    + now rewrite Hfr.
    + rewrite Hbl. apply list_lookup_insert_eq. now apply lookup_lt_Some in Hb.
    + reflexivity.
    + exists (m :: rest). split; [now constructor|].
      rewrite Hbl', Hbl, list_insert_insert_eq, set_prediction_matrixes_twice.
      rewrite <- app_assoc. simpl. repeat split; congruence.
Qed.

(** A run of lines 279-284 that returns leaves the block with the matrixes
    of the frame, and touches nothing else in the report. *)
Lemma block_prediction_matrixes_Return (dfl : loc) (w w' : world) :
  block_prediction_matrixes E block dfl w = (Return tt, w') ->
  exists l d blk ms,
    block_of (report w) = Return l /\ frames w !! dfl = Some d
    /\ blocks w !! l = Some blk /\ matrixes_of E d ms
    /\ blocks w' = <[l := set_prediction_matrixes ms blk]> (blocks w)
    /\ frames w' = frames w /\ report w' = report w.
Proof.
  unfold block_prediction_matrixes. intros H.
  apply bind_Return in H as (d & w1 & Hd & H). apply load_frame_Return in Hd as [Hd ->].
  apply bind_Return in H as (img & w1 & Himg & H).
  apply missing_matrix_Return in Himg as (Hr & Hrep & Hbl & Hfr & _).
  apply bind_Return in H as (l & w2 & Hl & H). apply block_Return in Hl as [Hl ->].
  apply bind_Return in H as (blk & w2 & Hb & H). apply load_block_Return in Hb as [Hb ->].
  apply bind_Return in H as ([] & w2 & Hst & H). apply store_block_Return in Hst as ->.
  apply bind_Return in H as (d' & w2 & Hd' & H). apply load_frame_Return in Hd' as [Hd' ->].
  apply bind_Return in H as (ps & w2 & Hps & H). apply lift_Return in Hps as [Hps ->].
  simpl in Hd'. rewrite Hfr, Hd in Hd'. injection Hd' as <-.
  rewrite Hrep in Hl. rewrite Hbl in Hb.
  destruct (pair_loop_Return dfl ps _ _ l d
              (set_prediction_matrixes [Matrix "Original Dataset" img] blk)
              [Matrix "Original Dataset" img] H)
    as (rest & Hrest & Hbl' & Hfr' & Hrep').
  - simpl. congruence.
  - simpl. congruence.
  - simpl. rewrite Hbl. apply list_lookup_insert_eq. now apply lookup_lt_Some in Hb.
  - reflexivity.
  - exists l, d, blk, (Matrix "Original Dataset" img :: rest).
    simpl in *. repeat split; try congruence.
    + exists (Matrix "Original Dataset" img), rest, ps. repeat split; assumption.
    + rewrite Hbl', Hbl, list_insert_insert_eq. reflexivity.
Qed.

Lemma block_preserves (R : relation world) `{!PreOrder R} : preserves R block.
Proof. intros w. rewrite block_eq. reflexivity. Qed.

(** A run of lines 279-284 that returns has handed the frame, as it is, to
    the renderer. *)
Lemma block_prediction_matrixes_shown (dfl : loc) (d : frame) (w w' : world) :
  block_prediction_matrixes E block dfl w = (Return tt, w') ->
  frames w !! dfl = Some d -> MsnoMatrix d true ∈ calls w'.
Proof.
  unfold block_prediction_matrixes. intros H Hd.
  apply bind_Return in H as (d' & w1 & Hd' & H).
  apply load_frame_Return in Hd' as [Hd' ->].
  assert (d' = d) by congruence. subst d'.
  apply bind_Return in H as (img & w1 & Himg & H).
  apply missing_matrix_Return in Himg as (_ & _ & _ & _ & Hcalls).
  match type of H with
  | ?m w1 = _ => assert (Hp : preserves calls_extend m)
  end.
  { pose proof (block_preserves calls_extend). unfold pair_matrix.
    preserves_go calls_extend_leaf. }
  specialize (Hp w1). rewrite H in Hp. simpl in Hp.
  apply (calls_extend_elem w1 w' _ Hp). rewrite Hcalls.
  apply elem_of_app. right. left.
Qed.

End Block_matrixes.

(** ** Loops *)

(** A loop that returns keeps what each pass keeps, and has, at the end,
    what one of its passes brings about and the others keep. *)
Lemma for_invariant {A} (body : A -> M unit) (I : world -> Prop) (l : list A)
    (w w' : world) :
  (forall x w1 w2, x ∈ l -> I w1 -> body x w1 = (Return tt, w2) -> I w2) ->
  I w -> for_ l body w = (Return tt, w') -> I w'.
Proof.
  revert w. induction l as [|x l IH]; intros w Hbody HI H; simpl in H.
  - apply ret_Return in H as [_ ->]. exact HI.
  - apply bind_Return in H as ([] & w1 & Hx & H).
    apply (IH w1); [|eapply Hbody; [left|eassumption..]|exact H].
    intros y w2 w3 Hy. apply Hbody. now right.
Qed.

Lemma for_establishes {A} (body : A -> M unit) (I Q : world -> Prop)
    (l : list A) (k : A) (w w' : world) :
  (forall x w1 w2, x ∈ l -> I w1 -> body x w1 = (Return tt, w2) -> I w2) ->
  (forall w1 w2, I w1 -> body k w1 = (Return tt, w2) -> Q w2) ->
  (forall x w1 w2, x ∈ l -> I w1 -> Q w1 -> body x w1 = (Return tt, w2) -> Q w2) ->
  k ∈ l -> I w -> for_ l body w = (Return tt, w') -> Q w'.
Proof.
  intros HI Hk HQ Hin Hw H.
  apply list_elem_of_split in Hin as (l1 & l2 & ->).
  rewrite for_app in H. apply bind_Return in H as ([] & w1 & H1 & H2).
  simpl in H2. apply bind_Return in H2 as ([] & w2 & Hbk & H2).
  assert (I1 : I w1).
  { apply (for_invariant body I l1 w w1); [|assumption..].
    intros x wa wb Hx. apply HI. apply elem_of_app. now left. }
  assert (I2 : I w2).
  { apply (HI k w1 w2); [|assumption..]. apply elem_of_app. right. left. }
  assert (Q2 : Q w2) by (apply (Hk w1 w2); assumption).
  cut (I w' /\ Q w'); [tauto|].
  apply (for_invariant body (fun w => I w /\ Q w) l2 w2 w'); [|auto|assumption].
  intros x wa wb Hx [Ia Qa] Hb.
  assert (x ∈ l1 ++ k :: l2) by (apply elem_of_app; right; now right).
  split; [apply (HI x wa wb)|apply (HQ x wa wb)]; assumption.
Qed.

(** ** How the world evolves *)

#[global] Instance block_evolves_preorder : PreOrder block_evolves.
Proof.
  split.
  - intros b. repeat split; auto.
  - intros b1 b2 b3 (? & ? & ?) (? & ? & ?). repeat split; [congruence|auto..].
Qed.

#[global] Instance evolves_preorder : PreOrder evolves.
Proof.
  split.
  - intros w. split; [reflexivity|]. split; [reflexivity|].
    intros l b Hb. exists b. split; [assumption|reflexivity].
  - intros w1 w2 w3 (Hr & Hf & Hb) (Hr' & Hf' & Hb').
    split; [congruence|]. split; [etrans; eassumption|].
    intros l b H. destruct (Hb l b H) as (b' & H' & He).
    destruct (Hb' l b' H') as (b'' & H'' & He').
    exists b''. split; [assumption|]. etrans; eassumption.
Qed.

Lemma evolves_insert (w w' : world) (l : loc) (blk blk' : Block.t) :
  report w' = report w -> frames w `prefix_of` frames w' ->
  blocks w !! l = Some blk -> block_evolves blk blk' ->
  blocks w' = <[l := blk']> (blocks w) ->
  evolves w w'.
Proof.
  intros Hr Hf Hb He Hbl. split; [assumption|]. split; [assumption|].
  intros l' b Hl'. rewrite Hbl. destruct (decide (l = l')) as [<-|Hne].
  - exists blk'. split.
    + apply list_lookup_insert_eq. now apply lookup_lt_Some in Hb.
    + congruence.
  - exists b. split; [|reflexivity]. now rewrite list_lookup_insert_ne.
Qed.

Lemma evolves_frame (w w' : world) (l : loc) (f : frame) :
  evolves w w' -> frames w !! l = Some f -> frames w' !! l = Some f.
Proof.
  intros (_ & [k ->] & _) H. now apply lookup_app_l_Some.
Qed.

Lemma evolves_popped (w w' : world) (l : loc) :
  evolves w w' -> popped l w -> popped l w'.
Proof.
  intros (_ & _ & Hb) (b & H & Hs). destruct (Hb l b H) as (b' & H' & _ & He & _).
  exists b'. auto.
Qed.

Lemma evolves_matrixes (w w' : world) (l : loc) (b : Block.t) :
  evolves w w' -> blocks w !! l = Some b ->
  is_Some (Block.prediction_matrixes b) ->
  exists b' ms, blocks w' !! l = Some b' /\ Block.prediction_matrixes b' = Some ms.
Proof.
  intros (_ & _ & Hb) H Hpm. destruct (Hb l b H) as (b' & H' & _ & _ & He).
  destruct (He Hpm) as [ms Hms]. eauto.
Qed.

Lemma evolves_result (w w' : world) (l : loc) (b b' : Block.t) :
  evolves w w' -> blocks w !! l = Some b -> blocks w' !! l = Some b' ->
  Block.result b' = Block.result b.
Proof.
  intros (_ & _ & Hb) H H'. destruct (Hb l b H) as (b'' & H'' & He & _). congruence.
Qed.

(** ** The passes of the pipeline that return *)

Lemma report_dataframe_Return (key : string) (field : Report.dataframes -> option loc)
    (w w' : world) (l : loc) :
  report_dataframe key field w = (Return l, w') ->
  exists dfs, Report.dataframe (report w) = Some dfs /\ field dfs = Some l /\ w' = w.
Proof.
  unfold report_dataframe. intros H. inv_run. eauto.
Qed.

(** Lines 286-287 add one frame, the strategy's, and change nothing else. *)
Lemma strategy_frame_Return (k : string) (w w' : world) (df : loc) :
  strategy_frame k w = (Return df, w') ->
  exists dfs t tf l blk r rf d,
    Report.dataframe (report w) = Some dfs /\ Report.test dfs = Some t
    /\ frames w !! t = Some tf
    /\ strategy_of k (report w) = Return l /\ blocks w !! l = Some blk
    /\ Block.result blk = Some r /\ (frames w ++ [tf]) !! r = Some rf
    /\ strategy_frame_of tf rf = Return d
    /\ df = length (frames w) /\ frames w' = frames w ++ [d]
    /\ blocks w' = blocks w /\ report w' = report w.
Proof.
  unfold strategy_frame. intros H.
  apply bind_Return in H as (t & w1 & Ht & H).
  apply report_dataframe_Return in Ht as (dfs & Hdfs & Htest & ->).
  apply bind_Return in H as (tf & w1 & Htf & H). apply load_frame_Return in Htf as [Htf ->].
  apply bind_Return in H as (df' & w1 & Hal & H).
  unfold alloc_frame in Hal. injection Hal as <- <-.
  apply bind_Return in H as (l & w1 & Hl & H).
  rewrite strategy_block_eq in Hl. injection Hl as Hl <-.
  apply bind_Return in H as (blk & w1 & Hb & H). apply load_block_Return in Hb as [Hb ->].
  apply bind_Return in H as (r & w1 & Hr & H). apply getitem_Return in Hr as [Hr ->].
  apply bind_Return in H as (rf & w1 & Hrf & H). apply load_frame_Return in Hrf as [Hrf ->].
  apply bind_Return in H as (pred & w1 & Hpred & H). apply lift_Return in Hpred as [Hpred ->].
  apply bind_Return in H as (d0 & w1 & Hd0 & H). apply load_frame_Return in Hd0 as [Hd0 ->].
  apply bind_Return in H as (d & w1 & Hd & H). apply lift_Return in Hd as [Hd ->].
  apply bind_Return in H as ([] & w1 & Hst & H).
  unfold store_frame in Hst. injection Hst as <-.
  apply ret_Return in H as [-> ->].
  simpl in *.
  rewrite lookup_app_r, Nat.sub_diag in Hd0 by lia. simpl in Hd0. injection Hd0 as <-.
  exists dfs, t, tf, l, blk, r, rf, d. repeat split; try assumption.
  - unfold strategy_frame_of. rewrite Hpred. exact Hd.
  - replace (length (frames w)) with (length (frames w) + 0)%nat by lia.
    rewrite insert_app_r. reflexivity.
Qed.

(** One pass of the loop of lines 285-293. *)
Lemma strategy_pass_Return (E : Ext.env) (k : string) (w w' : world) :
  bind (strategy_frame k)
       (fun df => block_prediction_matrixes E (strategy_block k) df) w
  = (Return tt, w') ->
  exists dfs t tf l blk r rf d ms,
    Report.dataframe (report w) = Some dfs /\ Report.test dfs = Some t
    /\ frames w !! t = Some tf
    /\ strategy_of k (report w) = Return l /\ blocks w !! l = Some blk
    /\ Block.result blk = Some r /\ (frames w ++ [tf]) !! r = Some rf
    /\ strategy_frame_of tf rf = Return d /\ matrixes_of E d ms
    /\ blocks w' = <[l := set_prediction_matrixes ms blk]> (blocks w)
    /\ frames w' = frames w ++ [d] /\ report w' = report w
    /\ MsnoMatrix d true ∈ calls w'.
Proof.
  intros H. apply bind_Return in H as (df & w1 & Hdf & H).
  apply strategy_frame_Return in Hdf
    as (dfs & t & tf & l & blk & r & rf & d & Hdfs & Ht & Htf & Hl & Hb & Hr & Hrf
        & Hd & -> & Hfr & Hbl & Hrep).
  assert (Hshown : MsnoMatrix d true ∈ calls w').
  { apply (block_prediction_matrixes_shown E _ (strategy_of k) (strategy_block_eq k)
             _ d _ _ H).
    rewrite Hfr. rewrite lookup_app_r, Nat.sub_diag by lia. reflexivity. }
  apply (block_prediction_matrixes_Return E _ (strategy_of k)) in H
    as (l' & d' & blk' & ms & Hl' & Hd' & Hb' & Hms & Hbl' & Hfr' & Hrep');
    [|apply strategy_block_eq].
  rewrite Hrep in Hl'. rewrite Hbl in Hb', Hbl'. rewrite Hfr in Hd', Hfr'.
  rewrite lookup_app_r, Nat.sub_diag in Hd' by lia. simpl in Hd'. injection Hd' as <-.
  assert (l' = l) by congruence. subst l'.
  assert (blk' = blk) by congruence. subst blk'.
  exists dfs, t, tf, l, blk, r, rf, d, ms. repeat split; try assumption; congruence.
Qed.

Lemma strategy_pass_calls_extend (E : Ext.env) (k : string) :
  preserves calls_extend
    (bind (strategy_frame k)
          (fun df => block_prediction_matrixes E (strategy_block k) df)).
Proof.
  pose proof (block_preserves (strategy_block k) (strategy_of k)
                (strategy_block_eq k) calls_extend) as Hb.
  unfold pair_matrix. preserves_go calls_extend_leaf.
Qed.

(** Lines 278-284. *)
Lemma baseline_matrixes_Return (E : Ext.env) (w w' : world) :
  baseline_matrixes E w = (Return tt, w') ->
  exists l blk r d ms,
    baseline_of (report w) = Return l /\ blocks w !! l = Some blk
    /\ Block.result blk = Some r /\ frames w !! r = Some d /\ matrixes_of E d ms
    /\ blocks w' = <[l := set_prediction_matrixes ms blk]> (blocks w)
    /\ frames w' = frames w /\ report w' = report w.
Proof.
  unfold baseline_matrixes. intros H.
  apply bind_Return in H as (l & w1 & Hl & H).
  rewrite baseline_block_eq in Hl. injection Hl as Hl <-.
  apply bind_Return in H as (blk & w1 & Hb & H). apply load_block_Return in Hb as [Hb ->].
  apply bind_Return in H as (r & w1 & Hr & H). apply getitem_Return in Hr as [Hr ->].
  apply (block_prediction_matrixes_Return E _ baseline_of) in H
    as (l' & d & blk' & ms & Hl' & Hd & Hb' & Hms & Hbl & Hfr & Hrep);
    [|apply baseline_block_eq].
  assert (l' = l) by congruence. subst l'.
  assert (blk' = blk) by congruence. subst blk'.
  exists l, blk, r, d, ms. repeat split; assumption.
Qed.

(** Lines 295-300 (and 302-307): the split is taken out of the block, the
    curve is stored in it, and the matrixes stay. *)
Lemma block_precision_recall_Return (E : Ext.env) (block : M loc)
    (block_of : Report.t -> outcome loc) (w w' : world) :
  (forall w, block w = (block_of (report w), w)) ->
  block_precision_recall E block w = (Return tt, w') ->
  exists l blk s img,
    block_of (report w) = Return l /\ blocks w !! l = Some blk
    /\ Block.split blk = Some s
    /\ blocks w' = <[l := set_precision_recall_curve img (del_split blk)]> (blocks w)
    /\ frames w' = frames w /\ report w' = report w.
Proof.
  intros block_eq. unfold block_precision_recall, pop_split. intros H.
  apply bind_Return in H as (s & w1 & Hpop & H).
  apply bind_Return in Hpop as (l & w2 & Hl & Hpop).
  rewrite block_eq in Hl. injection Hl as Hl <-.
  apply bind_Return in Hpop as (blk & w2 & Hb & Hpop).
  apply load_block_Return in Hb as [Hb ->].
  apply bind_Return in Hpop as (s' & w2 & Hs & Hpop).
  apply getitem_Return in Hs as [Hs ->].
  apply bind_Return in Hpop as ([] & w2 & Hst & Hpop).
  apply store_block_Return in Hst as ->. apply ret_Return in Hpop as [-> ->].
  apply bind_Return in H as (img & w1 & Himg & H).
  pose proof (precision_recall_curve_same_store E s'
                (with_blocks (<[l:=del_split blk]> (blocks w)) w)) as Hsame.
  rewrite Himg in Hsame. destruct Hsame as (Hrep & Hbl & Hfr). simpl in *.
  apply bind_Return in H as (l' & w2 & Hl' & H).
  rewrite block_eq in Hl'. injection Hl' as Hl' <-.
  apply bind_Return in H as (blk' & w2 & Hb' & H).
  apply load_block_Return in Hb' as [Hb' ->].
  apply bind_Return in H as ([] & w2 & Hst & H).
  apply store_block_Return in Hst as ->.
  unfold plt_close in H. injection H as <-. simpl.
  rewrite Hrep in Hl'. assert (l' = l) by congruence. subst l'.
  rewrite Hbl, list_lookup_insert_eq in Hb' by (now apply lookup_lt_Some in Hb).
  injection Hb' as <-.
  exists l, blk, s', img. repeat split; try assumption.
  rewrite Hbl, list_insert_insert_eq. reflexivity.
Qed.

(** ** What the passes bring about *)

Lemma set_prediction_matrixes_evolves (ms : list matrix) (blk : Block.t) :
  block_evolves blk (set_prediction_matrixes ms blk).
Proof. repeat split; simpl; eauto. Qed.

Lemma strategy_pass_evolves (E : Ext.env) (k : string) (w w' : world) :
  bind (strategy_frame k)
       (fun df => block_prediction_matrixes E (strategy_block k) df) w
  = (Return tt, w') ->
  evolves w w'.
Proof.
  intros H. apply strategy_pass_Return in H
    as (dfs & t & tf & l & blk & r & rf & d & ms & _ & _ & _ & _ & Hb & _ & _ & _ & _
        & Hbl & Hfr & Hrep & _).
  apply (evolves_insert w w' l blk (set_prediction_matrixes ms blk));
    try assumption.
  - rewrite Hfr. now apply prefix_app_r.
  - apply set_prediction_matrixes_evolves.
Qed.

(** A pass over a strategy whose block is at [l] leaves this block with the
    matrixes of the strategy's frame; a pass over another block leaves the
    block at [l] as it is. *)
Lemma strategy_pass_matrixes (E : Ext.env) (x : string) (w0 w w' : world)
    (l : loc) (blk : Block.t) (r t : loc) (dfs : Report.dataframes)
    (tf rf : frame) (Q : world -> Prop) :
  Q = (fun w => exists d, strategy_frame_of tf rf = Return d /\ has_matrixes E l d w
                          /\ MsnoMatrix d true ∈ calls w) ->
  blocks w0 !! l = Some blk -> Block.result blk = Some r ->
  frames w0 !! r = Some rf ->
  Report.dataframe (report w0) = Some dfs -> Report.test dfs = Some t ->
  frames w0 !! t = Some tf ->
  evolves w0 w ->
  bind (strategy_frame x)
       (fun df => block_prediction_matrixes E (strategy_block x) df) w
  = (Return tt, w') ->
  strategy_of x (report w0) = Return l \/ Q w ->
  Q w'.
Proof.
  intros -> Hb Hr Hrf Hdfs Ht Htf Hev H Hcase.
  pose proof (strategy_pass_calls_extend E x w) as Hgrow. rewrite H in Hgrow.
  simpl in Hgrow.
  apply strategy_pass_Return in H
    as (dfs' & t' & tf' & l' & blk' & r' & rf' & d & ms & Hdfs' & Ht' & Htf' & Hl'
        & Hb' & Hr' & Hrf' & Hd & Hms & Hbl & Hfr & Hrep & Hshown).
  pose proof Hev as (Hrep0 & _ & _).
  destruct (decide (l' = l)) as [->|Hne].
  - assert (dfs' = dfs) by congruence. subst dfs'.
    assert (t' = t) by congruence. subst t'.
    assert (tf' = tf).
    { apply (evolves_frame w0 w t tf Hev) in Htf. congruence. }
    subst tf'.
    assert (r' = r).
    { pose proof (evolves_result w0 w l blk blk' Hev Hb Hb'). congruence. }
    subst r'.
    assert (rf' = rf).
    { apply (evolves_frame w0 w r rf Hev) in Hrf.
      rewrite (lookup_app_l_Some _ _ _ _ Hrf) in Hrf'. congruence. }
    subst rf'.
    exists d. split; [assumption|]. split; [|assumption].
    exists (set_prediction_matrixes ms blk'), ms. repeat split; try assumption.
    rewrite Hbl. apply list_lookup_insert_eq. now apply lookup_lt_Some in Hb'.
  - destruct Hcase as [Hl|(d0 & Hd0 & (b & ms0 & Hb0 & Hpm0 & Hms0) & Hin0)].
    + rewrite <- Hrep0 in Hl. congruence.
    + exists d0. split; [assumption|]. split.
      * exists b, ms0. repeat split; try assumption.
        rewrite Hbl. now rewrite list_lookup_insert_ne.
      * now apply (calls_extend_elem w w').
Qed.

Section Curve_pass.

Variable E : Ext.env.
Variable block : M loc.
Variable block_of : Report.t -> outcome loc.
Hypothesis block_eq : forall w, block w = (block_of (report w), w).

Lemma curve_pass_evolves (w w' : world) :
  block_precision_recall E block w = (Return tt, w') -> evolves w w'.
Proof.
  intros H. apply (block_precision_recall_Return E block block_of) in H
    as (l & blk & s & img & _ & Hb & _ & Hbl & Hfr & Hrep); [|assumption].
  apply (evolves_insert w w' l blk (set_precision_recall_curve img (del_split blk)));
    try assumption.
  - rewrite Hfr. reflexivity.
  - repeat split; simpl; auto.
Qed.

Lemma curve_pass_popped (w w' : world) (l : loc) :
  block_precision_recall E block w = (Return tt, w') ->
  block_of (report w) = Return l -> popped l w'.
Proof.
  intros H Hl. apply (block_precision_recall_Return E block block_of) in H
    as (l' & blk & s & img & Hl' & Hb & _ & Hbl & _ & _); [|assumption].
  assert (l' = l) by congruence. subst l'.
  exists (set_precision_recall_curve img (del_split blk)). split; [|reflexivity].
  rewrite Hbl. apply list_lookup_insert_eq. now apply lookup_lt_Some in Hb.
Qed.

(** A block without its split stops the pass. *)
Lemma curve_pass_needs_split (w w' : world) (l : loc) :
  block_precision_recall E block w = (Return tt, w') ->
  block_of (report w) = Return l -> ~ popped l w.
Proof.
  intros H Hl (b & Hb & Hs). apply (block_precision_recall_Return E block block_of) in H
    as (l' & blk & s & img & Hl' & Hb' & Hs' & _); [|assumption].
  assert (l' = l) by congruence. subst l'. congruence.
Qed.

Lemma curve_pass_matrixes (w w' : world) (l : loc) (d : frame) :
  block_precision_recall E block w = (Return tt, w') ->
  has_matrixes E l d w -> has_matrixes E l d w'.
Proof.
  intros H (b & ms & Hb & Hpm & Hms).
  apply (block_precision_recall_Return E block block_of) in H
    as (l' & blk & s & img & _ & Hb' & _ & Hbl & _ & _); [|assumption].
  destruct (decide (l' = l)) as [->|Hne].
  - exists (set_precision_recall_curve img (del_split blk)), ms.
    repeat split; try assumption.
    + rewrite Hbl. apply list_lookup_insert_eq. now apply lookup_lt_Some in Hb'.
    + simpl. congruence.
  - exists b, ms. repeat split; try assumption.
    rewrite Hbl. now rewrite list_lookup_insert_ne.
Qed.

End Curve_pass.

Lemma dict_lookup_elem (k : string) (sc : list (string * loc)) (l : loc) :
  dict_lookup k sc = Some l -> k ∈ map fst sc.
Proof.
  induction sc as [|[k' v] sc IH]; simpl; [discriminate|].
  destruct (decide (k' = k)) as [->|Hne].
  - intros _. left.
  - rewrite bool_decide_eq_false_2 by assumption. intros H. right. auto.
Qed.

(** ** The pipeline, pass by pass *)

Lemma global_missing_matrix_Return (E : Ext.env) (w w' : world) :
  global_missing_matrix E w = (Return tt, w') ->
  exists dfs m d img,
    Report.dataframe (report w) = Some dfs /\ Report.modified dfs = Some m
    /\ frames w !! m = Some d /\ rendered E (MsnoMatrix d false) img
    /\ report w' = set_missing_matrix img (report w)
    /\ blocks w' = blocks w /\ frames w' = frames w
    /\ calls w' = calls w ++ [MsnoMatrix d false].
Proof.
  unfold global_missing_matrix. intros H.
  apply bind_Return in H as (m & w1 & Hm & H).
  apply report_dataframe_Return in Hm as (dfs & Hdfs & Hmod & ->).
  apply bind_Return in H as (d & w1 & Hd & H). apply load_frame_Return in Hd as [Hd ->].
  apply bind_Return in H as (img & w1 & Himg & H).
  apply missing_matrix_Return in Himg as (Hr & Hrep & Hbl & Hfr & Hcalls).
  injection H as <-. simpl.
  exists dfs, m, d, img. repeat split; try assumption. now rewrite Hrep.
Qed.

Lemma generate_report_visualizations_Return (E : Ext.env) (w w' : world) :
  generate_report_visualizations E w = (Return tt, w') ->
  exists w1 w2 w3 w4 w5,
    reset_style E w = (Return tt, w1)
    /\ global_missing_matrix E w1 = (Return tt, w2)
    /\ baseline_matrixes E w2 = (Return tt, w3)
    /\ strategy_matrixes E w3 = (Return tt, w4)
    /\ block_precision_recall E baseline_block w4 = (Return tt, w5)
    /\ strategy_curves E w5 = (Return tt, w').
Proof.
  unfold generate_report_visualizations. intros H.
  apply bind_Return in H as ([] & w1 & H1 & H).
  apply bind_Return in H as ([] & w2 & H2 & H).
  apply bind_Return in H as ([] & w3 & H3 & H).
  apply bind_Return in H as ([] & w4 & H4 & H).
  apply bind_Return in H as ([] & w5 & H5 & H).
  exists w1, w2, w3, w4, w5. auto 10.
Qed.

Lemma strategy_matrixes_Return (E : Ext.env) (w w' : world) :
  strategy_matrixes E w = (Return tt, w') ->
  exists sc,
    Report.strategy_classifications (report w) = Some sc
    /\ for_ (map fst sc)
         (fun strategy =>
            bind (strategy_frame strategy)
                 (fun df => block_prediction_matrixes E (strategy_block strategy) df))
         w = (Return tt, w').
Proof.
  unfold strategy_matrixes. intros H.
  apply bind_Return in H as (sc & w1 & Hsc & H).
  rewrite strategy_classifications_eq in Hsc.
  destruct (Report.strategy_classifications (report w)) as [sc'|]; [|discriminate].
  injection Hsc as -> <-. eauto.
Qed.

Lemma strategy_curves_Return (E : Ext.env) (w w' : world) :
  strategy_curves E w = (Return tt, w') ->
  exists sc,
    Report.strategy_classifications (report w) = Some sc
    /\ for_ (map fst sc)
         (fun strategy => block_precision_recall E (strategy_block strategy))
         w = (Return tt, w').
Proof.
  unfold strategy_curves. intros H.
  apply bind_Return in H as (sc & w1 & Hsc & H).
  rewrite strategy_classifications_eq in Hsc.
  destruct (Report.strategy_classifications (report w)) as [sc'|]; [|discriminate].
  injection Hsc as -> <-. eauto.
Qed.

Lemma strategy_matrixes_evolves (E : Ext.env) (w w' : world) :
  strategy_matrixes E w = (Return tt, w') -> evolves w w'.
Proof.
  intros H. apply strategy_matrixes_Return in H as (sc & _ & H).
  apply (for_invariant _ (evolves w) _ w w') in H; [assumption| |reflexivity].
  intros x w1 w2 _ Hev Hx. etrans; [exact Hev|].
  now apply (strategy_pass_evolves E x).
Qed.

(** After the loop of lines 285-293, the block of every strategy has the
    matrixes of the strategy's frame. *)
Lemma strategy_matrixes_strategy (E : Ext.env) (w w' : world) (sc : list (string * loc))
    (k : string) (l : loc) (blk : Block.t) (r t : loc) (dfs : Report.dataframes)
    (tf rf : frame) :
  strategy_matrixes E w = (Return tt, w') ->
  Report.strategy_classifications (report w) = Some sc ->
  dict_lookup k sc = Some l ->
  blocks w !! l = Some blk -> Block.result blk = Some r -> frames w !! r = Some rf ->
  Report.dataframe (report w) = Some dfs -> Report.test dfs = Some t ->
  frames w !! t = Some tf ->
  exists d, strategy_frame_of tf rf = Return d /\ has_matrixes E l d w'
            /\ MsnoMatrix d true ∈ calls w'.
Proof.
  intros H Hsc Hk Hb Hr Hrf Hdfs Ht Htf.
  apply strategy_matrixes_Return in H as (sc' & Hsc' & H).
  assert (sc' = sc) by congruence. subst sc'.
  set (Q := fun w => exists d, strategy_frame_of tf rf = Return d /\ has_matrixes E l d w
                               /\ MsnoMatrix d true ∈ calls w).
  apply (fun a b c d e => for_establishes _ (evolves w) Q _ k w w' a b c d e H).
  - intros x w1 w2 _ Hev Hx. etrans; [exact Hev|].
    now apply (strategy_pass_evolves E x).
  - intros w1 w2 Hev Hx.
    apply (strategy_pass_matrixes E k w w1 w2 l blk r t dfs tf rf Q eq_refl);
      try assumption.
    left. unfold strategy_of. now rewrite Hsc, Hk.
  - intros x w1 w2 _ Hev HQ Hx.
    apply (strategy_pass_matrixes E x w w1 w2 l blk r t dfs tf rf Q eq_refl);
      try assumption.
    now right.
  - now apply (dict_lookup_elem k sc l).
  - reflexivity.
Qed.

(** The loop leaves alone a block that no strategy names. *)
Lemma strategy_matrixes_other (E : Ext.env) (w w' : world) (sc : list (string * loc))
    (l : loc) (d : frame) :
  strategy_matrixes E w = (Return tt, w') ->
  Report.strategy_classifications (report w) = Some sc ->
  (forall x, x ∈ map fst sc -> strategy_of x (report w) <> Return l) ->
  has_matrixes E l d w -> has_matrixes E l d w'.
Proof.
  intros H Hsc Hother Hm.
  apply strategy_matrixes_Return in H as (sc' & Hsc' & H).
  assert (sc' = sc) by congruence. subst sc'.
  cut (evolves w w' /\ has_matrixes E l d w'); [tauto|].
  apply (for_invariant _ (fun w1 => evolves w w1 /\ has_matrixes E l d w1) _ w w') in H;
    [assumption| |split; [reflexivity|assumption]].
  intros x w1 w2 Hx [Hev (b & ms & Hb & Hpm & Hms)] Hpass.
  split; [etrans; [exact Hev|]; now apply (strategy_pass_evolves E x)|].
  apply strategy_pass_Return in Hpass
    as (_ & _ & _ & l' & blk' & _ & _ & _ & ms' & _ & _ & _ & Hl' & _ & _ & _ & _ & _
        & Hbl & _ & _ & _).
  destruct Hev as (Hrep & _ & _). rewrite Hrep in Hl'.
  assert (l' <> l) by (intros ->; now apply (Hother x)).
  exists b, ms. repeat split; try assumption.
  rewrite Hbl. now rewrite list_lookup_insert_ne.
Qed.

Lemma strategy_curves_evolves (E : Ext.env) (w w' : world) :
  strategy_curves E w = (Return tt, w') -> evolves w w'.
Proof.
  intros H. apply strategy_curves_Return in H as (sc & _ & H).
  apply (for_invariant _ (evolves w) _ w w') in H; [assumption| |reflexivity].
  intros x w1 w2 _ Hev Hx. etrans; [exact Hev|].
  apply (curve_pass_evolves E _ (strategy_of x) (strategy_block_eq x) _ _ Hx).
Qed.

Lemma strategy_curves_matrixes (E : Ext.env) (w w' : world) (l : loc) (d : frame) :
  strategy_curves E w = (Return tt, w') ->
  has_matrixes E l d w -> has_matrixes E l d w'.
Proof.
  intros H Hm. apply strategy_curves_Return in H as (sc & _ & H).
  apply (for_invariant _ (has_matrixes E l d) _ w w') in H; [assumption| |assumption].
  intros x w1 w2 _ Hm1 Hx.
  apply (curve_pass_matrixes E _ (strategy_of x) (strategy_block_eq x) _ _ _ _ Hx Hm1).
Qed.

(** After the loop of lines 301-307, the block of every strategy has lost
    its split. *)
Lemma strategy_curves_popped (E : Ext.env) (w w' : world) (sc : list (string * loc))
    (k : string) (l : loc) :
  strategy_curves E w = (Return tt, w') ->
  Report.strategy_classifications (report w) = Some sc ->
  dict_lookup k sc = Some l ->
  popped l w'.
Proof.
  intros H Hsc Hk. apply strategy_curves_Return in H as (sc' & Hsc' & H).
  assert (sc' = sc) by congruence. subst sc'.
  apply (fun a b c d e => for_establishes _ (evolves w) (popped l) _ k w w' a b c d e H).
  - intros x w1 w2 _ Hev Hx. etrans; [exact Hev|].
    apply (curve_pass_evolves E _ (strategy_of x) (strategy_block_eq x) _ _ Hx).
  - intros w1 w2 (Hrep & _ & _) Hx.
    apply (curve_pass_popped E _ (strategy_of k) (strategy_block_eq k) _ _ _ Hx).
    rewrite Hrep. unfold strategy_of. now rewrite Hsc, Hk.
  - intros x w1 w2 _ Hev Hp Hx. apply (evolves_popped w1 w2); [|assumption].
    apply (curve_pass_evolves E _ (strategy_of x) (strategy_block_eq x) _ _ Hx).
  - now apply (dict_lookup_elem k sc l).
  - reflexivity.
Qed.

(** The loop does not return when a strategy names a block that has lost its
    split already. *)
Lemma strategy_curves_distinct (E : Ext.env) (w w' : world) (sc : list (string * loc))
    (l : loc) (x : string) :
  strategy_curves E w = (Return tt, w') ->
  Report.strategy_classifications (report w) = Some sc ->
  popped l w -> x ∈ map fst sc ->
  strategy_of x (report w) <> Return l.
Proof.
  intros H Hsc Hp Hx Hl. apply strategy_curves_Return in H as (sc' & Hsc' & H).
  assert (sc' = sc) by congruence. subst sc'.
  apply (fun a b c d e =>
           for_establishes _ (fun w1 => evolves w w1 /\ popped l w1) (fun _ => False)
             _ x w w' a b c d e H).
  - intros y w1 w2 _ [Hev Hp1] Hy.
    assert (evolves w1 w2)
      by apply (curve_pass_evolves E _ (strategy_of y) (strategy_block_eq y) _ _ Hy).
    split; [etrans; eassumption|]. now apply (evolves_popped w1 w2).
  - intros w1 w2 [(Hrep & _ & _) Hp1] Hpass.
    apply (curve_pass_needs_split E _ (strategy_of x) (strategy_block_eq x) _ _ l Hpass);
      [|assumption].
    now rewrite Hrep.
  - intros; contradiction.
  - assumption.
  - split; [reflexivity|assumption].
Qed.

(** ** Reordering for an error pair *)

Lemma pair_mask_eq (d : frame) (a q : cell) :
  (2 <= ncols d)%nat ->
  pair_mask d [a; q] = Return (map (matches d [a; q]) (rows d)).
Proof.
  intros H. unfold pair_mask.
  rewrite (iloc_col_ok d 2) by lia. rewrite (iloc_col_ok d 1) by lia. simpl.
  f_equal. unfold mask_and, series_eq_scalar. rewrite !map_map.
  rewrite (zip_with_map_same andb). reflexivity.
Qed.

Lemma reordered_eq (d : frame) (a q : cell) :
  (2 <= ncols d)%nat ->
  reordered d [a; q]
  = Return {| columns := columns d;
              rows := List.filter (matches d [a; q]) (rows d)
                      ++ List.filter (fun r => negb (matches d [a; q] r)) (rows d) |}.
Proof.
  intros H. unfold reordered. rewrite (pair_mask_eq d a q H). simpl.
  unfold append, getitem_mask. simpl.
  rewrite select_map, select_map_not. reflexivity.
Qed.

Lemma List_filter_partition {A} (f : A -> bool) (l : list A) :
  Permutation (List.filter f l ++ List.filter (fun x => negb (f x)) l) l.
Proof.
  induction l as [|x l IH]; simpl; [constructor|].
  destruct (f x); simpl.
  - now constructor.
  - symmetry. apply Permutation_cons_app. now symmetry.
Qed.




Lemma block_named_eq (which : option string) (w : world) :
  block_named which w = (block_named_of which (report w), w).
Proof.
  destruct which; simpl; [apply strategy_block_eq|apply baseline_block_eq].
Qed.

Lemma missing_matrix_calls (E : Ext.env) (d : frame) (p : bool) (w : world) :
  calls (missing_matrix E d p w).2 = calls w ++ [MsnoMatrix d p].
Proof.
  unfold missing_matrix, plotting, savefig, bind, log_call, plt_figure,
    plt_close_figure, ret, raise.
  destruct p; simpl.
  - destruct (Ext.draws E (MsnoMatrix d true)); simpl; [|reflexivity].
    destruct (Ext.savefig E (MsnoMatrix d true)); reflexivity.
  - destruct (Ext.draws E (MsnoMatrix d false)); simpl; [|reflexivity].
    destruct (Ext.savefig E (MsnoMatrix d false)); reflexivity.
Qed.

(** Whatever its outcome, a pass for a pair hands the renderer the
    reordered frame, once, with the annotation. *)
Lemma pair_matrix_calls (E : Ext.env) (which : option string) (dfl : loc)
    (pair : list cell) (d top : frame) (w : world) :
  frames w !! dfl = Some d -> reordered d pair = Return top ->
  calls (pair_matrix E (block_named which) dfl pair w).2
  = calls w ++ [MsnoMatrix top true].
Proof.
  intros Hd Htop. unfold pair_matrix.
  unfold bind at 1. unfold load_frame at 1. rewrite Hd.
  unfold bind at 1. unfold lift at 1. rewrite Htop.
  unfold bind at 1.
  pose proof (missing_matrix_calls E top true w) as Hc.
  destruct (missing_matrix E top true w) as [[img|e] w1]; simpl in Hc; [|exact Hc].
  rewrite <- Hc. unfold bind. rewrite block_named_eq.
  destruct (block_named_of which (report w1)) as [l|e]; [|reflexivity].
  unfold load_block. destruct (blocks w1 !! l) as [blk|]; [|reflexivity].
  destruct (Block.prediction_matrixes blk); reflexivity.
Qed.




(** ** Frames and the call log along the pipeline *)

Lemma block_named_preserves (R : relation world) `{!PreOrder R} (which : option string) :
  preserves R (block_named which).
Proof. intros w. rewrite block_named_eq. reflexivity. Qed.

Lemma block_prediction_matrixes_same_frames (E : Ext.env) (which : option string)
    (dfl : loc) :
  preserves same_frames (block_prediction_matrixes E (block_named which) dfl).
Proof.
  pose proof (block_named_preserves same_frames which).
  preserves_go same_frames_leaf.
Qed.

Lemma prefix_insert_last {A} (l : list A) (x y : A) :
  l `prefix_of` <[length l := y]> (l ++ [x]).
Proof.
  replace (length l) with (length l + 0)%nat by lia.
  rewrite insert_app_r. simpl. now apply prefix_app_r.
Qed.

(** Lines 286-287 write to the copy they have just made, and to no other
    frame. *)
Lemma strategy_frame_frames_kept (k : string) : preserves frames_kept (strategy_frame k).
Proof.
  intros w. unfold frames_kept, strategy_frame, report_dataframe, strategy_block,
    strategy_classifications, bind, get_report, getitem, ret, raise, load_frame,
    alloc_frame, lift, store_frame, load_block.
  simpl.
  repeat (case_match; simplify_eq/=);
    first [reflexivity | apply prefix_app_r; reflexivity | apply prefix_insert_last].
Qed.

#[local] Hint Resolve strategy_frame_frames_kept : preserves_db.

Lemma generate_report_visualizations_frames_kept (E : Ext.env) :
  preserves frames_kept (generate_report_visualizations E).
Proof. preserves_go frames_kept_leaf. Qed.

(** C9. Extracting the error pairs of a frame and building its matrixes,
    the one of the frame as it is and the one of every pair (lines 279-284
    and 288-293), leave every frame as it was, the frame they work on among
    them, whatever the outcome; and the whole pipeline only adds frames, the
    copies it makes for the strategies: every frame it was given is
    unchanged at the end. *)
Theorem matrixes_leave_frames (E : Ext.env) (which : option string) (dfl : loc)
    (w : world) :
  frames (block_prediction_matrixes E (block_named which) dfl w).2 = frames w
  /\ (forall l f, frames w !! l = Some f ->
        frames (block_prediction_matrixes E (block_named which) dfl w).2 !! l = Some f)
  /\ (forall l f, frames w !! l = Some f ->
        frames (generate_report_visualizations E w).2 !! l = Some f).
Proof.
  pose proof (block_prediction_matrixes_same_frames E which dfl w) as H.
  unfold same_frames in H. split; [exact H|]. split.
  - intros l f Hl. now rewrite H.
  - intros l f Hl.
    destruct (generate_report_visualizations_frames_kept E w) as [ext ->].
    now apply lookup_app_l_Some.
Qed.

(** The passes after line 275 ask for annotated renders only. *)
Lemma block_prediction_matrixes_calls_extend (E : Ext.env) (which : option string)
    (dfl : loc) :
  preserves calls_extend (block_prediction_matrixes E (block_named which) dfl).
Proof.
  pose proof (block_named_preserves calls_extend which).
  preserves_go calls_extend_leaf.
Qed.

Lemma strategy_frame_same_calls (k : string) : preserves same_calls (strategy_frame k).
Proof. preserves_go same_calls_leaf. Qed.

Lemma reset_style_same_calls (E : Ext.env) : preserves same_calls (reset_style E).
Proof. preserves_go same_calls_leaf. Qed.

Lemma strategy_frame_calls_extend (k : string) : preserves calls_extend (strategy_frame k).
Proof. preserves_go calls_extend_leaf. Qed.

Lemma block_precision_recall_calls_extend (E : Ext.env) (which : option string) :
  preserves calls_extend (block_precision_recall E (block_named which)).
Proof.
  pose proof (block_named_preserves calls_extend which).
  preserves_go calls_extend_leaf.
Qed.

Lemma baseline_matrixes_calls_extend (E : Ext.env) :
  preserves calls_extend (baseline_matrixes E).
Proof.
  unfold baseline_matrixes.
  pose proof (block_prediction_matrixes_calls_extend E None) as H. simpl in H.
  preserves_go calls_extend_leaf.
Qed.

Lemma strategy_matrixes_calls_extend (E : Ext.env) :
  preserves calls_extend (strategy_matrixes E).
Proof.
  unfold strategy_matrixes. apply preserves_bind; [typeclasses eauto| |intros sc].
  - preserves_go calls_extend_leaf.
  - apply preserves_for; [typeclasses eauto|intros k].
    apply preserves_bind; [typeclasses eauto| |intros df].
    + apply strategy_frame_calls_extend.
    + apply (block_prediction_matrixes_calls_extend E (Some k)).
Qed.

Lemma strategy_curves_calls_extend (E : Ext.env) :
  preserves calls_extend (strategy_curves E).
Proof.
  unfold strategy_curves. apply preserves_bind; [typeclasses eauto| |intros sc].
  - preserves_go calls_extend_leaf.
  - apply preserves_for; [typeclasses eauto|intros k].
    apply (block_precision_recall_calls_extend E (Some k)).
Qed.

(** ** The assembled report *)

(** A run of the pipeline that returns leaves the baseline block and every
    strategy block with the matrixes of its frame and without its split, and
    the report with the global matrix. *)
Lemma assembled (E : Ext.env) (w w' : world) :
  generate_report_visualizations E w = (Return tt, w') ->
  (forall l blk r d,
      Report.baseline (report w) = Some l -> blocks w !! l = Some blk ->
      Block.result blk = Some r -> frames w !! r = Some d ->
      has_matrixes E l d w' /\ popped l w')
  /\ (forall sc k l blk r rf dfs t tf,
      Report.strategy_classifications (report w) = Some sc ->
      dict_lookup k sc = Some l -> blocks w !! l = Some blk ->
      Block.result blk = Some r -> frames w !! r = Some rf ->
      Report.dataframe (report w) = Some dfs -> Report.test dfs = Some t ->
      frames w !! t = Some tf ->
      exists d, strategy_frame_of tf rf = Return d
                /\ has_matrixes E l d w' /\ popped l w'
                /\ MsnoMatrix d true ∈ calls w')
  /\ (exists dfs m d img,
      Report.dataframe (report w) = Some dfs /\ Report.modified dfs = Some m
      /\ frames w !! m = Some d /\ rendered E (MsnoMatrix d false) img
      /\ Report.missing_matrix (report w') = Some img).
Proof.
  intros H. apply generate_report_visualizations_Return in H
    as (w1 & w2 & w3 & w4 & w5 & H1 & H2 & H3 & H4 & H5 & H6).
  pose proof (reset_style_same_store E w) as S1. rewrite H1 in S1.
  destruct S1 as (Hrep1 & Hbl1 & Hfr1). simpl in *.
  apply global_missing_matrix_Return in H2
    as (dfs0 & m0 & dm & img0 & Hdfs0 & Hm0 & Hdm & Himg0 & Hrep2 & Hbl2 & Hfr2 & _).
  rewrite Hrep1 in Hdfs0, Hrep2. rewrite Hfr1 in Hdm, Hfr2. rewrite Hbl1 in Hbl2.
  pose proof H3 as H3'. apply baseline_matrixes_Return in H3'
    as (l0 & blk0 & r0 & d0 & ms0 & Hl0 & Hb0 & Hr0 & Hd0 & Hms0 & Hbl3 & Hfr3 & Hrep3).
  rewrite Hbl2 in Hb0, Hbl3. rewrite Hfr2 in Hd0, Hfr3.
  assert (Hev23 : evolves w2 w3).
  { apply (evolves_insert w2 w3 l0 blk0 (set_prediction_matrixes ms0 blk0));
      try congruence.
    - rewrite Hfr3, Hfr2. reflexivity.
    - apply set_prediction_matrixes_evolves. }
  pose proof (strategy_matrixes_evolves E w3 w4 H4) as Hev34.
  pose proof (curve_pass_evolves E _ baseline_of baseline_block_eq w4 w5 H5) as Hev45.
  pose proof (strategy_curves_evolves E w5 w' H6) as Hev56.
  pose proof Hev34 as (Hrep4 & _ & _). pose proof Hev45 as (Hrep5 & _ & _).
  pose proof Hev56 as (Hrep6 & _ & _).
  assert (Hbase : baseline_of (report w4) = Return l0) by congruence.
  pose proof (curve_pass_popped E _ baseline_of baseline_block_eq w4 w5 l0 H5 Hbase)
    as Hpop0.
  split; [|split].
  - intros l blk r d Hl Hb Hr Hd.
    assert (l0 = l).
    { rewrite Hrep2 in Hl0. unfold baseline_of in Hl0. simpl in Hl0.
      rewrite Hl in Hl0. congruence. }
    subst l0.
    assert (blk0 = blk) by congruence. subst blk0.
    assert (r0 = r) by congruence. subst r0.
    assert (d0 = d) by congruence. subst d0.
    split; [|now apply (evolves_popped w5 w')].
    apply (strategy_curves_matrixes E w5 w' l d H6).
    apply (curve_pass_matrixes E _ baseline_of baseline_block_eq w4 w5 l d H5).
    pose proof H4 as H4'. apply strategy_matrixes_Return in H4' as (sc & Hsc & _).
    apply (strategy_matrixes_other E w3 w4 sc l d H4 Hsc).
    + intros x Hx. replace (report w3) with (report w5) by congruence.
      apply (strategy_curves_distinct E w5 w' sc l x H6); try assumption. congruence.
    + exists (set_prediction_matrixes ms0 blk), ms0. repeat split; try assumption.
      rewrite Hbl3. apply list_lookup_insert_eq. now apply lookup_lt_Some in Hb.
  - intros sc k l blk r rf dfs t tf Hsc Hk Hb Hr Hrf Hdfs Ht Htf.
    assert (Hsc3 : Report.strategy_classifications (report w3) = Some sc).
    { rewrite Hrep3, Hrep2. simpl. exact Hsc. }
    assert (Hdfs3 : Report.dataframe (report w3) = Some dfs).
    { rewrite Hrep3, Hrep2. simpl. exact Hdfs. }
    destruct Hev23 as (_ & _ & Hblocks). rewrite Hbl2 in Hblocks.
    destruct (Hblocks l blk Hb) as (blk3 & Hb3 & Hres3 & _).
    destruct (strategy_matrixes_strategy E w3 w4 sc k l blk3 r t dfs tf rf H4)
      as (d & Hd & Hm & Hin); try congruence.
    exists d. split; [assumption|]. split; [|split].
    + apply (strategy_curves_matrixes E w5 w' l d H6).
      apply (curve_pass_matrixes E _ baseline_of baseline_block_eq w4 w5 l d H5 Hm).
    + apply (strategy_curves_popped E w5 w' sc k l H6); [congruence|assumption].
    + pose proof (block_precision_recall_calls_extend E None w4) as G5.
      simpl in G5. rewrite H5 in G5.
      pose proof (strategy_curves_calls_extend E w5) as G6. rewrite H6 in G6.
      apply (calls_extend_elem w5 w' _ G6), (calls_extend_elem w4 w5 _ G5), Hin.
  - exists dfs0, m0, dm, img0. repeat split; try assumption.
    rewrite Hrep6, Hrep5, Hrep4, Hrep3, Hrep2. reflexivity.
Qed.

Lemma has_matrixes_complete (E : Ext.env) (l : loc) (d : frame) (w : world) :
  has_matrixes E l d w -> popped l w ->
  exists b, blocks w !! l = Some b /\ block_complete E d b.
Proof.
  intros (b & ms & Hb & Hpm & m0 & rest & pairs & -> & [Hn Hr] & Hc & Hrest)
         (b' & Hb' & Hs).
  assert (b' = b) by congruence. subst b'.
  exists b. split; [assumption|]. split; [assumption|].
  exists (m0 :: rest), pairs, m0. repeat split; try assumption.
  simpl. f_equal. symmetry. now apply Forall2_length in Hrest.
Qed.

(** C1. After an assembly that returns, the baseline block and the block of
    every strategy has no [split] any more, and its [prediction_matrixes]
    has one entry more than there are error pairs in the frame the block was
    shown on; the entry at index 0 is called "Original Dataset" and is the
    render of that frame as it is.  The frame of the baseline is its
    result; the frame of a strategy is the test frame with the predictions
    of the strategy's result. *)
Theorem assembled_block_shape (E : Ext.env) (w w' : world)
    (Hrun : generate_report_visualizations E w = (Return tt, w')) :
  (forall l blk r d,
      Report.baseline (report w) = Some l -> blocks w !! l = Some blk ->
      Block.result blk = Some r -> frames w !! r = Some d ->
      exists b', blocks w' !! l = Some b' /\ block_complete E d b')
  /\ (forall sc k l blk r rf dfs t tf,
      Report.strategy_classifications (report w) = Some sc ->
      dict_lookup k sc = Some l -> blocks w !! l = Some blk ->
      Block.result blk = Some r -> frames w !! r = Some rf ->
      Report.dataframe (report w) = Some dfs -> Report.test dfs = Some t ->
      frames w !! t = Some tf ->
      exists d b', strategy_frame_of tf rf = Return d
                   /\ blocks w' !! l = Some b' /\ block_complete E d b').
Proof.
  destruct (assembled E w w' Hrun) as (Hbase & Hstrat & _). split.
  - intros l blk r d Hl Hb Hr Hd.
    destruct (Hbase l blk r d Hl Hb Hr Hd) as [Hm Hp].
    now apply has_matrixes_complete.
  - intros sc k l blk r rf dfs t tf Hsc Hk Hb Hr Hrf Hdfs Ht Htf.
    destruct (Hstrat sc k l blk r rf dfs t tf Hsc Hk Hb Hr Hrf Hdfs Ht Htf)
      as (d & Hd & Hm & Hp & _).
    exists d. destruct (has_matrixes_complete E l d w' Hm Hp) as (b' & ? & ?).
    exists b'. auto.
Qed.

Lemma assembled_block_shape_witness :
  (exists b', blocks Example.assembled_world !! 0%nat = Some b'
              /\ block_complete Example.env_ok Example.baseline_result b')
  /\ (exists d b', strategy_frame_of Example.test_frame Example.mean_result = Return d
                   /\ blocks Example.assembled_world !! 1%nat = Some b'
                   /\ block_complete Example.env_ok d b').
Proof.
  destruct (assembled_block_shape Example.env_ok Example.a_world Example.assembled_world)
    as [Hbase Hstrat].
  - vm_compute. reflexivity.
  - split.
    + apply (Hbase 0%nat (Block.Make (Some 2%nat) (Some Example.a_split) None None)
                   2%nat Example.baseline_result); reflexivity.
    + apply (Hstrat [("mean", 1%nat)] "mean" 1%nat
                    (Block.Make (Some 3%nat) (Some Example.a_split) None None)
                    3%nat Example.mean_result
                    (Report.Dataframes (Some 0%nat) (Some 1%nat)) 1%nat
                    Example.test_frame); reflexivity.
Defined.


Lemma matrixes_of_annotated (E : Ext.env) (d : frame) (ms : list matrix) :
  matrixes_of E d ms ->
  Forall (fun m => exists df, rendered E (MsnoMatrix df true) (image m)) ms.
Proof.
  intros (m0 & rest & pairs & -> & [_ Hr] & _ & Hrest). constructor; [eauto|].
  clear Hr. induction Hrest as [|p m ps ms [_ (top & _ & Hr)] _ IH]; constructor; eauto.
Qed.

(** C5, as the code has it.  After an assembly that returns, the matrixes
    of every strategy block are made from one frame: the copy of the
    report's test frame whose [pred] column is assigned from the block's
    result.  This frame, as it is, is handed to the renderer for the
    "Original Dataset" entry, the error pairs are extracted from it, and the
    entry of every pair is the render of this same frame reordered for the
    pair. *)
Theorem strategy_matrixes_from_test_frame (E : Ext.env) (w w' : world)
    (sc : list (string * loc)) (k : string) (l : loc) (blk : Block.t) (r t : loc)
    (rf tf : frame) (dfs : Report.dataframes)
    (Hrun : generate_report_visualizations E w = (Return tt, w'))
    (Hsc : Report.strategy_classifications (report w) = Some sc)
    (Hk : dict_lookup k sc = Some l) (Hb : blocks w !! l = Some blk)
    (Hr : Block.result blk = Some r) (Hrf : frames w !! r = Some rf)
    (Hdfs : Report.dataframe (report w) = Some dfs) (Ht : Report.test dfs = Some t)
    (Htf : frames w !! t = Some tf) :
  exists d,
    strategy_frame_of tf rf = Return d
    /\ MsnoMatrix d true ∈ calls w'
    /\ exists b m0 rest pairs,
         blocks w' !! l = Some b
         /\ Block.prediction_matrixes b = Some (m0 :: rest)
         /\ original_entry E d m0
         /\ combinations d = Return pairs
         /\ Forall2 (pair_entry E d) pairs rest.
Proof.
  destruct (assembled E w w' Hrun) as (_ & Hstrat & _).
  destruct (Hstrat sc k l blk r rf dfs t tf Hsc Hk Hb Hr Hrf Hdfs Ht Htf)
    as (d & Hd & (b & ms & Hb' & Hpm & m0 & rest & pairs & -> & H0 & Hc & Hrest) & _ & Hin).
  exists d. split; [assumption|]. split; [assumption|].
  exists b, m0, rest, pairs. auto.
Qed.

Lemma strategy_matrixes_from_test_frame_witness :
  exists d,
    strategy_frame_of Example.test_frame Example.mean_result = Return d
    /\ rows d = [Row 0 [NaN; Str "A"; Str "A"]; Row 1 [Int 30; Str "B"; Str "B"];
                 Row 2 [NaN; Str "A"; Str "A"]]
    /\ MsnoMatrix d true ∈ calls Example.assembled_world.
Proof.
  destruct (strategy_matrixes_from_test_frame Example.env_ok Example.a_world
              Example.assembled_world [("mean", 1%nat)] "mean" 1%nat
              (Block.Make (Some 3%nat) (Some Example.a_split) None None) 3%nat 1%nat
              Example.mean_result Example.test_frame
              (Report.Dataframes (Some 0%nat) (Some 1%nat)))
    as (d & Hd & Hin & _); [vm_compute; reflexivity | reflexivity .. |].
  exists d. split; [exact Hd|]. split; [|exact Hin].
  vm_compute in Hd. injection Hd as <-. reflexivity.
Defined.

(** The matrixes of the strategy of the example are not made from the
    result of its block: the renderer is never handed that frame. *)
Lemma strategy_not_shown_on_result :
  generate_report_visualizations Example.env_ok Example.a_world
  = (Return tt, Example.assembled_world)
  /\ ~ strategies_shown_on_result Example.env_ok Example.a_world Example.assembled_world.
Proof.
  split; [vm_compute; reflexivity|].
  intros H.
  destruct (H [("mean", 1%nat)] "mean" 1%nat
              (Block.Make (Some 3%nat) (Some Example.a_split) None None) 3%nat
              Example.mean_result eq_refl eq_refl eq_refl eq_refl eq_refl) as [Hin _].
  apply (bool_decide_pack _) in Hin. vm_compute in Hin. exact Hin.
Qed.

(** C10. After an assembly that returns, [report.missing_matrix] is the
    render of [report.dataframe.modified] asked for by the plain call, without
    the prediction annotation, and this is the only render without it: every
    other renderer call of the run is annotated.  Every entry of the
    [prediction_matrixes] of the baseline block and of every strategy block
    is the render of a frame asked for with the annotation. *)
Theorem global_matrix_plain_block_matrixes_annotated (E : Ext.env) (w w' : world)
    (Hrun : generate_report_visualizations E w = (Return tt, w')) :
  (exists dfs m d img ext,
      Report.dataframe (report w) = Some dfs /\ Report.modified dfs = Some m
      /\ frames w !! m = Some d
      /\ Report.missing_matrix (report w') = Some img
      /\ rendered E (MsnoMatrix d false) img
      /\ calls w' = calls w ++ MsnoMatrix d false :: ext
      /\ Forall annotated ext)
  /\ (forall l blk r d,
      Report.baseline (report w) = Some l -> blocks w !! l = Some blk ->
      Block.result blk = Some r -> frames w !! r = Some d ->
      exists b ms, blocks w' !! l = Some b /\ Block.prediction_matrixes b = Some ms
        /\ Forall (fun m => exists df, rendered E (MsnoMatrix df true) (image m)) ms)
  /\ (forall sc k l blk r rf dfs t tf,
      Report.strategy_classifications (report w) = Some sc ->
      dict_lookup k sc = Some l -> blocks w !! l = Some blk ->
      Block.result blk = Some r -> frames w !! r = Some rf ->
      Report.dataframe (report w) = Some dfs -> Report.test dfs = Some t ->
      frames w !! t = Some tf ->
      exists b ms, blocks w' !! l = Some b /\ Block.prediction_matrixes b = Some ms
        /\ Forall (fun m => exists df, rendered E (MsnoMatrix df true) (image m)) ms).
Proof.
  destruct (assembled E w w' Hrun)
    as (Hbase & Hstrat & dfs & m & d & img & Hdfs & Hm & Hd & Hr & Hmm).
  split; [|split].
  - apply generate_report_visualizations_Return in Hrun
      as (w1 & w2 & w3 & w4 & w5 & H1 & H2 & H3 & H4 & H5 & H6).
    pose proof (reset_style_same_calls E w) as C1. rewrite H1 in C1.
    pose proof (reset_style_same_store E w) as S1. rewrite H1 in S1.
    destruct S1 as (Hrep1 & _ & Hfr1). unfold same_calls in C1. simpl in *.
    apply global_missing_matrix_Return in H2
      as (dfs' & m' & d' & _ & Hdfs' & Hm' & Hd' & _ & _ & _ & _ & C2).
    rewrite Hrep1 in Hdfs'. rewrite Hfr1 in Hd'.
    assert (d' = d) by congruence. subst d'.
    pose proof (baseline_matrixes_calls_extend E w2) as C3. rewrite H3 in C3.
    pose proof (strategy_matrixes_calls_extend E w3) as C4. rewrite H4 in C4.
    pose proof (block_precision_recall_calls_extend E None w4) as C5.
    simpl in C5. rewrite H5 in C5.
    pose proof (strategy_curves_calls_extend E w5) as C6. rewrite H6 in C6.
    simpl in *.
    destruct (transitivity C3 (transitivity C4 (transitivity C5 C6)))
      as (ext & Hext & Hann).
    exists dfs, m, d, img, ext. repeat split; try assumption.
    rewrite Hext, C2, C1, <- app_assoc. reflexivity.
  - intros l blk r d0 Hl Hb Hr0 Hd0.
    destruct (Hbase l blk r d0 Hl Hb Hr0 Hd0) as [(b & ms & Hb' & Hpm & Hms) _].
    exists b, ms. repeat split; try assumption. now apply (matrixes_of_annotated E d0).
  - intros sc k l blk r rf dfs0 t tf Hsc Hk Hb Hr0 Hrf Hdfs0 Ht Htf.
    destruct (Hstrat sc k l blk r rf dfs0 t tf Hsc Hk Hb Hr0 Hrf Hdfs0 Ht Htf)
      as (d0 & _ & (b & ms & Hb' & Hpm & Hms) & _).
    exists b, ms. repeat split; try assumption. now apply (matrixes_of_annotated E d0).
Qed.

Lemma global_matrix_plain_block_matrixes_annotated_witness :
  exists img ext,
    Report.missing_matrix (report Example.assembled_world) = Some img
    /\ rendered Example.env_ok (MsnoMatrix Example.modified_frame false) img
    /\ calls Example.assembled_world
       = calls Example.a_world ++ MsnoMatrix Example.modified_frame false :: ext
    /\ Forall annotated ext.
Proof.
  destruct (global_matrix_plain_block_matrixes_annotated Example.env_ok
              Example.a_world Example.assembled_world)
    as [(dfs & m & d & img & ext & Hdfs & Hm & Hd & Himg & Hr & Hc & Ha) _].
  - vm_compute. reflexivity.
  - vm_compute in Hdfs. injection Hdfs as <-. vm_compute in Hm. injection Hm as <-.
    vm_compute in Hd. injection Hd as <-.
    exists img, ext. auto.
Defined.

(** ** A report without a split *)

Lemma generate_report_visualizations_phases (E : Ext.env) (w : world) :
  generate_report_visualizations E w
  = bind (matrixes_phase E)
         (fun _ => bind (block_precision_recall E baseline_block)
                        (fun _ => strategy_curves E)) w.
Proof.
  unfold generate_report_visualizations, matrixes_phase, bind.
  destruct (reset_style E w) as [[[]|?] w1]; [|reflexivity].
  destruct (global_missing_matrix E w1) as [[[]|?] w2]; [|reflexivity].
  destruct (baseline_matrixes E w2) as [[[]|?] w3]; [|reflexivity].
  destruct (strategy_matrixes E w3) as [[[]|?] w4]; reflexivity.
Qed.

Lemma baseline_matrixes_evolves (E : Ext.env) (w w' : world) :
  baseline_matrixes E w = (Return tt, w') -> evolves w w'.
Proof.
  intros H. apply baseline_matrixes_Return in H
    as (l & blk & r & d & ms & _ & Hb & _ & _ & _ & Hbl & Hfr & Hrep).
  apply (evolves_insert w w' l blk (set_prediction_matrixes ms blk)); try assumption.
  - rewrite Hfr. reflexivity.
  - apply set_prediction_matrixes_evolves.
Qed.

(** The pipeline up to the first [pop("split")], when it gets there: the
    global matrix is stored, a render was asked for, and a block without
    split is still without it. *)
Lemma matrixes_phase_Return (E : Ext.env) (w w4 : world) :
  matrixes_phase E w = (Return tt, w4) ->
  Report.baseline (report w4) = Report.baseline (report w)
  /\ Report.strategy_classifications (report w4)
     = Report.strategy_classifications (report w)
  /\ (forall l, popped l w -> popped l w4)
  /\ (exists img, Report.missing_matrix (report w4) = Some img)
  /\ (exists d ext, calls w4 = calls w ++ MsnoMatrix d false :: ext)
  /\ (forall l, Report.baseline (report w) = Some l ->
        exists b4 ms, blocks w4 !! l = Some b4
                      /\ Block.prediction_matrixes b4 = Some ms).
Proof.
  unfold matrixes_phase. intros H.
  apply bind_Return in H as ([] & w1 & H1 & H).
  apply bind_Return in H as ([] & w2 & H2 & H).
  apply bind_Return in H as ([] & w3 & H3 & H4).
  pose proof (reset_style_same_store E w) as S1. rewrite H1 in S1.
  destruct S1 as (Hrep1 & Hbl1 & Hfr1).
  pose proof (reset_style_same_calls E w) as C1. rewrite H1 in C1.
  unfold same_calls in C1. simpl in *.
  apply global_missing_matrix_Return in H2
    as (dfs & m & d & img & _ & _ & _ & _ & Hrep2 & Hbl2 & _ & C2).
  pose proof (baseline_matrixes_calls_extend E w2) as C3. rewrite H3 in C3.
  pose proof (strategy_matrixes_calls_extend E w3) as C4. rewrite H4 in C4.
  simpl in *. destruct (transitivity C3 C4) as (ext & Hext & _).
  pose proof (baseline_matrixes_evolves E w2 w3 H3) as Hev3.
  pose proof (strategy_matrixes_evolves E w3 w4 H4) as Hev4.
  pose proof Hev3 as (Hrep3 & _ & _). pose proof Hev4 as (Hrep4 & _ & _).
  assert (Hrep : report w4 = set_missing_matrix img (report w)) by congruence.
  rewrite Hrep. simpl. repeat split.
  - intros l (b & Hb & Hs).
    apply (evolves_popped w3 w4 l Hev4), (evolves_popped w2 w3 l Hev3).
    exists b. split; [congruence|assumption].
  - eauto.
  - exists d, ext. rewrite Hext, C2, C1, <- app_assoc. reflexivity.
  - intros l Hl. apply baseline_matrixes_Return in H3
      as (l0 & blk & r & d0 & ms & Hl0 & Hb & _ & _ & _ & Hbl3 & _ & _).
    assert (l0 = l).
    { rewrite Hrep2, Hrep1 in Hl0. unfold baseline_of in Hl0. simpl in Hl0.
      rewrite Hl in Hl0. congruence. }
    subst l0.
    apply (evolves_matrixes w3 w4 l (set_prediction_matrixes ms blk) Hev4).
    + rewrite Hbl3. apply list_lookup_insert_eq. now apply lookup_lt_Some in Hb.
    + simpl. eauto.
Qed.

Lemma block_precision_recall_no_split (E : Ext.env) (block : M loc)
    (block_of : Report.t -> outcome loc) (w : world) (l : loc) :
  (forall w, block w = (block_of (report w), w)) ->
  block_of (report w) = Return l -> popped l w ->
  block_precision_recall E block w = (Raise (KeyError "split"), w).
Proof.
  intros block_eq Hl (b & Hb & Hs).
  unfold block_precision_recall, pop_split, bind. rewrite block_eq, Hl.
  unfold load_block. rewrite Hb. unfold getitem. rewrite Hs. reflexivity.
Qed.

(** C4, as the code has it.  Assembling a report in which the baseline
    block or a strategy block has no [split] (an assembled report, for one)
    never returns: an exception reaches the caller.  The failure is not
    immediate.  When the baseline block is the one without split and the
    steps before line 295 go through, the exception is [KeyError('split')]
    and is raised after the global matrix has been stored in the report and
    the renders of the matrixes have been asked for: the report is left as
    these steps made it. *)
Theorem assemble_without_split (E : Ext.env) (w : world) (H : lacks_split w) :
  (exists e w', generate_report_visualizations E w = (Raise e, w'))
  /\ (forall l b w4,
        Report.baseline (report w) = Some l -> blocks w !! l = Some b ->
        Block.split b = None ->
        matrixes_phase E w = (Return tt, w4) ->
        generate_report_visualizations E w = (Raise (KeyError "split"), w4)
        /\ (exists img, Report.missing_matrix (report w4) = Some img)
        /\ (exists d ext, calls w4 = calls w ++ MsnoMatrix d false :: ext)
        /\ (exists b4 ms, blocks w4 !! l = Some b4
                          /\ Block.prediction_matrixes b4 = Some ms)).
Proof.
  split.
  - destruct (generate_report_visualizations E w) as [[[]|e] w'] eqn:Hrun; [|eauto].
    exfalso. rewrite generate_report_visualizations_phases in Hrun.
    apply bind_Return in Hrun as ([] & w4 & H4 & Hrun).
    apply bind_Return in Hrun as ([] & w5 & H5 & H6).
    apply matrixes_phase_Return in H4 as (Hbase & Hsc & Hpop & _ & _ & _).
    destruct H as [(l & b & Hl & Hb & Hs)|(sc & k & l & b & Hsc0 & Hk & Hb & Hs)].
    + apply (curve_pass_needs_split E _ baseline_of baseline_block_eq w4 w5 l H5).
      * unfold baseline_of. now rewrite Hbase, Hl.
      * apply Hpop. now exists b.
    + pose proof (curve_pass_evolves E _ baseline_of baseline_block_eq w4 w5 H5)
        as Hev. pose proof Hev as (Hrep5 & _ & _).
      apply (strategy_curves_distinct E w5 w' sc l k H6).
      * now rewrite Hrep5, Hsc.
      * apply (evolves_popped w4 w5 l Hev), Hpop. now exists b.
      * now apply (dict_lookup_elem k sc l).
      * unfold strategy_of. now rewrite Hrep5, Hsc, Hsc0, Hk.
  - intros l b w4 Hl Hb Hs H4.
    rewrite generate_report_visualizations_phases.
    rewrite (bind_step _ _ w w4 tt H4).
    apply matrixes_phase_Return in H4 as (Hbase & _ & Hpop & Himg & Hcalls & Hpm).
    split; [|split; [assumption|split; [assumption|now apply Hpm]]].
    apply bind_Raise.
    apply (block_precision_recall_no_split E _ baseline_of w4 l baseline_block_eq).
    + unfold baseline_of. now rewrite Hbase, Hl.
    + apply Hpop. now exists b.
Qed.

Lemma assemble_without_split_witness :
  exists w4,
    generate_report_visualizations Example.env_ok Example.assembled_world
    = (Raise (KeyError "split"), w4)
    /\ exists d ext, calls w4 = calls Example.assembled_world ++ MsnoMatrix d false :: ext.
Proof.
  assert (Hl : lacks_split Example.assembled_world).
  { left. eexists 0%nat, _. vm_compute. repeat split; reflexivity. }
  destruct (assemble_without_split Example.env_ok Example.assembled_world Hl)
    as [_ H2].
  destruct (H2 0%nat
              (Block.Make (Some 2%nat) None
                 (Block.prediction_matrixes
                    (default (Block.Make None None None None)
                             (blocks Example.assembled_world !! 0%nat)))
                 (Block.precision_recall_curve
                    (default (Block.Make None None None None)
                             (blocks Example.assembled_world !! 0%nat))))
              (matrixes_phase Example.env_ok Example.assembled_world).2)
    as (Hrun & _ & Hcalls & _).
  - vm_compute. reflexivity.
  - vm_compute. reflexivity.
  - vm_compute. reflexivity.
  - vm_compute. reflexivity.
  - eexists. split; [exact Hrun|exact Hcalls].
Defined.

(** A report whose baseline block has no split, and a report assembled
    before: assembling raises, but not at once.  In the first the report is
    left with the global matrix stored in it; in the second all the renders
    of the matrixes are asked for again. *)
Lemma assemble_fails_late :
  ~ fails_at_once Example.env_ok Example.world_without_split
  /\ ~ fails_at_once Example.env_ok Example.assembled_world.
Proof.
  split.
  - intros (e & w' & Hrun & Hrep & _).
    assert (Hw : (generate_report_visualizations Example.env_ok
                    Example.world_without_split).2 = w') by (rewrite Hrun; reflexivity).
    subst w'. clear Hrun. vm_compute in Hrep. discriminate Hrep.
  - intros (e & w' & Hrun & _ & _ & Hcalls).
    assert (Hw : (generate_report_visualizations Example.env_ok
                    Example.assembled_world).2 = w') by (rewrite Hrun; reflexivity).
    subst w'. clear Hrun. apply (f_equal length) in Hcalls.
    vm_compute in Hcalls. discriminate Hcalls.
Qed.

(** ** The figure of the precision-recall curve *)

#[global] Instance gca_only_preorder : PreOrder gca_only.
Proof.
  split.
  - intros w. now left.
  - intros w1 w2 w3 [H12|[H1 [n Hn]]] [H23|[H2 [m Hm]]]; unfold gca_only.
    + left. congruence.
    + right. split; [congruence|eauto].
    + right. split; [assumption|]. exists n. congruence.
    + congruence.
Qed.

Ltac gca_only_leaf :=
  solve [unfold gca_only; simpl;
         first [ left; reflexivity
               | right; split; [assumption|];
                 try match goal with H : figures _ = [] |- _ => rewrite H end;
                 eexists; reflexivity ]].

Lemma pop_split_gca_only (which : option string) :
  preserves gca_only (pop_split (block_named which)).
Proof.
  pose proof (block_named_preserves gca_only which).
  preserves_go gca_only_leaf.
Qed.

Lemma precision_recall_curve_gca_only (E : Ext.env) (s : train_test) :
  preserves gca_only (precision_recall_curve E s).
Proof. preserves_go gca_only_leaf. Qed.

(** C6, as the code has it.  When the curve of a block is computed and the
    pass returns (the split is there, and fitting, scoring and saving all go
    through), the figure the curve was drawn on is closed before the pass
    returns: the open figures are those that were open before, less the
    current one, which the visualizer drew on; no figure opened by the pass
    is left, and none is open after a pass that started with none. *)
Theorem curve_closes_its_figure (E : Ext.env) (which : option string) (w w' : world)
    (Hrun : block_precision_recall E (block_named which) w = (Return tt, w')) :
  figures w' = tail (figures w)
  /\ (forall f, f ∈ figures w' -> f ∈ figures w)
  /\ (figures w = [] -> figures w' = []).
Proof.
  assert (Htail : figures w' = tail (figures w)).
  { unfold block_precision_recall in Hrun.
    apply bind_Return in Hrun as (s & w1 & Hpop & Hrun).
    apply bind_Return in Hrun as (img & w2 & Hcurve & Hrun).
    apply bind_Return in Hrun as (l & w3 & Hl & Hrun).
    rewrite block_named_eq in Hl. injection Hl as _ <-.
    apply bind_Return in Hrun as (blk & w3 & Hb & Hrun).
    apply load_block_Return in Hb as [_ ->].
    apply bind_Return in Hrun as ([] & w3 & Hst & Hrun).
    apply store_block_Return in Hst as ->.
    unfold plt_close in Hrun. injection Hrun as <-. simpl.
    pose proof (pop_split_gca_only which w) as G1. rewrite Hpop in G1.
    pose proof (precision_recall_curve_gca_only E s w1) as G2. rewrite Hcurve in G2.
    simpl in *. destruct (transitivity G1 G2) as [->|[-> [n ->]]]; reflexivity. }
  split; [exact Htail|]. split.
  - intros f. rewrite Htail. destruct (figures w); [auto|]. intros Hf. now right.
  - intros H0. now rewrite Htail, H0.
Qed.

Lemma curve_closes_its_figure_witness :
  figures (block_precision_recall Example.env_ok (block_named None)
             Example.a_world).2 = [].
Proof.
  destruct (curve_closes_its_figure Example.env_ok None Example.a_world
              (block_precision_recall Example.env_ok (block_named None)
                 Example.a_world).2) as (_ & _ & H).
  - vm_compute. reflexivity.
  - apply H. reflexivity.
Defined.

(** When saving the curve raises, the figure it was drawn on stays open. *)
Lemma figure_left_when_poof_fails :
  (block_precision_recall Example.env_poof_fails (block_named None)
     Example.a_world).1 = Raise (External Poof)
  /\ ~ no_figure_left Example.env_poof_fails None Example.a_world.
Proof.
  split; [vm_compute; reflexivity|].
  intros H. specialize (H 0%nat).
  assert (Hf : figures (block_precision_recall Example.env_poof_fails
                          (block_named None) Example.a_world).2 = [0%nat])
    by (vm_compute; reflexivity).
  rewrite Hf in H. specialize (H ltac:(left)).
  change (figures Example.a_world) with (@nil nat) in H.
  now apply not_elem_of_nil in H.
Qed.

(** ** The exceptions that reach the caller *)

Lemma avoids_bind (e : exn) {A B} (m : M A) (k : A -> M B) :
  avoids e m -> (forall a, avoids e (k a)) -> avoids e (bind m k).
Proof.
  intros Hm Hk w. unfold bind. specialize (Hm w).
  destruct (m w) as [[a|e'] w1]; simpl in *; [apply Hk|].
  intros Heq. apply Hm. injection Heq as ->. reflexivity.
Qed.

Lemma avoids_for (e : exn) {A} (l : list A) (body : A -> M unit) :
  (forall x, avoids e (body x)) -> avoids e (for_ l body).
Proof.
  intros Hb. induction l as [|x l IH]; simpl.
  - intros w Heq. discriminate Heq.
  - apply avoids_bind; auto.
Qed.

(** What a bare [except: pass] guards never raises. *)
Lemma avoids_try_except_pass (e : exn) (m : M unit) : avoids e (try_except_pass m).
Proof.
  intros w. unfold try_except_pass.
  destruct (m w) as [[a|e'] w1]; intros Heq; discriminate Heq.
Qed.

Lemma avoids_lift (e : exn) {A} (o : outcome A) : o <> Raise e -> avoids e (lift o).
Proof. intros H w. exact H. Qed.

(** The pandas operations raise Python's own exceptions only. *)
Lemma combinations_not_external (d : frame) (s : site) :
  combinations d <> Raise (External s).
Proof.
  unfold combinations, iloc_col, bind_outcome. repeat case_match; intros Heq; congruence.
Qed.

Lemma reordered_not_external (d : frame) (pair : list cell) (s : site) :
  reordered d pair <> Raise (External s).
Proof.
  unfold reordered, pair_mask, iloc_col, bind_outcome.
  repeat case_match; intros Heq; congruence.
Qed.

Lemma getitem_col_not_external (d : frame) (c : string) (s : site) :
  getitem_col d c <> Raise (External s).
Proof. unfold getitem_col. case_match; intros Heq; congruence. Qed.

Lemma setitem_col_not_external (d : frame) (c : string) (v : series) (s : site) :
  setitem_col d c v <> Raise (External s).
Proof.
  unfold setitem_col, reindexed, bind_outcome.
  repeat case_match; intros Heq; congruence.
Qed.

Ltac avoids_go :=
  repeat lazymatch goal with
  | |- avoids _ (bind _ _) => apply avoids_bind; [|intros ?]
  | |- avoids _ (for_ _ _) => apply avoids_for; intros ?
  | |- avoids _ (try_except_pass _) => apply avoids_try_except_pass
  | |- avoids _ (lift (combinations _)) =>
      apply avoids_lift, combinations_not_external
  | |- avoids _ (lift (reordered _ _)) =>
      apply avoids_lift, reordered_not_external
  | |- avoids _ (lift (getitem_col _ _)) =>
      apply avoids_lift, getitem_col_not_external
  | |- avoids _ (lift (setitem_col _ _ _)) =>
      apply avoids_lift, setitem_col_not_external
  | |- avoids _ (if true then _ else _) => cbv iota
  | |- avoids _ (if false then _ else _) => cbv iota
  | |- avoids _ (if ?c then _ else _) => destruct c
  | |- avoids _ (match ?o with _ => _ end) => destruct o
  | |- avoids _ ?m =>
      first [ solve [ intros ?w;
                      cbv [ret raise getitem get_report load_block store_block
                           load_frame store_frame alloc_frame load_visualizer
                           store_visualizer alloc_visualizer plt_figure plt_gca
                           plt_close_figure plt_close log_call NoObject];
                      repeat case_match; simpl; intros Heq; discriminate Heq ]
            | let h := head_of m in unfold h ]
  end.

Lemma generate_report_visualizations_avoids (E : Ext.env) :
  avoids (External StyleDefault) (generate_report_visualizations E).
Proof. avoids_go. Qed.

(** C7. When the style reset of line 270 raises, the guard around it
    swallows the exception and leaves the world as it was; the pipeline goes
    on with the package style and the steps after it, and its outcome is
    theirs.  Whatever the external calls do, the exception of the reset
    never reaches the caller. *)
Theorem style_reset_failure_swallowed (E : Ext.env) (w : world)
    (Hfail : Ext.style_use E "default" = false) :
  try_except_pass (style_use E StyleDefault "default") w = (Return tt, w)
  /\ generate_report_visualizations E w = after_reset E w
  /\ (generate_report_visualizations E w).1 <> Raise (External StyleDefault).
Proof.
  assert (Htry : try_except_pass (style_use E StyleDefault "default") w = (Return tt, w)).
  { unfold try_except_pass, style_use. rewrite Hfail. reflexivity. }
  split; [exact Htry|]. split.
  - unfold generate_report_visualizations, reset_style, after_reset.
    unfold bind at 1 2. rewrite Htry. reflexivity.
  - apply generate_report_visualizations_avoids.
Qed.

Lemma style_reset_failure_swallowed_witness :
  generate_report_visualizations Example.env_no_default_style Example.a_world
  = after_reset Example.env_no_default_style Example.a_world
  /\ (generate_report_visualizations Example.env_no_default_style Example.a_world).1
     = Return tt.
Proof.
  destruct (style_reset_failure_swallowed Example.env_no_default_style Example.a_world)
    as (_ & H & _).
  - reflexivity.
  - split; [exact H|]. vm_compute. reflexivity.
Defined.

(** ** The wire format of the images *)

Section Base64.

Local Open Scope Z_scope.

Lemma lor_disjoint (x lo k : Z) :
  0 <= k -> x mod 2 ^ k = 0 -> 0 <= lo < 2 ^ k -> Z.lor x lo = x + lo.
Proof.
  intros Hk Hx Hlo. symmetry. apply Z.add_nocarry_lor.
  apply Z.bits_inj'. intros i Hi. rewrite Z.land_spec, Z.bits_0.
  destruct (Z.lt_ge_cases i k) as [Hlt|Hge].
  - rewrite <- (Z.mod_pow2_bits_low x k i) by lia. rewrite Hx, Z.bits_0. reflexivity.
  - rewrite <- (Z.mod_small lo (2 ^ k)) by lia.
    rewrite Z.mod_pow2_bits_high by lia. apply andb_false_r.
Qed.

Lemma byteZ_range (b : byte) : 0 <= byteZ b < 256.
Proof.
  unfold byteZ. pose proof (Byte.to_N_bounded b). lia.
Qed.

Lemma byte_of_Z_byteZ (b : byte) (n : Z) :
  Z.land n 255 = byteZ b -> byte_of_Z n = b.
Proof.
  intros H. unfold byte_of_Z. rewrite H. unfold byteZ.
  rewrite N2Z.id, Byte.of_to_N. reflexivity.
Qed.

Lemma group3 (A B C : Z) :
  0 <= A < 256 -> 0 <= B < 256 -> 0 <= C < 256 ->
  Z.lor (Z.lor (Z.shiftl A 16) (Z.shiftl B 8)) C = A * 65536 + B * 256 + C.
Proof.
  intros HA HB HC. rewrite !Z.shiftl_mul_pow2 by lia.
  rewrite (lor_disjoint (A * 2 ^ 16) (B * 2 ^ 8) 16); [|lia| |lia].
  2:{ apply Z.mod_divide; [lia|]. exists A. reflexivity. }
  rewrite (lor_disjoint _ C 8); [|lia| |lia].
  2:{ change (2 ^ 16) with (256 * 2 ^ 8). 
      replace (A * (256 * 2 ^ 8) + B * 2 ^ 8) with ((A * 256 + B) * 2 ^ 8) by lia.
      apply Z.mod_mul. lia. }
  lia.
Qed.

Lemma b64_digit_char (i : nat) :
  (i < 64)%nat ->
  b64_digit (b64_char (Z.of_nat i)) = Some (Z.of_nat i)
  /\ b64_char (Z.of_nat i) <> b64_pad.
Proof.
  intros H. do 64 (destruct i as [|i]; [split; [reflexivity|discriminate]|]). lia.
Qed.

Lemma b64_digit_of_char (k : Z) :
  0 <= k < 64 -> b64_digit (b64_char k) = Some k.
Proof.
  intros H. rewrite <- (Z2Nat.id k) by lia. apply b64_digit_char. lia.
Qed.

Lemma b64_char_not_pad (k : Z) : 0 <= k < 64 -> b64_char k <> b64_pad.
Proof.
  intros H. rewrite <- (Z2Nat.id k) by lia. apply b64_digit_char. lia.
Qed.

Ltac to_arith :=
  rewrite ?Z.shiftr_div_pow2, ?Z.shiftl_mul_pow2 by lia;
  change 63 with (Z.ones 6); change 255 with (Z.ones 8);
  rewrite ?Z.land_ones by lia;
  change (2 ^ 18) with 262144; change (2 ^ 16) with 65536;
  change (2 ^ 12) with 4096; change (2 ^ 8) with 256; change (2 ^ 6) with 64.

Lemma sextet_range (n k : Z) : 0 <= k -> 0 <= Z.land (Z.shiftr n k) 63 < 64.
Proof.
  intros Hk. change 63 with (Z.ones 6). rewrite Z.land_ones by lia.
  apply Z.mod_pos_bound. lia.
Qed.

Lemma top_sextet_range (n : Z) : 0 <= n < 2 ^ 24 -> 0 <= Z.shiftr n 18 < 64.
Proof.
  intros H. rewrite Z.shiftr_div_pow2 by lia. change (2 ^ 18) with 262144.
  change (2 ^ 24) with 16777216 in H. Z.div_mod_to_equations. lia.
Qed.

(** Putting the digits of a group back together. *)
Lemma regroup2 (n : Z) :
  0 <= n < 2 ^ 24 ->
  Z.lor (Z.shiftl (Z.shiftr n 18) 18) (Z.shiftl (Z.land (Z.shiftr n 12) 63) 12)
  = n / 4096 * 4096.
Proof.
  intros H. change (2 ^ 24) with 16777216 in H.
  rewrite (lor_disjoint _ _ 18); [| lia | |].
  - to_arith. Z.div_mod_to_equations. lia.
  - rewrite Z.shiftl_mul_pow2 by lia. apply Z.mod_mul. lia.
  - to_arith. Z.div_mod_to_equations. lia.
Qed.

Lemma regroup3 (n : Z) :
  0 <= n < 2 ^ 24 ->
  Z.lor (Z.lor (Z.shiftl (Z.shiftr n 18) 18) (Z.shiftl (Z.land (Z.shiftr n 12) 63) 12))
        (Z.shiftl (Z.land (Z.shiftr n 6) 63) 6)
  = n / 64 * 64.
Proof.
  intros H. rewrite regroup2 by assumption. change (2 ^ 24) with 16777216 in H.
  rewrite (lor_disjoint _ _ 12); [| lia | |].
  - to_arith. Z.div_mod_to_equations. lia.
  - change (2 ^ 12) with 4096. apply Z.mod_mul. lia.
  - to_arith. Z.div_mod_to_equations. lia.
Qed.

Lemma regroup4 (n : Z) :
  0 <= n < 2 ^ 24 ->
  Z.lor (Z.lor (Z.lor (Z.shiftl (Z.shiftr n 18) 18)
                      (Z.shiftl (Z.land (Z.shiftr n 12) 63) 12))
               (Z.shiftl (Z.land (Z.shiftr n 6) 63) 6))
        (Z.land n 63)
  = n.
Proof.
  intros H. rewrite regroup3 by assumption. change (2 ^ 24) with 16777216 in H.
  rewrite (lor_disjoint _ _ 6); [| lia | |].
  - to_arith. Z.div_mod_to_equations. lia.
  - change (2 ^ 6) with 64. apply Z.mod_mul. lia.
  - to_arith. Z.div_mod_to_equations. lia.
Qed.

Lemma list_ind3 {A} (P : list A -> Prop) :
  P [] -> (forall a, P [a]) -> (forall a b, P [a; b]) ->
  (forall a b c l, P l -> P (a :: b :: c :: l)) ->
  forall l, P l.
Proof.
  intros H0 H1 H2 H3. fix IH 1.
  intros [|a [|b [|c l]]]; [exact H0|apply H1|apply H2|apply H3, IH].
Qed.

Lemma b64decode_group (c0 c1 c2 c3 : byte) (rest : list byte) :
  b64decode (c0 :: c1 :: c2 :: c3 :: rest)
  = d0 ← b64_digit c0; d1 ← b64_digit c1;
    let hi := Z.lor (Z.shiftl d0 18) (Z.shiftl d1 12) in
    if bool_decide (c3 = b64_pad) then
      match rest with
      | [] =>
          if bool_decide (c2 = b64_pad) then Some [byte_of_Z (Z.shiftr hi 16)]
          else d2 ← b64_digit c2;
               let n := Z.lor hi (Z.shiftl d2 6) in
               Some [byte_of_Z (Z.shiftr n 16); byte_of_Z (Z.shiftr n 8)]
      | _ :: _ => None
      end
    else
      d2 ← b64_digit c2; d3 ← b64_digit c3;
      let n := Z.lor (Z.lor hi (Z.shiftl d2 6)) d3 in
      tl ← b64decode rest;
      Some (byte_of_Z (Z.shiftr n 16) :: byte_of_Z (Z.shiftr n 8)
            :: byte_of_Z n :: tl).
Proof. reflexivity. Qed.

Lemma group_range (A B C : Z) :
  0 <= A < 256 -> 0 <= B < 256 -> 0 <= C < 256 ->
  0 <= A * 65536 + B * 256 + C < 2 ^ 24.
Proof. intros. change (2 ^ 24) with 16777216. lia. Qed.

Lemma byte_of_group (n k : Z) (b : byte) :
  0 <= k -> (n / 2 ^ k) mod 256 = byteZ b -> byte_of_Z (Z.shiftr n k) = b.
Proof.
  intros Hk H. apply byte_of_Z_byteZ. rewrite Z.shiftr_div_pow2 by lia.
  change 255 with (Z.ones 8). rewrite Z.land_ones by lia. exact H.
Qed.

Lemma b64decode_b64encode (data : list byte) :
  b64decode (b64encode data) = Some data.
Proof.
  induction data as [|a|a b|a b c l IH] using list_ind3.
  - reflexivity.
  - pose proof (byteZ_range a) as Ha.
    cbn [b64encode]. rewrite b64decode_group.
    assert (Hn : Z.shiftl (byteZ a) 16 = byteZ a * 65536 + 0 * 256 + 0)
      by (rewrite Z.shiftl_mul_pow2 by lia; change (2 ^ 16) with 65536; lia).
    pose proof (group_range (byteZ a) 0 0 Ha ltac:(lia) ltac:(lia)) as Hr.
    rewrite <- Hn in Hr.
    rewrite (b64_digit_of_char _ (top_sextet_range _ Hr)).
    rewrite (b64_digit_of_char _ (sextet_range _ 12 ltac:(lia))).
    cbn [mbind option_bind].
    rewrite !bool_decide_eq_true_2 by reflexivity.
    rewrite (regroup2 _ Hr). f_equal. f_equal.
    apply byte_of_group; [lia|]. rewrite Hn. change (2 ^ 16) with 65536.
    Z.div_mod_to_equations. lia.
  - pose proof (byteZ_range a) as Ha. pose proof (byteZ_range b) as Hb.
    cbn [b64encode]. rewrite b64decode_group.
    assert (Hn : Z.lor (Z.shiftl (byteZ a) 16) (Z.shiftl (byteZ b) 8)
                 = byteZ a * 65536 + byteZ b * 256 + 0).
    { rewrite <- (group3 (byteZ a) (byteZ b) 0) by lia. now rewrite Z.lor_0_r. }
    pose proof (group_range (byteZ a) (byteZ b) 0 Ha Hb ltac:(lia)) as Hr.
    rewrite <- Hn in Hr.
    rewrite (b64_digit_of_char _ (top_sextet_range _ Hr)).
    rewrite (b64_digit_of_char _ (sextet_range _ 12 ltac:(lia))).
    cbn [mbind option_bind].
    rewrite (bool_decide_eq_true_2 (b64_pad = b64_pad)) by reflexivity.
    rewrite (bool_decide_eq_false_2 (b64_char _ = b64_pad))
      by (apply b64_char_not_pad, sextet_range; lia).
    rewrite (b64_digit_of_char _ (sextet_range _ 6 ltac:(lia))).
    cbn [mbind option_bind].
    rewrite (regroup3 _ Hr). rewrite Hn. f_equal. f_equal; [|f_equal].
    + apply byte_of_group; [lia|]. change (2 ^ 16) with 65536.
      Z.div_mod_to_equations. lia.
    + apply byte_of_group; [lia|]. change (2 ^ 8) with 256.
      Z.div_mod_to_equations. lia.
  - pose proof (byteZ_range a) as Ha. pose proof (byteZ_range b) as Hb.
    pose proof (byteZ_range c) as Hc.
    cbn [b64encode]. rewrite b64decode_group.
    pose proof (group3 (byteZ a) (byteZ b) (byteZ c) Ha Hb Hc) as Hn.
    pose proof (group_range (byteZ a) (byteZ b) (byteZ c) Ha Hb Hc) as Hr.
    rewrite <- Hn in Hr.
    rewrite (b64_digit_of_char _ (top_sextet_range _ Hr)).
    rewrite (b64_digit_of_char _ (sextet_range _ 12 ltac:(lia))).
    cbn [mbind option_bind].
    assert (H3 : 0 <= Z.land (Z.lor (Z.lor (Z.shiftl (byteZ a) 16)
                                           (Z.shiftl (byteZ b) 8)) (byteZ c)) 63 < 64).
    { rewrite <- (Z.shiftr_0_r (Z.lor _ _)). apply sextet_range. lia. }
    rewrite (bool_decide_eq_false_2 (b64_char _ = b64_pad))
      by (apply b64_char_not_pad, H3).
    rewrite (b64_digit_of_char _ (sextet_range _ 6 ltac:(lia))).
    rewrite (b64_digit_of_char _ H3).
    cbn [mbind option_bind]. rewrite IH. cbn [mbind option_bind].
    rewrite (regroup4 _ Hr). rewrite Hn. f_equal. f_equal; [|f_equal; [|f_equal]].
    + apply byte_of_group; [lia|]. change (2 ^ 16) with 65536.
      Z.div_mod_to_equations. lia.
    + apply byte_of_group; [lia|]. change (2 ^ 8) with 256.
      Z.div_mod_to_equations. lia.
    + apply byte_of_Z_byteZ. change 255 with (Z.ones 8). rewrite Z.land_ones by lia.
      change (2 ^ 8) with 256. Z.div_mod_to_equations. lia.
Qed.

Lemma unquote_quote_byte (b : byte) (t : string) :
  unquote (quote_byte b ++ t) = b :: unquote t.
Proof. destruct b; reflexivity. Qed.

Lemma unquote_quote (data : list byte) : unquote (quote data) = data.
Proof.
  induction data as [|b data IH]; simpl; [reflexivity|].
  now rewrite unquote_quote_byte, IH.
Qed.

Lemma string_forall_app (p : ascii -> bool) (s t : string) :
  string_forall p (s ++ t) = string_forall p s && string_forall p t.
Proof.
  induction s as [|c s IH]; simpl; [reflexivity|]. now rewrite IH, andb_assoc.
Qed.

Lemma b64_char_alphabet (n : Z) : b64_char n ∈ b64_alphabet ++ [b64_pad].
Proof.
  unfold b64_char. apply elem_of_app.
  destruct (nth_in_or_default (Z.to_nat n) b64_alphabet b64_pad) as [H| ->].
  - left. now apply list_elem_of_In.
  - right. left.
Qed.

Lemma b64encode_alphabet (data : list byte) :
  Forall (fun b => b ∈ b64_alphabet ++ [b64_pad]) (b64encode data).
Proof.
  assert (Hpad : b64_pad ∈ b64_alphabet ++ [b64_pad])
    by (apply elem_of_app; right; left).
  induction data as [|a|a b|a b c l IH] using list_ind3; cbn [b64encode];
    repeat (apply Forall_cons; split; [first [apply b64_char_alphabet|exact Hpad]|]);
    first [apply Forall_nil; exact I|exact IH].
Qed.

Lemma quote_byte_payload (b : byte) :
  b ∈ b64_alphabet ++ [b64_pad] -> string_forall payload_char (quote_byte b) = true.
Proof.
  intros H.
  assert (Hall : forallb (fun b => string_forall payload_char (quote_byte b))
                         (b64_alphabet ++ [b64_pad]) = true) by (vm_compute; reflexivity).
  rewrite forallb_forall in Hall. apply Hall. now apply list_elem_of_In.
Qed.

Lemma quote_payload (text : list byte) :
  Forall (fun b => b ∈ b64_alphabet ++ [b64_pad]) text ->
  string_forall payload_char (quote text) = true.
Proof.
  induction 1 as [|b text Hb _ IH]; simpl; [reflexivity|].
  now rewrite string_forall_app, (quote_byte_payload b Hb), IH.
Qed.

End Base64.

(** Every wrapper ends with the same encoding line. *)
Ltac wrapper_Return H :=
  repeat (apply bind_Return in H; destruct H as (? & ? & _ & H); cbv zeta in H);
  apply ret_Return in H; destruct H as [-> _]; eexists; reflexivity.

Lemma call_wrapper_Return (E : Ext.env) (c : wrapper_call) (w w' : world) (s : string) :
  call_wrapper E c w = (Return s, w') -> exists imgdata, s = result_string imgdata.
Proof.
  intros H. destruct c; simpl in H.
  - unfold histogram in H. wrapper_Return H.
  - unfold mini_histogram in H. wrapper_Return H.
  - unfold correlation_matrix in H. wrapper_Return H.
  - unfold missing_matrix in H. wrapper_Return H.
  - unfold missing_bar in H. wrapper_Return H.
  - unfold missing_heat in H. wrapper_Return H.
  - unfold missing_dendrogram in H. wrapper_Return H.
  - unfold yellowbrick_to_img in H. wrapper_Return H.
Qed.

(** C8. The string a wrapper returns (histogram, mini histogram, correlation
    matrix, the four missingness plots, the precision-recall curve) is
    [data:image/png;base64,] followed by the percent-encoded base64 text of
    the bytes the figure was saved as: the payload has letters, digits, [/]
    and [%] only, and unquoting and base64-decoding it gives back the bytes
    of the image, so the string holds the image itself. *)
Theorem wrappers_return_data_uri (E : Ext.env) (c : wrapper_call) (w w' : world)
    (s : string) (Hrun : call_wrapper E c w = (Return s, w')) :
  image_artifact s.
Proof.
  apply call_wrapper_Return in Hrun as [imgdata ->].
  exists imgdata, (quote (b64encode imgdata)). split; [reflexivity|].
  split; [reflexivity|]. split.
  - apply quote_payload, b64encode_alphabet.
  - rewrite unquote_quote. apply b64decode_b64encode.
Qed.

Lemma wrappers_return_data_uri_witness :
  image_artifact "data:image/png;base64,cCs%3D".
Proof.
  apply (wrappers_return_data_uri Example.env_ok
           (MissingMatrix Example.test_frame true) Example.a_world
           (missing_matrix Example.env_ok Example.test_frame true Example.a_world).2).
  vm_compute. reflexivity.
Defined.

(** * Further properties of the module *)

(** ** Extraction and reordering at the edges *)

Lemma first_occurrences_nil (l : list (list cell)) :
  first_occurrences l = [] <-> l = [].
Proof. destruct l; simpl; split; intros H; try reflexivity; discriminate. Qed.

Lemma combinations_nil_iff (df : frame) :
  (2 <= ncols df)%nat ->
  combinations df = Return []
  <-> forall r, r ∈ rows df -> cell_eq (actual df r) (predicted df r) = true.
Proof.
  intros H. rewrite (combinations_eq df H). split.
  - intros Heq r Hr. injection Heq as Heq.
    apply (proj1 (first_occurrences_nil _)) in Heq.
    destruct (cell_eq (actual df r) (predicted df r)) eqn:Hc; [reflexivity|].
    assert (Hin : labels df r ∈ mismatches df)
      by (apply mismatches_elem; exists r; auto).
    rewrite Heq in Hin. now apply not_elem_of_nil in Hin.
  - intros Hall. f_equal. apply first_occurrences_nil.
    destruct (mismatches df) as [|p l] eqn:Hm; [reflexivity|].
    assert (Hin : p ∈ mismatches df) by (rewrite Hm; left).
    apply mismatches_elem in Hin as (r & Hr & _ & Hne).
    rewrite (Hall r Hr) in Hne. discriminate.
Qed.

(** X1. No error pair is extracted exactly when every row is classified
    right, its predicted label [==] to its actual one; and a run of lines
    279-284 that returns, on a frame with exact labels, leaves the block
    with a single matrix exactly then, which is the entry "Original
    Dataset" of the frame. *)
Theorem single_matrix_iff_no_mistake (E : Ext.env) (which : option string)
    (dfl : loc) (d : frame) (w w' : world)
    (Hrun : block_prediction_matrixes E (block_named which) dfl w = (Return tt, w'))
    (Hd : frames w !! dfl = Some d) (Hexact : exact_labels d) :
  (combinations d = Return []
   <-> forall r, r ∈ rows d -> cell_eq (actual d r) (predicted d r) = true)
  /\ exists l b' ms,
       block_named_of which (report w) = Return l
       /\ blocks w' !! l = Some b'
       /\ Block.prediction_matrixes b' = Some ms
       /\ (length ms = 1%nat
           <-> forall r, r ∈ rows d -> cell_eq (actual d r) (predicted d r) = true)
       /\ ((forall r, r ∈ rows d -> cell_eq (actual d r) (predicted d r) = true) ->
           exists m0, ms = [m0] /\ original_entry E d m0).
Proof.
  apply (block_prediction_matrixes_Return E _ (block_named_of which)
           (block_named_eq which)) in Hrun
    as (l & d' & blk & ms & Hl & Hd' & Hb & Hms & Hbl & _ & _).
  assert (d' = d) by congruence. subst d'.
  destruct Hms as (m0 & rest & pairs & -> & Hm0 & Hpairs & Hrest).
  assert (Hcols : (2 <= ncols d)%nat).
  { destruct (decide (2 <= ncols d)%nat) as [|Hn]; [assumption|].
    rewrite combinations_fails in Hpairs by lia. discriminate. }
  pose proof (combinations_nil_iff d Hcols) as Hnil.
  split; [exact Hnil|].
  exists l, (set_prediction_matrixes (m0 :: rest) blk), (m0 :: rest).
  split; [exact Hl|]. split.
  { rewrite Hbl. apply list_lookup_insert_eq. now apply lookup_lt_Some in Hb. }
  split; [reflexivity|].
  assert (Hone : rest = [] <-> pairs = []).
  { apply Forall2_length in Hrest. split; intros ->.
    - now destruct pairs.
    - now destruct rest. }
  split.
  - rewrite <- Hnil, Hpairs. simpl. split.
    + intros Hlen. f_equal. apply Hone. destruct rest; [reflexivity|discriminate].
    + intros Heq. injection Heq as Heq. apply Hone in Heq. now rewrite Heq.
  - intros Hall. exists m0. split; [|exact Hm0]. f_equal. apply Hone.
    apply Hnil in Hall. congruence.
Qed.

Lemma single_matrix_iff_no_mistake_witness :
  combinations Example.mean_result = Return []
  /\ exists l b' m0,
       blocks (block_prediction_matrixes Example.env_ok (block_named (Some "mean"))
                 3%nat Example.a_world).2 !! l = Some b'
       /\ Block.prediction_matrixes b' = Some [m0]
       /\ original_entry Example.env_ok Example.mean_result m0.
Proof.
  destruct (single_matrix_iff_no_mistake Example.env_ok (Some "mean") 3%nat
              Example.mean_result Example.a_world
              (block_prediction_matrixes Example.env_ok (block_named (Some "mean"))
                 3%nat Example.a_world).2)
    as (Hnil & l & b' & ms & _ & Hb' & Hms & _ & Hsingle).
  - vm_compute. reflexivity.
  - reflexivity.
  - left. reflexivity.
  - assert (Hall : forall r, r ∈ rows Example.mean_result ->
              cell_eq (actual Example.mean_result r)
                      (predicted Example.mean_result r) = true).
    { intros r Hr. apply list_elem_of_In in Hr. simpl in Hr.
      destruct Hr as [<-|[<-|[<-|[]]]]; reflexivity. }
    split; [now apply Hnil|].
    destruct (Hsingle Hall) as (m0 & -> & Hm0). exists l, b', m0. auto.
Defined.

(** X2. A row with a missing actual or predicted label always counts as a
    mistake: its pair is extracted, even when both labels are missing.  For
    such a pair no row matches, and the frame reordered for it is the frame
    itself, rows in their order. *)
Theorem missing_label_is_error_pair (df : frame) (r : row)
    (H : (2 <= ncols df)%nat) (Hr : r ∈ rows df)
    (Hnan : actual df r = NaN \/ predicted df r = NaN) :
  (exists pairs, combinations df = Return pairs /\ labels df r ∈ pairs)
  /\ reordered df (labels df r) = Return df.
Proof.
  split.
  - exists (first_occurrences (mismatches df)). split; [now apply combinations_eq|].
    apply first_occurrences_elem, mismatches_elem. exists r.
    repeat split; [assumption|].
    destruct Hnan as [-> | ->]; [apply cell_eq_NaN_l|apply cell_eq_NaN_r].
  - unfold labels. rewrite (reordered_eq df _ _ H). f_equal.
    assert (Hno : forall x, matches df [actual df r; predicted df r] x = false).
    { intros x. unfold matches, item. simpl.
      destruct Hnan as [-> | ->];
        rewrite ?cell_eq_NaN_r, ?andb_false_r; reflexivity. }
    rewrite (List_filter_false _ _ Hno). simpl.
    rewrite filter_true by (intros x; now rewrite Hno).
    destruct df; reflexivity.
Qed.

Lemma missing_label_is_error_pair_witness :
  (exists pairs,
      combinations (Frame ["class"; "pred"] [Row 0 [NaN; NaN]; Row 1 [Str "A"; Str "A"]])
      = Return pairs /\ [NaN; NaN] ∈ pairs)
  /\ reordered (Frame ["class"; "pred"] [Row 0 [NaN; NaN]; Row 1 [Str "A"; Str "A"]])
               [NaN; NaN]
     = Return (Frame ["class"; "pred"] [Row 0 [NaN; NaN]; Row 1 [Str "A"; Str "A"]]).
Proof.
  apply (missing_label_is_error_pair
           (Frame ["class"; "pred"] [Row 0 [NaN; NaN]; Row 1 [Str "A"; Str "A"]])
           (Row 0 [NaN; NaN])).
  - vm_compute. lia.
  - left.
  - left. reflexivity.
Defined.

(** X3. The frame reordered for an extracted pair of labels that are not missing
    has the error in question on top: it starts with a row that has the
    pair's labels, and has as many rows as the frame. *)
Theorem reordered_error_on_top (df : frame) (pairs : list (list cell)) (a q : cell)
    (Hc : combinations df = Return pairs) (Hin : [a; q] ∈ pairs)
    (Ha : a <> NaN) (Hq : q <> NaN) :
  exists top r rest,
    reordered df [a; q] = Return top
    /\ rows top = r :: rest
    /\ actual df r = a /\ predicted df r = q
    /\ length (rows top) = length (rows df).
Proof.
  assert (H : (2 <= ncols df)%nat).
  { destruct (decide (2 <= ncols df)%nat) as [|Hn]; [assumption|].
    rewrite combinations_fails in Hc by lia. discriminate. }
  rewrite (combinations_eq df H) in Hc. injection Hc as <-.
  apply first_occurrences_elem, mismatches_elem in Hin as (r0 & Hr0 & Heq & _).
  unfold labels in Heq. injection Heq as -> ->.
  assert (Hm : matches df [actual df r0; predicted df r0] r0 = true).
  { unfold matches, item. simpl. now rewrite !cell_eq_refl. }
  assert (Hf : r0 ∈ List.filter (matches df [actual df r0; predicted df r0]) (rows df))
    by (apply elem_of_List_filter; auto).
  destruct (List.filter (matches df [actual df r0; predicted df r0]) (rows df))
    as [|r rest] eqn:Hfilter; [now apply not_elem_of_nil in Hf|].
  assert (Hr : matches df [actual df r0; predicted df r0] r = true).
  { assert (Hin : r ∈ r :: rest) by left. rewrite <- Hfilter in Hin.
    apply elem_of_List_filter in Hin. tauto. }
  unfold matches, item in Hr. simpl in Hr.
  apply andb_true_iff in Hr as [H1 H2].
  apply cell_eq_spec in H1 as [H1 _]. apply cell_eq_spec in H2 as [H2 _].
  eexists _, r, _. split; [apply (reordered_eq df _ _ H)|]. simpl.
  rewrite Hfilter. simpl. repeat split; try assumption.
  change (length ((r :: rest) ++ List.filter
            (fun x => negb (matches df [actual df r0; predicted df r0] x)) (rows df))
          = length (rows df)).
  rewrite <- Hfilter. apply Permutation_length, List_filter_partition.
Qed.

Lemma reordered_error_on_top_witness :
  exists top r rest,
    reordered Example.baseline_result [Str "B"; Str "A"] = Return top
    /\ rows top = r :: rest
    /\ actual Example.baseline_result r = Str "B"
    /\ predicted Example.baseline_result r = Str "A"
    /\ length (rows top) = length (rows Example.baseline_result).
Proof.
  apply (reordered_error_on_top Example.baseline_result
           [[Str "A"; Str "B"]; [Str "B"; Str "A"]]).
  - vm_compute. reflexivity.
  - right. left.
  - discriminate.
  - discriminate.
Defined.

(** ** The figures of the wrappers *)

Ltac run_wrapper H :=
  cbv [histogram mini_histogram correlation_matrix missing_matrix missing_bar
       missing_heat missing_dendrogram _plot_histogram plotting plotting_current
       savefig bind ret raise log_call plt_figure plt_gca plt_close_figure] in H;
  repeat case_match; simplify_eq/=.

(** X4. A wrapper that draws a figure of its own (the histograms, the
    correlation matrix, the four missingness plots) and returns has closed
    it: every figure open afterwards was open before, and none is open when
    none was. *)
Theorem wrapper_closes_its_figure (E : Ext.env) (c : wrapper_call) (w w' : world)
    (s : string) (Hc : closes_figure c = true)
    (Hrun : call_wrapper E c w = (Return s, w')) :
  (forall f, f ∈ figures w' -> f ∈ figures w)
  /\ (figures w = [] -> figures w' = []).
Proof.
  assert (Hsub : forall f, f ∈ figures w' -> f ∈ figures w).
  { intros f. destruct c; try discriminate Hc; simpl in Hrun; run_wrapper Hrun;
      rewrite list_elem_of_filter; intros [Hne Hf];
      repeat match goal with H : figures _ = _ |- _ => rewrite H in * end;
      apply elem_of_cons in Hf as [->|Hf]; solve [assumption | congruence | now right]. }
  split; [exact Hsub|]. intros H0.
  destruct (figures w') as [|f l] eqn:Hf; [reflexivity|].
  assert (Hin : f ∈ figures w) by (apply Hsub; left).
  rewrite H0 in Hin. now apply not_elem_of_nil in Hin.
Qed.

Lemma wrapper_closes_its_figure_witness :
  (forall f,
      f ∈ figures (call_wrapper Example.env_ok
                     (MissingMatrix Example.test_frame false) Example.a_world).2 ->
      f ∈ figures Example.a_world)
  /\ (figures Example.a_world = [] ->
      figures (call_wrapper Example.env_ok
                 (MissingMatrix Example.test_frame false) Example.a_world).2 = []).
Proof.
  apply (wrapper_closes_its_figure Example.env_ok
           (MissingMatrix Example.test_frame false) Example.a_world _
           (result_string ["m"%byte])).
  - reflexivity.
  - vm_compute. reflexivity.
Defined.

(** X5. No wrapper has a [finally]: when a wrapper raises after it has drawn
    (saving the figure fails, the mini histogram finds no tick, the
    correlation matrix divides by its zero columns), its figure stays open.
    Started with no figure open, it leaves exactly the one it opened. *)
Theorem wrapper_leaves_figure_when_it_raises (E : Ext.env) (c : wrapper_call)
    (w w' : world) (e : exn) (Hc : closes_figure c = true)
    (He : raised_after_drawing e)
    (Hrun : call_wrapper E c w = (Raise e, w')) :
  figures w' <> []
  /\ (figures w = [] -> figures w' = [next_figure w]).
Proof.
  assert (He' : e <> External Plotting /\ e <> TypeError)
    by (destruct He as [->|[->| ->]]; split; intros Heq; discriminate Heq).
  destruct He' as [He1 He2].
  destruct c; try discriminate Hc; simpl in Hrun; run_wrapper Hrun;
    try congruence;
    (split; [|intros H0]);
    repeat match goal with H : figures _ = _ |- _ => rewrite H in * end;
    try discriminate; try reflexivity; congruence.
Qed.

Lemma wrapper_leaves_figure_when_it_raises_witness :
  figures (call_wrapper Example.env_ok
             (CorrelationMatrix (Frame ["age"] []) "Pearson") Example.a_world).2 <> []
  /\ (figures Example.a_world = [] ->
      figures (call_wrapper Example.env_ok
                 (CorrelationMatrix (Frame ["age"] []) "Pearson") Example.a_world).2
      = [next_figure Example.a_world]).
Proof.
  apply (wrapper_leaves_figure_when_it_raises Example.env_ok
           (CorrelationMatrix (Frame ["age"] []) "Pearson") Example.a_world _
           ZeroDivisionError).
  - reflexivity.
  - right. right. reflexivity.
  - vm_compute. reflexivity.
Defined.

(** ** Errors of the histograms and of the correlation matrix *)

(** X6. The histogram wrappers pass their keywords on to [_plot_histogram],
    which has [bins], [figsize] and [facecolor] only, and [mini_histogram]
    passes [figsize=(4, 2)] itself.  So [mini_histogram] raises [TypeError]
    exactly when the caller gives a [figsize] or another keyword, and
    [histogram] exactly when the caller gives another keyword; the error
    comes before anything is drawn.  The [xticks[0]] of [mini_histogram]
    raises [IndexError] exactly when the histogram was drawn and its x axis
    has no major tick.  (An error raised inside a library call is an
    [External] exception here, whatever its class.) *)
Theorem mini_histogram_errors (E : Ext.env) (s : series) (kwargs : hist_kwargs)
    (w : world) :
  ((mini_histogram E s kwargs w).1 = Raise TypeError
   <-> is_Some (kw_figsize kwargs) \/ kw_other kwargs <> [])
  /\ (is_Some (kw_figsize kwargs) \/ kw_other kwargs <> [] ->
      mini_histogram E s kwargs w = (Raise TypeError, w))
  /\ ((histogram E s kwargs w).1 = Raise TypeError <-> kw_other kwargs <> [])
  /\ (kw_other kwargs <> [] -> histogram E s kwargs w = (Raise TypeError, w))
  /\ ((mini_histogram E s kwargs w).1 = Raise IndexError
      <-> kw_figsize kwargs = None /\ kw_other kwargs = []
          /\ exists p w1,
               _plot_histogram E s (default 10%Z (kw_bins kwargs)) (4, 2)%Z
                               (default "#337ab7" (kw_facecolor kwargs)) w
               = (Return p, w1)
               /\ Ext.major_ticks E (content p) = 0%nat).
Proof.
  assert (Hplot : forall bins figsize facecolor e w1,
            _plot_histogram E s bins figsize facecolor w = (Raise e, w1) ->
            e <> TypeError /\ e <> IndexError).
  { intros bins figsize facecolor e w1.
    cbv [_plot_histogram plotting_current bind ret raise log_call plt_figure plt_gca].
    repeat case_match; simplify_eq/=; intros Hbad; simplify_eq/=;
      split; intros Hbad'; discriminate Hbad'. }
  assert (Hrest : forall (p : plot) (w1 : world),
            ((imgdata <- savefig E p ;; plt_close_figure (figure p) ;;
              ret (result_string imgdata))%py w1).1 <> Raise TypeError
            /\ ((imgdata <- savefig E p ;; plt_close_figure (figure p) ;;
                 ret (result_string imgdata))%py w1).1 <> Raise IndexError).
  { intros p w1. cbv [savefig bind ret raise plt_close_figure].
    destruct (Ext.savefig E (content p)); simpl; split; intros Hbad; discriminate Hbad. }
  split; [|split; [|split; [|split]]].
  - unfold mini_histogram.
    destruct (kw_figsize kwargs) as [fs|]; [split; [eauto|reflexivity]|].
    destruct (kw_other kwargs) as [|o os]; [|split; [right; discriminate|reflexivity]].
    split; [|intros [[x Hx]|Hx]; [discriminate Hx|contradiction]].
    intros H. exfalso. revert H. unfold bind at 1.
    destruct (_plot_histogram E s _ _ _ w) as [[p|e] w1] eqn:Hrun.
    + unfold bind at 1.
      destruct (bool_decide (Ext.major_ticks E (content p) = 0%nat));
        [intros Hbad; discriminate Hbad|].
      cbv [ret]. apply Hrest.
    + apply Hplot in Hrun as [Hne _]. simpl. intros Hbad. congruence.
  - unfold mini_histogram.
    intros [[fs Hfs]|Hother]; [now rewrite Hfs|].
    destruct (kw_figsize kwargs); [reflexivity|].
    destruct (kw_other kwargs); [contradiction|reflexivity].
  - unfold histogram.
    destruct (kw_other kwargs) as [|o os]; [|split; [discriminate|reflexivity]].
    split; [|contradiction].
    intros H. exfalso. revert H. unfold bind at 1.
    destruct (_plot_histogram E s _ _ _ w) as [[p|e] w1] eqn:Hrun.
    + apply Hrest.
    + apply Hplot in Hrun as [Hne _]. simpl. intros Hbad. congruence.
  - unfold histogram. destruct (kw_other kwargs); [contradiction|reflexivity].
  - unfold mini_histogram.
    destruct (kw_figsize kwargs) as [fs|];
      [split; [intros H; discriminate H|intros [H _]; discriminate H]|].
    destruct (kw_other kwargs) as [|o os];
      [|split; [intros H; discriminate H|intros (_ & H & _); discriminate H]].
    unfold bind at 1.
    destruct (_plot_histogram E s _ _ _ w) as [[p|e] w1] eqn:Hrun.
    + unfold bind at 1.
      destruct (bool_decide (Ext.major_ticks E (content p) = 0%nat)) eqn:Ht.
      * apply bool_decide_eq_true in Ht. split; [|reflexivity].
        intros _. split; [reflexivity|]. split; [reflexivity|]. eauto.
      * apply bool_decide_eq_false in Ht. cbv [ret]. split.
        -- intros H. exfalso. revert H. apply Hrest.
        -- intros (_ & _ & p' & w1' & Heq & Ht'). congruence.
    + apply Hplot in Hrun as [_ Hne]. simpl. split; [intros Hbad; congruence|].
      intros (_ & _ & p' & w1' & Heq & _). discriminate Heq.
Qed.

(** X7. [correlation_matrix] computes the step of its ticks as
    [shape[0] * 1.0 / len(labels)] and hands it to [np.arange]: its own
    code raises [ZeroDivisionError] exactly when the image was drawn and the
    frame has no column (the division) or no row (a step of 0.0), after the
    renderer was called and with the figure of [plt.subplots] left open. *)
Theorem correlation_matrix_no_columns (E : Ext.env) (corrdf : frame)
    (title : string) (w : world) :
  ((correlation_matrix E corrdf title w).1 = Raise ZeroDivisionError
   <-> Ext.draws E (Imshow corrdf title) = true
       /\ (ncols corrdf = 0%nat \/ rows corrdf = []))
  /\ (Ext.draws E (Imshow corrdf title) = true ->
      ncols corrdf = 0%nat \/ rows corrdf = [] ->
      correlation_matrix E corrdf title w
      = (Raise ZeroDivisionError,
         with_figures (next_figure w :: figures w) (S (next_figure w))
           (with_calls (calls w ++ [Imshow corrdf title]) w))).
Proof.
  assert (Hraise : Ext.draws E (Imshow corrdf title) = true ->
            ncols corrdf = 0%nat \/ rows corrdf = [] ->
            correlation_matrix E corrdf title w
            = (Raise ZeroDivisionError,
               with_figures (next_figure w :: figures w) (S (next_figure w))
                 (with_calls (calls w ++ [Imshow corrdf title]) w))).
  { intros Hd Hzero.
    cbv [correlation_matrix bind ret raise log_call plt_figure].
    rewrite Hd. destruct Hzero as [Hn|Hr].
    - rewrite (bool_decide_eq_true_2 _ Hn). reflexivity.
    - rewrite (bool_decide_eq_true_2 _ Hr).
      destruct (bool_decide (ncols corrdf = 0%nat)); reflexivity. }
  split; [|exact Hraise]. split.
  - cbv [correlation_matrix savefig bind ret raise log_call plt_figure
         plt_close_figure].
    destruct (Ext.draws E (Imshow corrdf title)); [|intros Hbad; discriminate Hbad].
    destruct (bool_decide (ncols corrdf = 0%nat)) eqn:Hn.
    { intros _. apply bool_decide_eq_true in Hn. auto. }
    destruct (bool_decide (rows corrdf = [])) eqn:Hr.
    { intros _. apply bool_decide_eq_true in Hr. auto. }
    simpl. destruct (Ext.savefig E (Imshow corrdf title));
      intros Hbad; discriminate Hbad.
  - intros [Hd Hzero]. now rewrite (Hraise Hd Hzero).
Qed.

(** X8. A histogram of dates that matplotlib cannot plot is not an error:
    called with keywords of [_plot_histogram] only, [histogram] swallows the
    [TypeError] of [plot.hist] and returns the image of the empty plot, with
    the figure it opened closed again. *)
Theorem histogram_of_unplottable_dates (E : Ext.env) (s : series)
    (kwargs : hist_kwargs) (w : world) (imgdata : list byte)
    (Hkw : kw_other kwargs = [])
    (Hdate : Ext.is_date E s = true)
    (Hhist : Ext.hist_dates E s = HistCannotPlotDates)
    (Hsave : Ext.savefig E (DateHist s (default 10%Z (kw_bins kwargs))
                                     (default (6, 4)%Z (kw_figsize kwargs))
                                     (default "#337ab7" (kw_facecolor kwargs)) false)
             = Some imgdata) :
  exists w',
    histogram E s kwargs w = (Return (result_string imgdata), w')
    /\ (forall f, f ∈ figures w' -> f ∈ figures w)
    /\ next_figure w' = S (next_figure w)
    /\ report w' = report w /\ blocks w' = blocks w /\ frames w' = frames w.
Proof.
  eexists. split.
  - cbv [histogram _plot_histogram savefig bind ret raise log_call plt_figure
         plt_close_figure].
    rewrite Hkw, Hdate, Hhist. cbv [content]. rewrite Hsave. reflexivity.
  - simpl. split; [|auto]. intros f. rewrite list_elem_of_filter.
    intros [Hne Hf]. apply elem_of_cons in Hf as [->|Hf]; [congruence|assumption].
Qed.

Lemma histogram_of_unplottable_dates_witness :
  exists w',
    histogram
      {| Ext.style_use := fun _ => true; Ext.is_date := fun _ => true;
         Ext.draws := fun _ => true; Ext.hist_dates := fun _ => HistCannotPlotDates;
         Ext.major_ticks := fun _ => 5%nat;
         Ext.savefig := fun rq => Some (Example.picture rq);
         Ext.unique := fun _ => None; Ext.fit := fun _ _ _ => true;
         Ext.score := fun _ _ _ => true; Ext.poof := fun _ => None;
         Ext.finalize := fun _ => true |}
      [(0%Z, Str "2019-01-01")] (HistKwargs None None None []) Example.a_world
    = (Return (result_string ["x"%byte]), w')
    /\ (forall f, f ∈ figures w' -> f ∈ figures Example.a_world)
    /\ next_figure w' = S (next_figure Example.a_world)
    /\ report w' = report Example.a_world /\ blocks w' = blocks Example.a_world
    /\ frames w' = frames Example.a_world.
Proof.
  apply histogram_of_unplottable_dates; reflexivity.
Defined.

(** X9. [yellowbrick_to_img] closes nothing, whatever its outcome: the figures
    open before the call are still open after it, in their order, with at
    most the one figure that [plt.gca()] opens when none is open.  Closing
    is left to the caller. *)
Theorem yellowbrick_to_img_closes_nothing (E : Ext.env) (pc : loc)
    (rearrange_x_labels : bool) (w : world) :
  gca_only w (yellowbrick_to_img E pc rearrange_x_labels w).2
  /\ (forall f, f ∈ figures w ->
        f ∈ figures (yellowbrick_to_img E pc rearrange_x_labels w).2).
Proof.
  assert (G : preserves gca_only (yellowbrick_to_img E pc rearrange_x_labels))
    by preserves_go gca_only_leaf.
  split; [apply G|]. intros f Hf.
  destruct (G w) as [-> | [H0 _]]; [assumption|].
  rewrite H0 in Hf. now apply not_elem_of_nil in Hf.
Qed.

(** ** What a returning step leaves *)

Section Returns.

Variable R : relation world.
Context `{!PreOrder R}.

Lemma preserves_returns {A} (m : M A) : preserves R m -> returns_with R m.
Proof. intros H w a w' Hrun. specialize (H w). now rewrite Hrun in H. Qed.

Lemma returns_with_bind {A B} (m : M A) (k : A -> M B) :
  returns_with R m -> (forall a, returns_with R (k a)) -> returns_with R (bind m k).
Proof.
  intros Hm Hk w b w' Hrun. apply bind_Return in Hrun as (a & w1 & H1 & H2).
  etrans; [exact (Hm _ _ _ H1)|exact (Hk _ _ _ _ H2)].
Qed.

Lemma returns_with_for {A} (l : list A) (body : A -> M unit) :
  (forall x, returns_with R (body x)) -> returns_with R (for_ l body).
Proof.
  intros Hbody. induction l as [|x l IH]; simpl.
  - intros w a w' Hrun. apply ret_Return in Hrun as [_ ->]. reflexivity.
  - apply returns_with_bind; [apply Hbody|intros _; exact IH].
Qed.

End Returns.

Create HintDb returns_db.

Ltac returns_go leaf :=
  repeat lazymatch goal with
  | |- returns_with _ (bind _ _) =>
      apply returns_with_bind; [typeclasses eauto| |intros ?]
  | |- returns_with _ (for_ _ _) =>
      apply returns_with_for; [typeclasses eauto|intros ?]
  | |- returns_with _ (if ?c then _ else _) => destruct c
  | |- returns_with _ (match ?o with _ => _ end) => destruct o
  | |- returns_with _ ?m =>
      first [ assumption
            | solve [ auto 1 with returns_db ]
            | solve [ apply preserves_returns; preserves_go leaf ]
            | let h := head_of m in unfold h ]
  end.

#[global] Instance tidy_preorder : PreOrder tidy.
Proof. split; unfold tidy; [auto|intros w1 w2 w3 H12 H23 H; auto]. Qed.

#[global] Instance same_styles_preorder : PreOrder same_styles.
Proof. split; unfold same_styles; [auto|intros w1 w2 w3 H12 H23; congruence]. Qed.

Ltac tidy_leaf := solve [unfold tidy; simpl; auto].
Ltac same_styles_leaf := solve [unfold same_styles; simpl; auto].

Lemma missing_matrix_tidy (E : Ext.env) (d : frame) (p : bool) :
  returns_with tidy (missing_matrix E d p).
Proof.
  intros w s w' Hrun H0. revert Hrun.
  cbv [missing_matrix plotting savefig bind ret raise log_call plt_figure
       plt_close_figure].
  repeat case_match; simplify_eq/=; intros Hrun; simplify_eq/=;
    rewrite H0; rewrite filter_cons_False by (intros Hne; now apply Hne);
    reflexivity.
Qed.

Lemma block_precision_recall_figures (E : Ext.env) (which : option string)
    (w w' : world) :
  block_precision_recall E (block_named which) w = (Return tt, w') ->
  figures w' = tail (figures w).
Proof.
  intros Hrun. unfold block_precision_recall in Hrun.
  apply bind_Return in Hrun as (s & w1 & Hpop & Hrun).
  apply bind_Return in Hrun as (img & w2 & Hcurve & Hrun).
  apply bind_Return in Hrun as (l & w3 & Hl & Hrun).
  rewrite block_named_eq in Hl. injection Hl as _ <-.
  apply bind_Return in Hrun as (blk & w3 & Hb & Hrun).
  apply load_block_Return in Hb as [_ ->].
  apply bind_Return in Hrun as ([] & w3 & Hst & Hrun).
  apply store_block_Return in Hst as ->.
  unfold plt_close in Hrun. injection Hrun as <-. simpl.
  pose proof (pop_split_gca_only which w) as G1. rewrite Hpop in G1.
  pose proof (precision_recall_curve_gca_only E s w1) as G2. rewrite Hcurve in G2.
  simpl in *. destruct (transitivity G1 G2) as [->|[-> [n ->]]]; reflexivity.
Qed.

Lemma block_precision_recall_tidy (E : Ext.env) (which : option string) :
  returns_with tidy (block_precision_recall E (block_named which)).
Proof.
  intros w [] w' Hrun H0.
  rewrite (block_precision_recall_figures E which w w' Hrun), H0. reflexivity.
Qed.

(** X10. The pipeline closes what it opens: a run of
    [generate_report_visualizations] that returns, started with no figure
    open, ends with no figure open, after every render of a matrix and
    every curve. *)
Theorem assembling_leaves_no_figure (E : Ext.env) (w w' : world)
    (Hrun : generate_report_visualizations E w = (Return tt, w'))
    (Hnone : figures w = []) :
  figures w' = [].
Proof.
  assert (Htidy : returns_with tidy (generate_report_visualizations E)).
  { pose proof (missing_matrix_tidy E) as Hm.
    pose proof (block_precision_recall_tidy E None) as Hb.
    pose proof (fun k => block_precision_recall_tidy E (Some k)) as Hs.
    simpl in Hb, Hs. returns_go tidy_leaf. }
  exact (Htidy w tt w' Hrun Hnone).
Qed.

Lemma assembling_leaves_no_figure_witness :
  figures Example.assembled_world = [].
Proof.
  apply (assembling_leaves_no_figure Example.env_ok Example.a_world).
  - vm_compute. reflexivity.
  - reflexivity.
Defined.

(** ** The package style and the keys of the report *)

(** X11. Unlike the style reset before it, the package style is applied outside
    any [try]: when [matplotlib.style.use] refuses it, the pipeline raises
    that error at once, before any frame is rendered and with the report,
    its blocks and the frames as they were. *)
Theorem package_style_failure_propagates (E : Ext.env) (w : world)
    (Hstyle : Ext.style_use E mplstyle = false) :
  exists w',
    generate_report_visualizations E w = (Raise (External StyleProject), w')
    /\ report w' = report w /\ blocks w' = blocks w /\ frames w' = frames w
    /\ calls w' = calls w /\ figures w' = figures w.
Proof.
  cbv [generate_report_visualizations reset_style try_except_pass style_use bind
       raise].
  rewrite Hstyle. destruct (Ext.style_use E "default"); eexists; split;
    try reflexivity; simpl; auto.
Qed.

Lemma package_style_failure_propagates_witness :
  exists w',
    generate_report_visualizations
      {| Ext.style_use := fun s => String.eqb s "default";
         Ext.is_date := fun _ => false; Ext.draws := fun _ => true;
         Ext.hist_dates := fun _ => HistDrawn; Ext.major_ticks := fun _ => 5%nat;
         Ext.savefig := fun rq => Some (Example.picture rq);
         Ext.unique := fun _ => None; Ext.fit := fun _ _ _ => true;
         Ext.score := fun _ _ _ => true; Ext.poof := fun _ => None;
         Ext.finalize := fun _ => true |} Example.a_world
    = (Raise (External StyleProject), w')
    /\ report w' = report Example.a_world /\ blocks w' = blocks Example.a_world
    /\ frames w' = frames Example.a_world
    /\ calls w' = calls Example.a_world /\ figures w' = figures Example.a_world.
Proof.
  apply package_style_failure_propagates. reflexivity.
Defined.

Lemma after_styles_same_styles (E : Ext.env) :
  preserves same_styles
    (bind (global_missing_matrix E) (fun _ =>
     bind (baseline_matrixes E) (fun _ =>
     bind (strategy_matrixes E) (fun _ =>
     bind (block_precision_recall E baseline_block) (fun _ =>
     strategy_curves E))))).
Proof. preserves_go same_styles_leaf. Qed.

(** X12. A run of the pipeline that returns has applied the package style last:
    the styles applied to the process are those applied before, then
    [default] when the reset went through, then the package style; nothing
    after line 273 applies a style. *)
Theorem package_style_applied_last (E : Ext.env) (w w' : world)
    (Hrun : generate_report_visualizations E w = (Return tt, w')) :
  styles w'
  = styles w ++ (if Ext.style_use E "default" then ["default"] else [])
             ++ [mplstyle].
Proof.
  unfold generate_report_visualizations in Hrun.
  apply bind_Return in Hrun as ([] & w1 & Hreset & Hrun).
  pose proof (after_styles_same_styles E w1) as Hs. rewrite Hrun in Hs.
  unfold same_styles in Hs. simpl in Hs. rewrite Hs. clear Hrun Hs.
  revert Hreset. cbv [reset_style try_except_pass style_use bind raise].
  destruct (Ext.style_use E "default"), (Ext.style_use E mplstyle);
    intros Hreset; simplify_eq/=; try reflexivity.
  now rewrite <- app_assoc.
Qed.

Lemma package_style_applied_last_witness :
  styles Example.assembled_world = ["default"; mplstyle].
Proof.
  apply (package_style_applied_last Example.env_ok Example.a_world).
  vm_compute. reflexivity.
Defined.

(** X13. A report that lacks the frame of line 275 (no [dataframe] key, or no
    [modified] key under it) fails on that line with the [KeyError] of the
    missing key, once the styles are applied: nothing was rendered, and
    the report, its blocks and the frames are as they were. *)
Theorem report_without_modified_frame (E : Ext.env) (w : world)
    (Hstyle : Ext.style_use E mplstyle = true)
    (Hno : Report.dataframe (report w) ≫= Report.modified = None) :
  exists w',
    generate_report_visualizations E w
    = (Raise (KeyError (match Report.dataframe (report w) with
                        | None => "dataframe"
                        | Some _ => "modified"
                        end)), w')
    /\ report w' = report w /\ blocks w' = blocks w /\ frames w' = frames w
    /\ calls w' = calls w.
Proof.
  cbv [generate_report_visualizations reset_style try_except_pass style_use bind
       raise global_missing_matrix report_dataframe get_report getitem ret].
  rewrite Hstyle.
  destruct (Ext.style_use E "default"); simpl;
    destruct (Report.dataframe (report w)) as [dfs|]; simpl in *;
    rewrite ?Hno; eexists; split; try reflexivity; simpl; auto.
Qed.

Lemma report_without_modified_frame_witness :
  exists w',
    generate_report_visualizations Example.env_ok
      (with_report (Report.Make None (Some 0%nat) (Some [("mean", 1%nat)]) None)
                   Example.a_world)
    = (Raise (KeyError "dataframe"), w')
    /\ report w' = Report.Make None (Some 0%nat) (Some [("mean", 1%nat)]) None
    /\ blocks w' = blocks Example.a_world /\ frames w' = frames Example.a_world
    /\ calls w' = calls Example.a_world.
Proof.
  apply (report_without_modified_frame Example.env_ok
           (with_report (Report.Make None (Some 0%nat) (Some [("mean", 1%nat)]) None)
                        Example.a_world)); reflexivity.
Defined.

(** ** The matrixes of a block, render by render *)

Lemma missing_matrix_run (E : Ext.env) (d : frame) (p : bool) (w : world)
    (imgdata : list byte) :
  Ext.draws E (MsnoMatrix d p) = true ->
  Ext.savefig E (MsnoMatrix d p) = Some imgdata ->
  missing_matrix E d p w
  = (Return (result_string imgdata),
     with_figures (filter (fun f => f ≠ next_figure w) (figures w))
       (S (next_figure w)) (with_calls (calls w ++ [MsnoMatrix d p]) w)).
Proof.
  intros Hd Hs.
  cbv [missing_matrix plotting savefig bind ret raise log_call plt_figure
       plt_close_figure].
  destruct p; rewrite Hd; cbv [content]; rewrite Hs; simpl;
    (rewrite filter_cons_False by (intros Hne; now apply Hne)); reflexivity.
Qed.

(** X14. A frame with fewer than two columns has no actual and predicted label
    to compare: the matrixes of a block over it end in [IndexError].  The
    error comes after the frame was rendered once: the block is left with
    the single entry "Original Dataset" as its matrixes. *)
Theorem matrixes_of_narrow_frame (E : Ext.env) (which : option string) (dfl : loc)
    (d : frame) (l : loc) (blk : Block.t) (imgdata : list byte) (w : world)
    (Hd : frames w !! dfl = Some d) (Hcols : (ncols d < 2)%nat)
    (Hl : block_named_of which (report w) = Return l)
    (Hb : blocks w !! l = Some blk)
    (Hdraw : Ext.draws E (MsnoMatrix d true) = true)
    (Hsave : Ext.savefig E (MsnoMatrix d true) = Some imgdata) :
  exists w',
    block_prediction_matrixes E (block_named which) dfl w = (Raise IndexError, w')
    /\ blocks w'
       = <[l := set_prediction_matrixes
                  [Matrix "Original Dataset" (result_string imgdata)] blk]> (blocks w)
    /\ calls w' = calls w ++ [MsnoMatrix d true]
    /\ report w' = report w /\ frames w' = frames w.
Proof.
  unfold block_prediction_matrixes.
  unfold bind at 1. unfold load_frame at 1. rewrite Hd.
  unfold bind at 1. rewrite (missing_matrix_run E d true w imgdata Hdraw Hsave).
  unfold bind at 1. rewrite block_named_eq. simpl report. rewrite Hl.
  unfold bind at 1. unfold load_block at 1. simpl blocks. rewrite Hb.
  unfold bind at 1. unfold store_block at 1.
  unfold bind at 1. unfold load_frame at 1. simpl frames. rewrite Hd.
  unfold bind at 1. unfold lift at 1. rewrite (combinations_fails d Hcols).
  eexists. split; [reflexivity|]. simpl. auto.
Qed.

Lemma matrixes_of_narrow_frame_witness :
  exists w',
    block_prediction_matrixes Example.env_ok (block_named None) 0%nat
      (with_frames [Frame ["class"] [Row 0 [Str "A"]]] Example.a_world)
    = (Raise IndexError, w')
    /\ blocks w'
       = <[0%nat := set_prediction_matrixes
                  [Matrix "Original Dataset" (result_string ["p"%byte; "+"%byte])]
                  (Block.Make (Some 2%nat) (Some Example.a_split) None None)]>
           (blocks Example.a_world)
    /\ calls w' = calls Example.a_world ++ [MsnoMatrix (Frame ["class"] [Row 0 [Str "A"]]) true]
    /\ report w' = report Example.a_world
    /\ frames w' = [Frame ["class"] [Row 0 [Str "A"]]].
Proof.
  apply (matrixes_of_narrow_frame Example.env_ok None 0%nat
           (Frame ["class"] [Row 0 [Str "A"]]) 0%nat
           (Block.Make (Some 2%nat) (Some Example.a_split) None None)
           ["p"%byte; "+"%byte]
           (with_frames [Frame ["class"] [Row 0 [Str "A"]]] Example.a_world));
    try reflexivity.
  vm_compute. lia.
Defined.

Lemma pair_loop_calls (E : Ext.env) (which : option string) (dfl : loc) (d : frame)
    (pairs : list (list cell)) (w w' : world) :
  for_ pairs (pair_matrix E (block_named which) dfl) w = (Return tt, w') ->
  frames w !! dfl = Some d ->
  exists tops,
    Forall2 (fun pair top => reordered d pair = Return top) pairs tops
    /\ calls w' = calls w ++ map (fun top => MsnoMatrix top true) tops.
Proof.
  revert w. induction pairs as [|p pairs IH]; intros w H Hd; simpl in H.
  - apply ret_Return in H as [_ ->]. exists []. split; [constructor|].
    now rewrite app_nil_r.
  - apply bind_Return in H as ([] & w1 & Hp & H).
    pose proof (pair_matrix_Return E _ _ (block_named_eq which) dfl p w w1 Hp)
      as (l & d1 & blk & pm & m & _ & Hd1 & _ & _ & (_ & top & Htop & _) & _ & Hfr & _).
    assert (d1 = d) by congruence. subst d1.
    pose proof (pair_matrix_calls E which dfl p d top w Hd Htop) as Hc.
    rewrite Hp in Hc. simpl in Hc.
    destruct (IH w1 H) as (tops & Htops & Hcalls); [now rewrite Hfr|].
    exists (top :: tops). split; [now constructor|].
    rewrite Hcalls, Hc, <- app_assoc. reflexivity.
Qed.

(** X15. The renders of a block come in the order of its matrixes: a run of
    lines 279-284 that returns has called the renderer once for the frame
    as it is and then once per extracted error pair, in the order of the
    pairs, each time with the frame reordered for that pair, and not
    otherwise. *)
Theorem block_renders_in_order (E : Ext.env) (which : option string) (dfl : loc)
    (d : frame) (w w' : world)
    (Hrun : block_prediction_matrixes E (block_named which) dfl w = (Return tt, w'))
    (Hd : frames w !! dfl = Some d) :
  exists pairs tops,
    combinations d = Return pairs
    /\ Forall2 (fun pair top => reordered d pair = Return top) pairs tops
    /\ calls w'
       = calls w ++ MsnoMatrix d true :: map (fun top => MsnoMatrix top true) tops
    /\ length (calls w') = (length (calls w) + 1 + length pairs)%nat.
Proof.
  unfold block_prediction_matrixes in Hrun. rename Hrun into H.
  apply bind_Return in H as (d0 & w1 & Hd0 & H).
  apply load_frame_Return in Hd0 as [Hd0 ->].
  assert (d0 = d) by congruence. subst d0.
  apply bind_Return in H as (img & w1 & Himg & H).
  apply missing_matrix_Return in Himg as (_ & _ & _ & Hfr & Hcalls).
  apply bind_Return in H as (l & w2 & Hl & H).
  rewrite block_named_eq in Hl. injection Hl as _ <-.
  apply bind_Return in H as (blk & w2 & Hb & H). apply load_block_Return in Hb as [Hb ->].
  apply bind_Return in H as ([] & w2 & Hst & H). apply store_block_Return in Hst as ->.
  apply bind_Return in H as (d' & w2 & Hd' & H). apply load_frame_Return in Hd' as [Hd' ->].
  apply bind_Return in H as (ps & w2 & Hps & H). apply lift_Return in Hps as [Hps ->].
  simpl in Hd'. rewrite Hfr, Hd in Hd'. injection Hd' as <-.
  destruct (pair_loop_calls E which dfl d ps _ _ H) as (tops & Htops & Hc).
  { simpl. now rewrite Hfr. }
  simpl in Hc. exists ps, tops. split; [exact Hps|]. split; [exact Htops|].
  assert (Heq : calls w'
                = calls w ++ MsnoMatrix d true :: map (fun top => MsnoMatrix top true) tops)
    by (rewrite Hc, Hcalls, <- app_assoc; reflexivity).
  split; [exact Heq|].
  rewrite Heq, length_app. simpl. rewrite length_map.
  apply Forall2_length in Htops. lia.
Qed.

Lemma block_renders_in_order_witness :
  exists pairs tops,
    combinations Example.baseline_result = Return pairs
    /\ Forall2 (fun pair top => reordered Example.baseline_result pair = Return top)
               pairs tops
    /\ calls (block_prediction_matrixes Example.env_ok (block_named None) 2%nat
                Example.a_world).2
       = calls Example.a_world
         ++ MsnoMatrix Example.baseline_result true
            :: map (fun top => MsnoMatrix top true) tops
    /\ length (calls (block_prediction_matrixes Example.env_ok (block_named None)
                        2%nat Example.a_world).2)
       = (length (calls Example.a_world) + 1 + length pairs)%nat.
Proof.
  apply (block_renders_in_order Example.env_ok None 2%nat Example.baseline_result
           Example.a_world).
  - vm_compute. reflexivity.
  - reflexivity.
Defined.

(** ** The names of the matrixes *)

Lemma has_matrixes_named_after (E : Ext.env) (l : loc) (d : frame) (w : world) :
  has_matrixes E l d w ->
  exists b, blocks w !! l = Some b /\ named_after E d b.
Proof.
  intros (b & ms & Hb & Hpm & m0 & rest & pairs & -> & [Hname _] & Hpairs & Hrest).
  exists b. split; [exact Hb|]. exists (m0 :: rest), pairs.
  split; [exact Hpm|]. split; [exact Hpairs|]. split.
  - simpl. rewrite Hname. f_equal.
    clear -Hrest. induction Hrest as [|p m ps ms [Hn _] _ IH]; simpl; congruence.
  - intros i pair Hi. simpl.
    destruct (Forall2_lookup_l _ _ _ _ _ Hrest Hi) as (m & Hm & Hpm').
    eauto.
Qed.

(** X16. In an assembled report the matrixes of a block whose frame has
    exact labels follow the error pairs of that frame, one to one and in
    order: the names are "Original Dataset" and then
    [str(actual)→str(predicted)] of each pair as extracted, and entry
    [i + 1] is the render of the frame reordered for pair [i]. *)
Theorem matrixes_follow_the_pairs (E : Ext.env) (w w' : world)
    (Hrun : generate_report_visualizations E w = (Return tt, w')) :
  (forall l blk r d,
      Report.baseline (report w) = Some l -> blocks w !! l = Some blk ->
      Block.result blk = Some r -> frames w !! r = Some d ->
      exact_labels d ->
      exists b', blocks w' !! l = Some b' /\ named_after E d b')
  /\ (forall sc k l blk r rf dfs t tf,
      Report.strategy_classifications (report w) = Some sc ->
      dict_lookup k sc = Some l -> blocks w !! l = Some blk ->
      Block.result blk = Some r -> frames w !! r = Some rf ->
      Report.dataframe (report w) = Some dfs -> Report.test dfs = Some t ->
      frames w !! t = Some tf ->
      exists d b', strategy_frame_of tf rf = Return d
                   /\ blocks w' !! l = Some b'
                   /\ (exact_labels d -> named_after E d b')).
Proof.
  destruct (assembled E w w' Hrun) as (Hbase & Hstrat & _). split.
  - intros l blk r d Hl Hb Hr Hd _.
    destruct (Hbase l blk r d Hl Hb Hr Hd) as [Hm _].
    now apply has_matrixes_named_after.
  - intros sc k l blk r rf dfs t tf Hsc Hk Hb Hr Hrf Hdfs Ht Htf.
    destruct (Hstrat sc k l blk r rf dfs t tf Hsc Hk Hb Hr Hrf Hdfs Ht Htf)
      as (d & Hd & Hm & _).
    exists d. apply has_matrixes_named_after in Hm as (b' & Hb' & Hn). eauto.
Qed.

Lemma matrixes_follow_the_pairs_witness :
  exists b' ms,
    blocks Example.assembled_world !! 0%nat = Some b'
    /\ Block.prediction_matrixes b' = Some ms
    /\ map name ms = ["Original Dataset"; "A→B"; "B→A"].
Proof.
  destruct (matrixes_follow_the_pairs Example.env_ok Example.a_world
              Example.assembled_world) as [Hbase _].
  - vm_compute. reflexivity.
  - destruct (Hbase 0%nat (Block.Make (Some 2%nat) (Some Example.a_split) None None)
                    2%nat Example.baseline_result)
      as (b' & Hb' & ms & pairs & Hms & Hpairs & Hnames & _);
      [reflexivity|reflexivity|reflexivity|reflexivity|left; reflexivity|].
    exists b', ms. split; [exact Hb'|]. split; [exact Hms|].
    rewrite Hnames. vm_compute in Hpairs. injection Hpairs as <-. reflexivity.
Defined.

(** ** What assembling leaves of the report *)

Lemma names_block_eq (r r' : Report.t) (l : loc) :
  Report.baseline r' = Report.baseline r ->
  Report.strategy_classifications r' = Report.strategy_classifications r ->
  names_block r l -> names_block r' l.
Proof. unfold names_block. intros -> ->. auto. Qed.

#[global] Instance footprint_preorder : PreOrder footprint.
Proof.
  split.
  - intros w. unfold footprint. repeat split; eauto.
  - intros w1 w2 w3 (Hd & Hb & Hs & Hlen & Hother & Hres)
                    (Hd' & Hb' & Hs' & Hlen' & Hother' & Hres').
    unfold footprint. repeat split; try congruence.
    + intros l Hl. rewrite Hother', Hother; [reflexivity|exact Hl|].
      intros Hn. apply Hl. revert Hn. now apply names_block_eq.
    + intros l b H1. destruct (Hres l b H1) as (b2 & H2 & Hr2).
      destruct (Hres' l b2 H2) as (b3 & H3 & Hr3). exists b3. split; congruence.
Qed.

Ltac footprint_leaf :=
  solve [reflexivity | unfold footprint; simpl; repeat split; eauto].

Lemma footprint_insert (w w' : world) (l : loc) (blk blk' : Block.t) :
  report w' = report w -> blocks w !! l = Some blk -> names_block (report w) l ->
  Block.result blk' = Block.result blk ->
  blocks w' = <[l := blk']> (blocks w) ->
  footprint w w'.
Proof.
  intros Hrep Hb Hn Hres Hbl. unfold footprint. rewrite Hrep, Hbl.
  repeat split; try reflexivity.
  - apply length_insert.
  - intros l' Hl'. apply list_lookup_insert_ne. intros <-. now apply Hl'.
  - intros l' b' Hb'. destruct (decide (l' = l)) as [->|Hne].
    + exists blk'. split; [|congruence].
      apply list_lookup_insert_eq. now apply lookup_lt_Some in Hb.
    + exists b'. split; [|reflexivity]. now rewrite list_lookup_insert_ne.
Qed.

Lemma baseline_of_names (r : Report.t) (l : loc) :
  baseline_of r = Return l -> names_block r l.
Proof.
  unfold baseline_of. destruct (Report.baseline r) eqn:H; intros Heq; [|discriminate Heq].
  left. congruence.
Qed.

Lemma strategy_of_names (k : string) (r : Report.t) (l : loc) :
  strategy_of k r = Return l -> names_block r l.
Proof.
  unfold strategy_of. destruct (Report.strategy_classifications r) as [sc|] eqn:H;
    [|intros Heq; discriminate Heq].
  destruct (dict_lookup k sc) eqn:Hk; intros Heq; [|discriminate Heq].
  right. exists sc, k. split; congruence.
Qed.

Lemma block_named_of_names (which : option string) (r : Report.t) (l : loc) :
  block_named_of which r = Return l -> names_block r l.
Proof. destruct which; [apply strategy_of_names|apply baseline_of_names]. Qed.

Lemma global_missing_matrix_footprint (E : Ext.env) :
  returns_with footprint (global_missing_matrix E).
Proof.
  intros w [] w' Hrun.
  apply global_missing_matrix_Return in Hrun
    as (dfs & m & d & img & _ & _ & _ & _ & Hrep & Hbl & _).
  unfold footprint. rewrite Hrep, Hbl. simpl. repeat split; eauto.
Qed.

Lemma baseline_matrixes_footprint (E : Ext.env) :
  returns_with footprint (baseline_matrixes E).
Proof.
  intros w [] w' Hrun.
  apply baseline_matrixes_Return in Hrun
    as (l & blk & r & d & ms & Hl & Hb & _ & _ & _ & Hbl & _ & Hrep).
  apply (footprint_insert w w' l blk _ Hrep Hb (baseline_of_names _ _ Hl)
           (eq_refl : Block.result (set_prediction_matrixes ms blk) = _) Hbl).
Qed.

Lemma strategy_pass_footprint (E : Ext.env) (k : string) :
  returns_with footprint
    (bind (strategy_frame k)
          (fun df => block_prediction_matrixes E (strategy_block k) df)).
Proof.
  intros w [] w' Hrun.
  apply strategy_pass_Return in Hrun
    as (dfs & t & tf & l & blk & r & rf & d & ms & _ & _ & _ & Hl & Hb & _ & _ & _
        & _ & Hbl & _ & Hrep & _).
  apply (footprint_insert w w' l blk _ Hrep Hb (strategy_of_names _ _ _ Hl)
           (eq_refl : Block.result (set_prediction_matrixes ms blk) = _) Hbl).
Qed.

Lemma block_precision_recall_footprint (E : Ext.env) (which : option string) :
  returns_with footprint (block_precision_recall E (block_named which)).
Proof.
  intros w [] w' Hrun.
  apply (block_precision_recall_Return E _ _ w w' (block_named_eq which)) in Hrun
    as (l & blk & s & img & Hl & Hb & _ & Hbl & _ & Hrep).
  apply (footprint_insert w w' l blk _ Hrep Hb (block_named_of_names _ _ _ Hl)
           (eq_refl : Block.result (set_precision_recall_curve img (del_split blk)) = _)
           Hbl).
Qed.

Lemma strategy_classifications_footprint :
  returns_with footprint strategy_classifications.
Proof.
  intros w sc w' Hrun. rewrite strategy_classifications_eq in Hrun.
  injection Hrun as _ <-. reflexivity.
Qed.

(** X17. Assembling touches only what it fills in.  After a run that returns,
    the report has its [dataframe], [baseline] and
    [strategy_classifications] keys as before; no block was added or
    removed; a block that the report does not name, as its baseline or as a
    strategy, is as it was; and every block still has the [result] it had. *)
Theorem assembling_touches_named_blocks_only (E : Ext.env) (w w' : world)
    (Hrun : generate_report_visualizations E w = (Return tt, w')) :
  Report.dataframe (report w') = Report.dataframe (report w)
  /\ Report.baseline (report w') = Report.baseline (report w)
  /\ Report.strategy_classifications (report w')
     = Report.strategy_classifications (report w)
  /\ length (blocks w') = length (blocks w)
  /\ (forall l, ~ names_block (report w) l -> blocks w' !! l = blocks w !! l)
  /\ (forall l b, blocks w !! l = Some b ->
        exists b', blocks w' !! l = Some b' /\ Block.result b' = Block.result b).
Proof.
  revert w w' Hrun.
  cut (returns_with footprint (generate_report_visualizations E));
    [intros Hfoot w w' Hrun; exact (Hfoot w tt w' Hrun)|].
  unfold generate_report_visualizations.
  apply returns_with_bind; [typeclasses eauto| |intros _].
  { apply preserves_returns. preserves_go footprint_leaf. }
  apply returns_with_bind; [typeclasses eauto| |intros _].
  { apply global_missing_matrix_footprint. }
  apply returns_with_bind; [typeclasses eauto| |intros _].
  { apply baseline_matrixes_footprint. }
  apply returns_with_bind; [typeclasses eauto| |intros _].
  { unfold strategy_matrixes.
    apply returns_with_bind;
      [typeclasses eauto|apply strategy_classifications_footprint|intros sc].
    apply returns_with_for; [typeclasses eauto|intros k].
    apply strategy_pass_footprint. }
  apply returns_with_bind; [typeclasses eauto| |intros _].
  { apply (block_precision_recall_footprint E None). }
  unfold strategy_curves.
  apply returns_with_bind;
    [typeclasses eauto|apply strategy_classifications_footprint|intros sc].
  apply returns_with_for; [typeclasses eauto|intros k].
  apply (block_precision_recall_footprint E (Some k)).
Qed.

Lemma assembling_touches_named_blocks_only_witness :
  blocks (generate_report_visualizations Example.env_ok world_with_spare_block).2
    !! 2%nat
  = Some (Block.Make (Some 2%nat) (Some Example.a_split) None None).
Proof.
  destruct (assembling_touches_named_blocks_only Example.env_ok
              world_with_spare_block
              (generate_report_visualizations Example.env_ok
                 world_with_spare_block).2)
    as (_ & _ & _ & _ & Hother & _).
  - vm_compute. reflexivity.
  - rewrite Hother; [reflexivity|].
    intros [Hb|(sc & k & Hsc & Hk)]; [discriminate Hb|].
    injection Hsc as <-. simpl in Hk.
    destruct (bool_decide ("mean" = k)); discriminate Hk.
Defined.

(** ** The curve of a block *)

#[global] Instance same_model_preorder : PreOrder same_model.
Proof.
  split; unfold same_model; [auto|].
  intros v1 v2 v3 (? & ? & ?) (? & ? & ?). repeat split; congruence.
Qed.

Lemma load_visualizer_Return (l : loc) (w w' : world) (v : visualizer) :
  load_visualizer l w = (Return v, w') -> visualizers w !! l = Some v /\ w' = w.
Proof.
  unfold load_visualizer. destruct (visualizers w !! l); intros H; inversion H; auto.
Qed.

Lemma visualizer_ax_model (pc : loc) (w w' : world) (fig : nat) (v : visualizer) :
  visualizer_ax pc w = (Return fig, w') -> visualizers w !! pc = Some v ->
  exists v', visualizers w' !! pc = Some v' /\ same_model v v'.
Proof.
  unfold visualizer_ax. intros H Hv.
  apply bind_Return in H as (v0 & w1 & Hv0 & H).
  apply load_visualizer_Return in Hv0 as [Hv0 ->].
  assert (v0 = v) by congruence. subst v0.
  destruct (ax v).
  - apply ret_Return in H as [_ ->]. exists v. split; [exact Hv|reflexivity].
  - apply bind_Return in H as (fig' & w1 & Hg & H).
    assert (Hvs : visualizers w1 = visualizers w).
    { revert Hg. unfold plt_gca, plt_figure. destruct (figures w);
        intros Hg; injection Hg as _ <-; reflexivity. }
    apply bind_Return in H as ([] & w2 & Hst & H).
    unfold store_visualizer in Hst. injection Hst as <-.
    apply ret_Return in H as [_ ->]. simpl. rewrite Hvs.
    exists (set_ax fig' v). split; [|repeat split].
    apply list_lookup_insert_eq. now apply lookup_lt_Some in Hv.
Qed.

Lemma pc_finalize_model (E : Ext.env) (pc : loc) (w w' : world) (v : visualizer) :
  pc_finalize E pc w = (Return tt, w') -> visualizers w !! pc = Some v ->
  exists v', visualizers w' !! pc = Some v' /\ same_model v v'.
Proof.
  unfold pc_finalize. intros H Hv.
  apply bind_Return in H as (fig & w1 & Hax & H).
  destruct (visualizer_ax_model pc w w1 fig v Hax Hv) as (v1 & Hv1 & Hm).
  apply bind_Return in H as (v2 & w2 & Hv2 & H).
  apply load_visualizer_Return in Hv2 as [Hv2 ->].
  destruct (Ext.finalize E v2); [|discriminate H].
  apply ret_Return in H as [_ ->]. eauto.
Qed.

Lemma yellowbrick_to_img_Return (E : Ext.env) (pc : loc) (w w' : world)
    (img : string) (v : visualizer) :
  yellowbrick_to_img E pc false w = (Return img, w') ->
  visualizers w !! pc = Some v ->
  exists v' imgdata,
    same_model v v' /\ Ext.poof E v' = Some imgdata /\ img = result_string imgdata.
Proof.
  unfold yellowbrick_to_img, pc_poof. intros H Hv.
  apply bind_Return in H as ([] & w0 & H0 & H). apply ret_Return in H0 as [_ ->].
  apply bind_Return in H as (imgdata & w1 & Hpoof & H).
  apply bind_Return in Hpoof as ([] & w2 & Hfin & Hpoof).
  destruct (pc_finalize_model E pc w w2 v Hfin Hv) as (v1 & Hv1 & Hm).
  apply bind_Return in Hpoof as (v2 & w3 & Hv2 & Hpoof).
  apply load_visualizer_Return in Hv2 as [Hv2 ->].
  assert (v2 = v1) by congruence. subst v2.
  apply bind_Return in Hpoof as ([] & w3 & _ & Hpoof).
  destruct (Ext.poof E v1) as [data|] eqn:Hdata; [|discriminate Hpoof].
  apply ret_Return in Hpoof as [-> _].
  apply bind_Return in H as ([] & w4 & _ & H). apply ret_Return in H as [-> _].
  exists v1, data. auto.
Qed.

(** Lines 296-299: the curve is that of the split it is given. *)
Lemma precision_recall_curve_Return (E : Ext.env) (s : train_test) (w w' : world)
    (img : string) :
  precision_recall_curve E s w = (Return img, w') -> curve_of E s img.
Proof.
  unfold precision_recall_curve. intros H.
  apply bind_Return in H as (pc & w1 & Hnew & H).
  unfold new_precision_recall_curve in Hnew.
  destruct (Ext.unique E (y_train s)) as [cs|] eqn:Hcs; [|discriminate Hnew].
  unfold alloc_visualizer in Hnew. injection Hnew as <- <-.
  apply bind_Return in H as ([] & w2 & Hfit & H).
  unfold pc_fit in Hfit.
  apply bind_Return in Hfit as (v0 & w3 & Hv0 & Hfit).
  apply load_visualizer_Return in Hv0 as [Hv0 ->]. simpl in Hv0.
  rewrite list_lookup_middle in Hv0 by reflexivity. injection Hv0 as <-.
  destruct (Ext.fit E _ _ _); [|discriminate Hfit].
  unfold store_visualizer in Hfit. injection Hfit as <-.
  apply bind_Return in H as ([] & w4 & Hscore & H).
  unfold pc_score in Hscore.
  apply bind_Return in Hscore as (v1 & w5 & Hv1 & Hscore).
  apply load_visualizer_Return in Hv1 as [Hv1 ->]. simpl in Hv1.
  rewrite list_lookup_insert_eq in Hv1
    by (rewrite length_app; simpl; lia).
  injection Hv1 as <-.
  destruct (Ext.score E _ _ _); [|discriminate Hscore].
  apply bind_Return in Hscore as (fig & w6 & Hax & Hscore).
  eapply visualizer_ax_model in Hax as (v2 & Hv2 & Hm2);
    [|simpl; apply list_lookup_insert_eq; rewrite length_app; simpl; lia].
  apply bind_Return in Hscore as (v3 & w7 & Hv3 & Hscore).
  apply load_visualizer_Return in Hv3 as [Hv3 ->].
  assert (v3 = v2) by congruence. subst v3.
  unfold store_visualizer in Hscore. injection Hscore as <-.
  eapply yellowbrick_to_img_Return in H as (v4 & data & Hm4 & Hdata & ->);
    [|simpl; apply list_lookup_insert_eq; now apply lookup_lt_Some in Hv2].
  exists v4, data.
  destruct Hm2 as (Hc2 & Hf2 & _), Hm4 as (Hc4 & Hf4 & Hs4). simpl in *.
  repeat split; congruence.
Qed.

Lemma block_precision_recall_curve (E : Ext.env) (which : option string)
    (w w' : world) :
  block_precision_recall E (block_named which) w = (Return tt, w') ->
  exists l blk s img,
    block_named_of which (report w) = Return l /\ blocks w !! l = Some blk
    /\ Block.split blk = Some s /\ curve_of E s img
    /\ blocks w' = <[l := set_precision_recall_curve img (del_split blk)]> (blocks w)
    /\ report w' = report w.
Proof.
  unfold block_precision_recall, pop_split. intros H.
  apply bind_Return in H as (s & w1 & Hpop & H).
  apply bind_Return in Hpop as (l & w2 & Hl & Hpop).
  rewrite block_named_eq in Hl. injection Hl as Hl <-.
  apply bind_Return in Hpop as (blk & w2 & Hb & Hpop).
  apply load_block_Return in Hb as [Hb ->].
  apply bind_Return in Hpop as (s' & w2 & Hs & Hpop).
  apply getitem_Return in Hs as [Hs ->].
  apply bind_Return in Hpop as ([] & w2 & Hst & Hpop).
  apply store_block_Return in Hst as ->. apply ret_Return in Hpop as [-> ->].
  apply bind_Return in H as (img & w1 & Himg & H).
  pose proof (precision_recall_curve_same_store E s'
                (with_blocks (<[l:=del_split blk]> (blocks w)) w)) as Hsame.
  rewrite Himg in Hsame. destruct Hsame as (Hrep & Hbl & Hfr). simpl in *.
  apply precision_recall_curve_Return in Himg.
  apply bind_Return in H as (l' & w2 & Hl' & H).
  rewrite block_named_eq in Hl'. injection Hl' as Hl' <-.
  apply bind_Return in H as (blk' & w2 & Hb' & H).
  apply load_block_Return in Hb' as [Hb' ->].
  apply bind_Return in H as ([] & w2 & Hst & H).
  apply store_block_Return in Hst as ->.
  unfold plt_close in H. injection H as <-. simpl.
  rewrite Hrep in Hl'. assert (l' = l) by congruence. subst l'.
  rewrite Hbl, list_lookup_insert_eq in Hb' by (now apply lookup_lt_Some in Hb).
  injection Hb' as <-.
  exists l, blk, s', img. repeat split; try assumption.
  rewrite Hbl, list_insert_insert_eq. reflexivity.
Qed.

(** A pass of lines 295-300 keeps a block waiting for its curve or gives it
    the curve of its split, keeps a curve once stored, and gives the block
    it is run for its curve. *)
Lemma curve_pass_awaits (E : Ext.env) (which : option string) (w w' : world)
    (l : loc) (s : train_test) :
  block_precision_recall E (block_named which) w = (Return tt, w') ->
  (awaits_curve E l s w -> awaits_curve E l s w')
  /\ (has_curve E l s w -> has_curve E l s w')
  /\ (awaits_curve E l s w -> block_named_of which (report w) = Return l ->
      has_curve E l s w').
Proof.
  intros H.
  apply block_precision_recall_curve in H
    as (l' & blk & s' & img & Hl' & Hb & Hs & Hcurve & Hbl & Hrep).
  assert (Hkeep : has_curve E l s w -> has_curve E l s w').
  { intros (b & i & Hlb & Hnone & Hprc & Hc).
    assert (l <> l') by (intros ->; congruence).
    exists b, i. rewrite Hbl, list_lookup_insert_ne by auto. auto. }
  assert (Hset : (exists b, blocks w !! l = Some b /\ Block.split b = Some s) ->
                 l' = l -> has_curve E l s w').
  { intros (b & Hlb & Hsb) ->.
    assert (b = blk) by congruence. subst b.
    assert (s' = s) by congruence. subst s'.
    exists (set_precision_recall_curve img (del_split blk)), img.
    rewrite Hbl. split; [|repeat split; assumption].
    apply list_lookup_insert_eq. now apply lookup_lt_Some in Hb. }
  split; [|split].
  - intros [Hwait|Hhas]; [|right; auto].
    destruct (decide (l' = l)) as [Heq|Hne]; [right; auto|].
    left. destruct Hwait as (b & Hlb & Hsb). exists b.
    rewrite Hbl, list_lookup_insert_ne by auto. auto.
  - exact Hkeep.
  - intros [Hwait|Hhas] Hl; [|auto]. apply Hset; [exact Hwait|congruence].
Qed.

#[global] Instance splits_kept_preorder : PreOrder splits_kept.
Proof.
  split.
  - intros w l b Hb. eauto.
  - intros w1 w2 w3 H12 H23 l b Hb.
    destruct (H12 l b Hb) as (b2 & Hb2 & Hs2).
    destruct (H23 l b2 Hb2) as (b3 & Hb3 & Hs3). exists b3. split; congruence.
Qed.

Lemma splits_kept_insert (w w' : world) (l : loc) (blk : Block.t) (ms : list matrix) :
  blocks w !! l = Some blk ->
  blocks w' = <[l := set_prediction_matrixes ms blk]> (blocks w) ->
  splits_kept w w'.
Proof.
  intros Hb Hbl l' b' Hb'. rewrite Hbl. destruct (decide (l' = l)) as [->|Hne].
  - exists (set_prediction_matrixes ms blk). split; [|simpl; congruence].
    apply list_lookup_insert_eq. now apply lookup_lt_Some in Hb.
  - exists b'. now rewrite list_lookup_insert_ne.
Qed.

Ltac splits_kept_leaf :=
  solve [reflexivity | unfold splits_kept; simpl; eauto].

Lemma matrixes_phase_splits_kept (E : Ext.env) :
  returns_with splits_kept (matrixes_phase E).
Proof.
  unfold matrixes_phase.
  apply returns_with_bind; [typeclasses eauto| |intros _].
  { apply preserves_returns. preserves_go splits_kept_leaf. }
  apply returns_with_bind; [typeclasses eauto| |intros _].
  { intros w [] w' H.
    apply global_missing_matrix_Return in H as (? & ? & ? & ? & _ & _ & _ & _ & _ & Hbl & _).
    intros l b Hb. rewrite Hbl. eauto. }
  apply returns_with_bind; [typeclasses eauto| |intros _].
  { intros w [] w' H.
    apply baseline_matrixes_Return in H
      as (l & blk & r & d & ms & _ & Hb & _ & _ & _ & Hbl & _).
    exact (splits_kept_insert w w' l blk ms Hb Hbl). }
  unfold strategy_matrixes.
  apply returns_with_bind; [typeclasses eauto| |intros sc].
  { intros w sc w' H. rewrite strategy_classifications_eq in H.
    injection H as _ <-. reflexivity. }
  apply returns_with_for; [typeclasses eauto|intros k].
  intros w [] w' H.
  apply strategy_pass_Return in H
    as (dfs & t & tf & l & blk & r & rf & d & ms & _ & _ & _ & _ & Hb & _ & _ & _
        & _ & Hbl & _).
  exact (splits_kept_insert w w' l blk ms Hb Hbl).
Qed.

(** X18. In an assembled report every block the report names holds the
    precision-recall curve of its own split: the image saved by a
    visualizer made for the classes of the split's [y_train], fitted on its
    training part and scored on its test part, in the wire format of the
    module; and the split itself is gone from the block. *)
Theorem every_block_gets_its_curve (E : Ext.env) (w w' : world) (l : loc)
    (blk : Block.t) (s : train_test)
    (Hrun : generate_report_visualizations E w = (Return tt, w'))
    (Hnamed : names_block (report w) l)
    (Hb : blocks w !! l = Some blk) (Hs : Block.split blk = Some s) :
  exists b' img,
    blocks w' !! l = Some b'
    /\ Block.split b' = None
    /\ Block.precision_recall_curve b' = Some img
    /\ curve_of E s img
    /\ image_artifact img.
Proof.
  rewrite generate_report_visualizations_phases in Hrun.
  apply bind_Return in Hrun as ([] & w4 & H4 & Hrun).
  apply bind_Return in Hrun as ([] & w5 & H5 & Hrun).
  pose proof (matrixes_phase_splits_kept E w tt w4 H4 l blk Hb) as (b4 & Hb4 & Hs4).
  apply matrixes_phase_Return in H4 as (Hbase & Hsc & _).
  assert (Hwait : awaits_curve E l s w4) by (left; exists b4; split; congruence).
  pose proof (block_precision_recall_curve E None w4 w5 H5)
    as (_ & _ & _ & _ & _ & _ & _ & _ & _ & Hrep5).
  destruct (curve_pass_awaits E None w4 w5 l s H5) as (Hw5 & _ & Hset5).
  apply strategy_curves_Return in Hrun as (sc & Hsc5 & Hloop).
  assert (Hhas : has_curve E l s w').
  { destruct Hnamed as [Hl|(sc0 & k & Hsc0 & Hk)].
    - assert (H5' : has_curve E l s w5).
      { apply Hset5; [exact Hwait|]. simpl. unfold baseline_of. now rewrite Hbase, Hl. }
      revert H5' Hloop. apply for_invariant. intros x w1 w2 _ Hc Hx.
      destruct (curve_pass_awaits E (Some x) w1 w2 l s Hx) as (_ & Hkeep & _); auto.
    - assert (sc0 = sc) by congruence. subst sc0.
      assert (Hin : k ∈ map fst sc) by (eapply dict_lookup_elem; eassumption).
      apply (fun a b c d => for_establishes _
               (fun w1 => report w1 = report w5 /\ awaits_curve E l s w1)
               (has_curve E l s) _ k w5 w' a b c Hin d Hloop).
      + intros x w1 w2 _ [Hr Hw] Hx. split.
        * apply (block_precision_recall_curve E (Some x)) in Hx
            as (_ & _ & _ & _ & _ & _ & _ & _ & _ & Hr2). congruence.
        * destruct (curve_pass_awaits E (Some x) w1 w2 l s Hx) as (Hkeep & _); auto.
      + intros w1 w2 [Hr Hw] Hx.
        destruct (curve_pass_awaits E (Some k) w1 w2 l s Hx) as (_ & _ & Hset).
        apply Hset; [exact Hw|].
        simpl. unfold strategy_of. now rewrite Hr, Hsc5, Hk.
      + intros x w1 w2 _ _ Hc Hx.
        destruct (curve_pass_awaits E (Some x) w1 w2 l s Hx) as (_ & Hkeep & _); auto.
      + split; [reflexivity|]. now apply Hw5. }
  destruct Hhas as (b' & img & Hb' & Hnone & Hprc & Hcurve).
  exists b', img. repeat split; try assumption.
  destruct Hcurve as (v & data & _ & _ & _ & _ & ->).
  exists data, (quote (b64encode data)). split; [reflexivity|].
  split; [reflexivity|]. split.
  - apply quote_payload, b64encode_alphabet.
  - rewrite unquote_quote. apply b64decode_b64encode.
Qed.

Lemma every_block_gets_its_curve_witness :
  exists b' img,
    blocks Example.assembled_world !! 1%nat = Some b'
    /\ Block.split b' = None
    /\ Block.precision_recall_curve b' = Some img
    /\ curve_of Example.env_ok Example.a_split img
    /\ image_artifact img.
Proof.
  apply (every_block_gets_its_curve Example.env_ok Example.a_world
           Example.assembled_world 1%nat
           (Block.Make (Some 3%nat) (Some Example.a_split) None None)).
  - vm_compute. reflexivity.
  - right. exists [("mean", 1%nat)], "mean". split; reflexivity.
  - reflexivity.
  - reflexivity.
Defined.

(** ** Blocks under two names *)

Lemma curve_loop_needs_split (E : Ext.env) (keys : list string) (w w' : world)
    (l : loc) (x : string) :
  for_ keys (fun k => block_precision_recall E (strategy_block k)) w = (Return tt, w') ->
  popped l w -> x ∈ keys -> strategy_of x (report w) <> Return l.
Proof.
  intros H Hp Hx Hl.
  apply (fun a b c d e =>
           for_establishes _ (fun w1 => evolves w w1 /\ popped l w1) (fun _ => False)
             _ x w w' a b c d e H).
  - intros y w1 w2 _ [Hev Hp1] Hy.
    assert (evolves w1 w2)
      by apply (curve_pass_evolves E _ (strategy_of y) (strategy_block_eq y) _ _ Hy).
    split; [etrans; eassumption|]. now apply (evolves_popped w1 w2).
  - intros w1 w2 [(Hrep & _ & _) Hp1] Hpass.
    apply (curve_pass_needs_split E _ (strategy_of x) (strategy_block_eq x) _ _ l Hpass);
      [|assumption].
    now rewrite Hrep.
  - intros; contradiction.
  - assumption.
  - split; [reflexivity|assumption].
Qed.

Lemma curve_loop_no_sharing (E : Ext.env) (keys : list string) (w w' : world)
    (l : loc) (k1 k2 : string) :
  for_ keys (fun k => block_precision_recall E (strategy_block k)) w = (Return tt, w') ->
  k1 <> k2 -> k1 ∈ keys -> k2 ∈ keys ->
  strategy_of k1 (report w) = Return l -> strategy_of k2 (report w) = Return l ->
  False.
Proof.
  revert w. induction keys as [|x t IH]; intros w H Hne H1 H2 Hl1 Hl2.
  - now apply not_elem_of_nil in H1.
  - simpl in H. apply bind_Return in H as ([] & w1 & Hx & H).
    pose proof (curve_pass_evolves E _ (strategy_of x) (strategy_block_eq x) _ _ Hx)
      as (Hrep & _).
    assert (Hfirst : forall k k', k = x -> k' <> k -> k' ∈ x :: t ->
              strategy_of k (report w) = Return l ->
              strategy_of k' (report w) = Return l -> False).
    { intros k k' -> Hk' Hin Hl Hl'.
      apply elem_of_cons in Hin as [->|Hin]; [congruence|].
      apply (curve_loop_needs_split E t w1 w' l k' H); [|exact Hin|congruence].
      apply (curve_pass_popped E _ (strategy_of x) (strategy_block_eq x) _ _ _ Hx Hl). }
    destruct (decide (k1 = x)) as [Hk1|Hk1]; [eauto|].
    destruct (decide (k2 = x)) as [Hk2|Hk2]; [eauto|].
    apply elem_of_cons in H1 as [?|H1]; [contradiction|].
    apply elem_of_cons in H2 as [?|H2]; [contradiction|].
    apply (IH w1 H Hne H1 H2); congruence.
Qed.

(** X19. A block is given its curve once.  When two names of the report denote
    the same block (the baseline and a strategy, or two strategies), the
    second [pop("split")] on it fails: assembling never returns, it
    raises. *)
Theorem shared_block_never_assembles (E : Ext.env) (w : world)
    (Hshared : shares_block (report w)) :
  exists e w', generate_report_visualizations E w = (Raise e, w').
Proof.
  destruct (generate_report_visualizations E w) as [[[]|e] w'] eqn:Hrun; [|eauto].
  exfalso. rewrite generate_report_visualizations_phases in Hrun.
  apply bind_Return in Hrun as ([] & w4 & H4 & Hrun).
  apply bind_Return in Hrun as ([] & w5 & H5 & Hrun).
  apply matrixes_phase_Return in H4 as (Hbase & Hsc & _).
  pose proof (curve_pass_evolves E _ baseline_of baseline_block_eq _ _ H5)
    as (Hrep5 & _).
  apply strategy_curves_Return in Hrun as (sc' & Hsc' & Hloop).
  destruct Hshared as (sc & l & k & Hsc0 & Hk & Hother).
  assert (sc' = sc) by congruence. subst sc'.
  assert (Hof : forall x, dict_lookup x sc = Some l ->
                          strategy_of x (report w5) = Return l).
  { intros x Hx. unfold strategy_of. now rewrite Hsc', Hx. }
  destruct Hother as [Hl|(k' & Hne & Hk')].
  - apply (curve_loop_needs_split E (map fst sc) w5 w' l k Hloop).
    + apply (curve_pass_popped E _ baseline_of baseline_block_eq _ _ _ H5).
      unfold baseline_of. now rewrite Hbase, Hl.
    + eapply dict_lookup_elem; eassumption.
    + auto.
  - apply (curve_loop_no_sharing E (map fst sc) w5 w' l k' k Hloop Hne);
      try (eapply dict_lookup_elem; eassumption); auto.
Qed.

Lemma shared_block_never_assembles_witness :
  exists e w',
    generate_report_visualizations Example.env_ok
      (with_report
         (Report.Make (Some (Report.Dataframes (Some 0%nat) (Some 1%nat)))
                      (Some 0%nat) (Some [("mean", 0%nat)]) None)
         Example.a_world)
    = (Raise e, w').
Proof.
  apply shared_block_never_assembles.
  exists [("mean", 0%nat)], 0%nat, "mean". split; [reflexivity|].
  split; [reflexivity|]. left. reflexivity.
Defined.

(** ** The frame of a strategy *)





















